(** * Equirectangular-to-cubemap projection and camera-file parsing

    A shallow embedding of [perspective.py] and [export_camera_trajectory.py].

    Numeric conventions.  NumPy's float64 values are idealised as the real
    numbers of the Standard Library: rounding, signed zeros and NaN are not
    represented.  Python integers are [Z], array shapes are [nat].  A NumPy
    array of rank one is a [list R], of rank two a list of rows; an image
    (rank three, height x width x channels) is a shape together with its
    row-major sample buffer, whose 8-bit samples are reals too (the rounding
    of interpolated samples is not represented).  Exceptions are values of
    an error monad.

    Text and files.  A [str] read from a file is a list of Unicode code
    points; the strings a program builds from its own literals are [string]s.
    A file is a list of bytes.  [export_camera_trajectory.py] runs in a world
    made of the file system and of what has been printed, and its functions
    are state transformers that return or raise. *)

From Stdlib Require Import Reals Lra Lia ZArith List String Ascii.
From stdpp Require Import gmap strings.
Import ListNotations.

(** ** Exceptions *)

Module Py.

Inductive exn : Type :=
| ValueError (msg : string)
| KeyError (key : string)
| IndexError (msg : string)
| CvError (msg : string)
| UnicodeDecodeError (msg : string)
| UnicodeEncodeError (msg : string)
| FileNotFoundError (filename : string)
| IsADirectoryError (filename : string)
| PermissionError (filename : string).

Inductive result (A : Type) : Type :=
| Ok (a : A)
| Raise (e : exn).

Arguments Ok {A} a.
Arguments Raise {A} e.

Definition bind {A B : Type} (m : result A) (k : A -> result B) : result B :=
  match m with
  | Ok a => k a
  | Raise e => Raise e
  end.

(** [isinstance(e, ValueError)]: the Unicode errors are ValueErrors. *)
Definition is_ValueError (e : exn) : bool :=
  match e with
  | ValueError _ | UnicodeDecodeError _ | UnicodeEncodeError _ => true
  | _ => false
  end.

(** [l[i]] on a list. *)
Definition getitem {A : Type} (l : list A) (i : nat) : result A :=
  match nth_error l i with
  | Some a => Ok a
  | None => Raise (IndexError "list index out of range")
  end.

End Py.

Import Py.

#[global] Instance result_ret : MRet result := @Ok.
#[global] Instance result_bind : MBind result := fun A B k m => Py.bind m k.

(** ** Python strings and paths

    The strings the programs build themselves (file names, dictionary keys,
    printed numbers) are modelled as [string]s. *)

Module PyStr.

Local Open Scope string_scope.

(** [s.startswith(p)]. *)
Definition startswith (s p : string) : bool := String.prefix p s.

(** [s.endswith(p)]. *)
Definition endswith (s p : string) : bool :=
  let n := String.length s in
  let m := String.length p in
  (m <=? n)%nat && String.eqb (String.substring (n - m) m s) p.

(** [s.endswith((p1, p2, ...))]. *)
Definition endswith_any (s : string) (ps : list string) : bool :=
  existsb (endswith s) ps.

Definition lower_char (c : ascii) : ascii :=
  let n := nat_of_ascii c in
  if ((65 <=? n) && (n <=? 90))%nat then ascii_of_nat (n + 32) else c.

(** [s.lower()]. *)
Fixpoint lower (s : string) : string :=
  match s with
  | EmptyString => EmptyString
  | String c s' => String (lower_char c) (lower s')
  end.

Fixpoint rfind_from (s : string) (c : ascii) (i found : Z) : Z :=
  match s with
  | EmptyString => found
  | String a s' =>
      rfind_from s' c (i + 1) (if Ascii.eqb a c then i else found)
  end.

(** [s.rfind(c)] for a one-character [c]: the last index, or -1. *)
Definition rfind (s : string) (c : ascii) : Z := rfind_from s c 0 (-1).

End PyStr.

(** [os.path] on POSIX. *)

Module OsPath.

Import PyStr.
Local Open Scope string_scope.

Definition sep : ascii := "/"%char.
Definition extsep : ascii := "."%char.

(** [os.path.join(a, b)]. *)
Definition join (a b : string) : string :=
  if startswith b (String sep EmptyString) then b
  else if (String.eqb a EmptyString || endswith a (String sep EmptyString))
  then a ++ b
  else a ++ String sep EmptyString ++ b.

(** The loop of [genericpath._splitext] that skips leading dots: is there,
    among the [count] characters from [filenameIndex] on, one that is not
    the extension separator? *)
Fixpoint has_name_char (p : string) (filenameIndex count : nat) : bool :=
  match count with
  | O => false
  | S count' =>
      match String.get filenameIndex p with
      | Some c =>
          if Ascii.eqb c extsep
          then has_name_char p (S filenameIndex) count'
          else true
      | None => true
      end
  end.

(** [os.path.splitext(p)]: the extension starts at the last dot of the last
    path component, unless that component has only dots before it. *)
Definition splitext (p : string) : string * string :=
  let sepIndex := rfind p sep in
  let dotIndex := rfind p extsep in
  if (sepIndex <? dotIndex)%Z
  then
    if has_name_char p (Z.to_nat (sepIndex + 1))
         (Z.to_nat (dotIndex - (sepIndex + 1)))
    then (String.substring 0 (Z.to_nat dotIndex) p,
          String.substring (Z.to_nat dotIndex)
            (String.length p - Z.to_nat dotIndex) p)
    else (p, EmptyString)
  else (p, EmptyString).

End OsPath.

(** ** Text read from a file

    A [str] that comes from a file is a sequence of Unicode code points. *)

Module PyText.

Local Open Scope N_scope.

Definition text : Type := list N.

(** A literal of the program, made of ASCII characters. *)
Definition of_string (s : string) : text :=
  map N_of_ascii (list_ascii_of_string s).

(** [str.isspace] on one code point: the characters U+0009 to U+000D,
    U+001C to U+0020, U+0085, U+00A0, U+1680, U+2000 to U+200A, U+2028,
    U+2029, U+202F, U+205F and U+3000. *)
Definition isspace (c : N) : bool :=
  ((9 <=? c) && (c <=? 13)) || ((28 <=? c) && (c <=? 32))
  || (c =? 133) || (c =? 160) || (c =? 5760)
  || ((8192 <=? c) && (c <=? 8202))
  || (c =? 8232) || (c =? 8233) || (c =? 8239) || (c =? 8287)
  || (c =? 12288).

Fixpoint lstrip (s : text) : text :=
  match s with
  | [] => []
  | c :: s' => if isspace c then lstrip s' else s
  end.

Fixpoint rstrip (s : text) : text :=
  match s with
  | [] => []
  | c :: s' =>
      match rstrip s' with
      | [] => if isspace c then [] else [c]
      | r => c :: r
      end
  end.

(** [s.strip()]. *)
Definition strip (s : text) : text := lstrip (rstrip s).

Definition flush (cur : option text) : list text :=
  match cur with Some w => [w] | None => [] end.

Fixpoint split_from (s : text) (cur : option text) : list text :=
  match s with
  | [] => flush cur
  | c :: s' =>
      if isspace c then (flush cur ++ split_from s' None)%list
      else split_from s'
             (Some (match cur with Some w => w | None => [] end ++ [c])%list)
  end.

(** [s.split()]: the maximal runs of characters that are not white space. *)
Definition split (s : text) : list text := split_from s None.

(** [s.startswith(p)]. *)
Fixpoint startswith (s p : text) : bool :=
  match p, s with
  | [], _ => true
  | a :: p', b :: s' => (a =? b) && startswith s' p'
  | _ :: _, [] => false
  end.

(** [s == t]. *)
Definition eqb (s t : text) : bool := bool_decide (s = t).

End PyText.

(** ** Files as Python reads and writes them in text mode *)

Module Codec.

Import PyText.
Local Open Scope N_scope.

Definition continuation (b : N) : bool := (128 <=? b) && (b <=? 191).

(** The strict UTF-8 decoder, on the values of the bytes: [None] stands for
    the [UnicodeDecodeError] raised on a byte sequence that is not well
    formed (a stray or missing continuation byte, an overlong form, a
    surrogate, a code point above U+10FFFF). *)
Fixpoint utf_8_points (bs : list N) : option text :=
  match bs with
  | [] => Some []
  | b0 :: r0 =>
      if b0 <? 128 then cons b0 <$> utf_8_points r0
      else if (194 <=? b0) && (b0 <=? 223) then
        match r0 with
        | b1 :: r1 =>
            if continuation b1
            then cons ((b0 - 192) * 64 + (b1 - 128)) <$> utf_8_points r1
            else None
        | _ => None
        end
      else if (224 <=? b0) && (b0 <=? 239) then
        match r0 with
        | b1 :: b2 :: r2 =>
            let low := if b0 =? 224 then 160 else 128 in
            let high := if b0 =? 237 then 159 else 191 in
            if (low <=? b1) && (b1 <=? high) && continuation b2
            then cons ((b0 - 224) * 4096 + (b1 - 128) * 64 + (b2 - 128))
                   <$> utf_8_points r2
            else None
        | _ => None
        end
      else if (240 <=? b0) && (b0 <=? 244) then
        match r0 with
        | b1 :: b2 :: b3 :: r3 =>
            let low := if b0 =? 240 then 144 else 128 in
            let high := if b0 =? 244 then 143 else 191 in
            if (low <=? b1) && (b1 <=? high) && continuation b2
               && continuation b3
            then cons ((b0 - 240) * 262144 + (b1 - 128) * 4096
                       + (b2 - 128) * 64 + (b3 - 128))
                   <$> utf_8_points r3
            else None
        | _ => None
        end
      else None
  end.

(** [bytes.decode('utf-8')]. *)
Definition utf_8 (content : list Byte.byte) : option text :=
  utf_8_points (map Byte.to_N content).

(** [str.encode('utf-8')] on a string of the program, whose characters have
    code points below 256. *)
Definition utf_8_char (c : ascii) : list Byte.byte :=
  let n := N_of_ascii c in
  if n <? 128 then [byte_of_ascii c]
  else [byte_of_ascii (ascii_of_N (192 + n / 64));
        byte_of_ascii (ascii_of_N (128 + n mod 64))].

Definition utf_8_bytes (s : string) : list Byte.byte :=
  concat (map utf_8_char (list_ascii_of_string s)).

(** The lines of a text as [readlines] returns them in text mode: the line
    ends CR LF and CR are read as LF (universal newlines), and each line
    keeps its line end. *)
Fixpoint lines_from (t : text) (cur : text) : list text :=
  match t with
  | [] => match cur with [] => [] | _ => [cur] end
  | c :: t' =>
      if c =? 10 then (cur ++ [10])%list :: lines_from t' []
      else if c =? 13 then
        match t' with
        | d :: t'' =>
            if d =? 10 then (cur ++ [10])%list :: lines_from t'' []
            else (cur ++ [10])%list :: lines_from t' []
        | [] => [(cur ++ [10])%list]
        end
      else lines_from t' (cur ++ [c])%list
  end.

Definition lines (t : text) : list text := lines_from t [].

End Codec.

(** ** The NumPy primitives used by [perspective.py] *)

Module Np.

Local Open Scope R_scope.

(** [np.deg2rad]. *)
Definition deg2rad (x : R) : R := x * (PI / 180).

(** [np.arange(0, num)] as reals. *)
Definition arange (num : nat) : list R := map INR (seq 0 num).

(** Replace the last element of a rank-one array ([y[-1] = stop]). *)
Fixpoint set_last (l : list R) (v : R) : list R :=
  match l with
  | [] => []
  | [_] => [v]
  | a :: t => a :: set_last t v
  end.

(** [np.linspace(start, stop, num)] with the default [endpoint=True]:
    a negative [num] raises [ValueError]; otherwise
    [div = num - 1], [y = arange(0, num)], [step = delta / div],
    [y = y * step + start] when [div > 0] (and [y * delta + start] when
    not), and the last sample is overwritten by [stop] when [num > 1]. *)
Definition linspace (start stop : R) (num : Z) : result (list R) :=
  if (num <? 0)%Z then
    Raise (ValueError "Number of samples must be non-negative.")
  else
    let div := (num - 1)%Z in
    let delta := stop - start in
    let y := arange (Z.to_nat num) in
    let y :=
      if (0 <? div)%Z then map (fun i => i * (delta / IZR div)) y
      else map (fun i => i * delta) y in
    let y := map (fun v => v + start) y in
    Ok (if (1 <? num)%Z then set_last y stop else y).

(** [np.meshgrid(x, y)] with the default ['xy'] indexing: both results have
    one row per element of [y] and one column per element of [x]; they are
    fresh copies, so later in-place updates do not reach [x] or [y]. *)
Definition meshgrid (x y : list R) : list (list R) * list (list R) :=
  (map (fun _ => x) y, map (fun yi => map (fun _ => yi) x) y).

(** Element-wise operations on rank-two arrays. *)
Definition map2d (f : R -> R) (a : list (list R)) : list (list R) :=
  map (map f) a.

Definition zip2d (f : R -> R -> R) (a b : list (list R)) : list (list R) :=
  zip_with (zip_with f) a b.

Definition ones_like (a : list (list R)) : list (list R) :=
  map2d (fun _ => 1) a.

(** A rank-two array with three columns, kept as a list of rows, and one
    with three rows, kept as three rank-one arrays. *)
Definition vec3 : Type := R * R * R.
Definition rows3 : Type := list R * list R * list R.

(** [np.stack([a, b, c], axis=-1).reshape(-1, 3)]: the cells in row-major
    order, each with its three components. *)
Definition stack3 (a b c : list (list R)) : list vec3 :=
  concat (zip_with (fun ra rbc => zip_with (fun x yz => (x, fst yz, snd yz))
                                   ra rbc)
            a (zip_with (zip_with pair) b c)).

(** [.T] from shape (N, 3) to shape (3, N), and back. *)
Definition transpose (v : list vec3) : rows3 :=
  (map (fun p => fst (fst p)) v, map (fun p => snd (fst p)) v,
   map (fun p => snd p) v).

Definition transpose_back (m : rows3) : list vec3 :=
  let '(a, b, c) := m in
  zip_with (fun x yz => (x, fst yz, snd yz)) a (zip_with pair b c).

(** A 3 x 3 array, by rows. *)
Definition mat3 : Type := vec3 * vec3 * vec3.

Definition col (m : mat3) (j : nat) : vec3 :=
  let '((a00, a01, a02), (a10, a11, a12), (a20, a21, a22)) := m in
  match j with
  | O => (a00, a10, a20)
  | S O => (a01, a11, a21)
  | _ => (a02, a12, a22)
  end.

Definition dot (u v : vec3) : R :=
  let '(u0, u1, u2) := u in
  let '(v0, v1, v2) := v in
  u0 * v0 + u1 * v1 + u2 * v2.

(** [A @ B] for two 3 x 3 arrays. *)
Definition matmul (a b : mat3) : mat3 :=
  let '(r0, r1, r2) := a in
  ((dot r0 (col b 0), dot r0 (col b 1), dot r0 (col b 2)),
   (dot r1 (col b 0), dot r1 (col b 1), dot r1 (col b 2)),
   (dot r2 (col b 0), dot r2 (col b 1), dot r2 (col b 2))).

(** [A @ V] for a 3 x 3 array and a 3 x N array. *)
Definition lincomb (r : vec3) (v : rows3) : list R :=
  let '(r0, r1, r2) := r in
  let '(v0, v1, v2) := v in
  zip_with Rplus
    (zip_with Rplus (map (Rmult r0) v0) (map (Rmult r1) v1))
    (map (Rmult r2) v2).

Definition matmul_rows (a : mat3) (v : rows3) : rows3 :=
  let '(r0, r1, r2) := a in
  (lincomb r0 v, lincomb r1 v, lincomb r2 v).

(** The product of a 3 x 3 array with one column vector. *)
Definition apply (a : mat3) (v : vec3) : vec3 :=
  let '(r0, r1, r2) := a in (dot r0 v, dot r1 v, dot r2 v).

(** [np.arctan2(x1, x2)]: the angle of the point [(x2, x1)], in
    (-PI, PI]. *)
Definition arctan2 (x1 x2 : R) : R :=
  if Rlt_dec 0 x2 then atan (x1 / x2)
  else if Rlt_dec x2 0 then
    if Rle_dec 0 x1 then atan (x1 / x2) + PI else atan (x1 / x2) - PI
  else
    if Rlt_dec 0 x1 then PI / 2
    else if Rlt_dec x1 0 then - (PI / 2)
    else 0.

(** [np.arcsin] on [-1, 1]; outside that interval NumPy yields NaN, which
    has no counterpart here ([asin] stays at the nearest bound). *)
Definition arcsin (x : R) : R := asin x.

(** [a.reshape(rows, cols)] of a rank-one array of [rows * cols] cells. *)
Fixpoint reshape (rows cols : nat) (a : list R) : list (list R) :=
  match rows with
  | O => []
  | S r => firstn cols a :: reshape r cols (skipn cols a)
  end.

End Np.

(** ** Images and the OpenCV resampler *)

Module Cv2.

Local Open Scope R_scope.

(** An image as NumPy holds it: [shape = (height, width, channels)] and the
    samples in row-major order. *)
Record image : Type := mkImage {
  height : nat;
  width : nat;
  channels : nat;
  data : list R
}.

Definition wf_image (img : image) : Prop :=
  length (data img) = (height img * width img * channels img)%nat.

Definition same_shape (h w c : nat) (img : image) : Prop :=
  height img = h /\ width img = w /\ channels img = c.

Inductive interpolation : Type := INTER_LINEAR.

Inductive border : Type := BORDER_REPLICATE | BORDER_WRAP.

(** [cv::borderInterpolate]: the index of the source sample that stands for
    position [p] on an axis of [len] samples.  [BORDER_REPLICATE] is
    [aaaaaa|abcdefgh|hhhhhhh], [BORDER_WRAP] is [cdefgh|abcdefgh|abcdefg]. *)
Definition borderInterpolate (p len : Z) (b : border) : Z :=
  if ((0 <=? p) && (p <? len))%Z then p
  else match b with
       | BORDER_REPLICATE => if (p <? 0)%Z then 0%Z else (len - 1)%Z
       | BORDER_WRAP => (p mod len)%Z
       end.

(** The sample of channel [k] at row [y], column [x], after border
    extrapolation; one border mode serves both axes. *)
Definition fetch (src : image) (b : border) (y x : Z) (k : nat) : R :=
  let yy := Z.to_nat (borderInterpolate y (Z.of_nat (height src)) b) in
  let xx := Z.to_nat (borderInterpolate x (Z.of_nat (width src)) b) in
  nth ((yy * width src + xx) * channels src + k)%nat (data src) 0.

(** Bilinear interpolation over the four neighbours of [(sx, sy)]. *)
Definition sample (src : image) (b : border) (sx sy : R) : list R :=
  let x0 := Zfloor sx in
  let y0 := Zfloor sy in
  let a := sx - IZR x0 in
  let c := sy - IZR y0 in
  map (fun k =>
         (1 - a) * (1 - c) * fetch src b y0 x0 k
         + a * (1 - c) * fetch src b y0 (x0 + 1) k
         + (1 - a) * c * fetch src b (y0 + 1) x0 k
         + a * c * fetch src b (y0 + 1) (x0 + 1) k)
      (seq 0 (channels src)).

(** [cv2.remap(src, map_x, map_y, interpolation, borderMode)]:
    [dst(r, c) = src(map_x(r, c), map_y(r, c))], of the size of the maps and
    the type of [src].  An empty map is refused by the function's opening
    assertion; an empty source is refused when the first sample is
    extrapolated. *)
Definition remap (src : image) (map_x map_y : list (list R))
    (_ : interpolation) (borderMode : border) : result image :=
  match map_x with
  | [] => Raise (CvError "!_map1.empty()")
  | row0 :: _ =>
      if ((height src =? 0) || (width src =? 0))%nat then
        Raise (CvError "len > 0")
      else
        Ok {| height := length map_x;
              width := length row0;
              channels := channels src;
              data := concat (zip_with
                                (fun rx ry =>
                                   concat (zip_with (sample src borderMode)
                                             rx ry))
                                map_x map_y) |}
  end.

End Cv2.

(** ** [perspective.py] *)

Module Perspective.

Import Np Cv2.
Local Open Scope R_scope.

(** [rotation_matrix(angle, axis)]. *)
Definition rotation_matrix (angle : R) (axis : string) : result mat3 :=
  if String.eqb axis "x" then
    Ok ((1, 0, 0),
        (0, cos angle, - sin angle),
        (0, sin angle, cos angle))
  else if String.eqb axis "y" then
    Ok ((cos angle, 0, sin angle),
        (0, 1, 0),
        (- sin angle, 0, cos angle))
  else if String.eqb axis "z" then
    Ok ((cos angle, - sin angle, 0),
        (sin angle, cos angle, 0),
        (0, 0, 1))
  else Raise (ValueError "Invalid rotation axis").

(** Lines 62-71 of [perspective_projection]: the planar grid, lifted to
    z = 1 and normalised in place. *)
Definition unit_rays (face_size : Z)
  : result (list (list R) * list (list R) * list (list R)) :=
  x ← linspace (-1) 1 face_size;
  y ← linspace (-1) 1 face_size;
  let '(xv, yv) := meshgrid x (map Ropp y) in
  let zv := ones_like xv in
  let norm :=
    map2d sqrt (zip2d Rplus (zip2d Rplus (map2d (fun v => v ^ 2) xv)
                                         (map2d (fun v => v ^ 2) yv))
                            (map2d (fun v => v ^ 2) zv)) in
  let xv := zip2d Rdiv xv norm in
  let yv := zip2d Rdiv yv norm in
  let zv := zip2d Rdiv zv norm in
  mret (xv, yv, zv).

(** Lines 73-77 and 86-87: the field-of-view scaling and the flattening to
    one ray per output pixel. *)
Definition fov : R := 90.

Definition ray_grid (face_size : Z) : result (list vec3) :=
  '(xv, yv, zv) ← unit_rays face_size;
  let theta := deg2rad (fov / 2) in
  let xv := map2d (fun v => v * tan theta) xv in
  let yv := map2d (fun v => v * tan theta) yv in
  let zv := zip2d Rmult zv (ones_like xv) in
  mret (stack3 xv yv zv).

(** Lines 57-59 and 80-83: the three elementary rotations and their
    product. *)
Definition compose_rotation (yaw pitch roll : R) : result mat3 :=
  let yaw := deg2rad yaw in
  let pitch := deg2rad pitch in
  let roll := deg2rad roll in
  R_yaw ← rotation_matrix yaw "y";
  R_pitch ← rotation_matrix pitch "x";
  R_roll ← rotation_matrix roll "z";
  mret (matmul (matmul R_roll R_pitch) R_yaw).

(** Lines 87-89: [(R @ vec.T).T]. *)
Definition rotate_rays (R : mat3) (vec : list vec3) : list vec3 :=
  transpose_back (matmul_rows R (transpose vec)).

(** Lines 92-97: from a rotated ray to panorama pixel coordinates. *)
Definition source_xy (shape0 shape1 : nat) (v : vec3) : R * R :=
  let '(v0, v1, v2) := v in
  let lon := arctan2 v0 v2 in
  let lat := arcsin v1 in
  let src_x := (lon + PI) / (2 * PI) * (INR shape1 - 1) in
  let src_y := (PI / 2 - lat) / PI * (INR shape0 - 1) in
  (src_x, src_y).

(** Lines 57-101: everything [perspective_projection] computes before it
    calls the resampler. *)
Definition projection_maps (shape0 shape1 : nat) (face_size : Z)
    (yaw pitch roll : R) : result (list (list R) * list (list R)) :=
  vec ← ray_grid face_size;
  R ← compose_rotation yaw pitch roll;
  let vec_rot := rotate_rays R vec in
  let src := map (source_xy shape0 shape1) vec_rot in
  let n := Z.to_nat face_size in
  mret (reshape n n (map fst src), reshape n n (map snd src)).

Definition perspective_projection (equirect_img : image) (face_size : Z)
    (yaw pitch roll : R) : result image :=
  '(map_x, map_y) ← projection_maps (height equirect_img)
                      (width equirect_img) face_size yaw pitch roll;
  remap equirect_img map_x map_y INTER_LINEAR BORDER_WRAP.

(** [equirectangular_to_cubemap]: the loop over the four faces appends each
    face to [faces]; an exception leaves the loop. *)
Definition face_names : list string := ["front"; "right"; "back"; "left"].

Definition face_angles (face : string) : result (R * R * R) :=
  if String.eqb face "front" then Ok (0, 0, 0)
  else if String.eqb face "right" then Ok (90, 0, 0)
  else if String.eqb face "back" then Ok (180, 0, 0)
  else if String.eqb face "left" then Ok (-90, 0, 0)
  else Raise (KeyError face).

Fixpoint cubemap_loop (img : image) (face_size : Z) (todo : list string)
    (faces : list image) : result (list image) :=
  match todo with
  | [] => mret faces
  | face :: rest =>
      '(yaw, pitch, roll) ← face_angles face;
      face_img ← perspective_projection img face_size yaw pitch roll;
      cubemap_loop img face_size rest (faces ++ [face_img])
  end.

Definition equirectangular_to_cubemap (img : image) (face_size : Z)
  : result (list image) :=
  cubemap_loop img face_size face_names [].

(** [process_panoramas]: the files of the input folder, in the order
    [os.listdir] gives them; [imread] is the decoder ([None] when the file
    cannot be read); the result is the sequence of [cv2.imwrite] calls made,
    and whether the run ended normally.  The decoder is taken not to depend
    on the files written during the run. *)
Definition image_extensions : list string := [".jpg"; ".jpeg"; ".png"].

Fixpoint write_faces (output_folder base_name : string)
    (faces : list (string * image)) (written : list (string * image))
  : list (string * image) :=
  match faces with
  | [] => written
  | (face, face_img) :: rest =>
      let output_path :=
        OsPath.join output_folder
          (base_name ++ "_" ++ face ++ ".jpg")%string in
      write_faces output_folder base_name rest
        (written ++ [(output_path, face_img)])
  end.

Fixpoint panorama_loop (imread : string -> option image)
    (input_folder output_folder : string) (face_size : Z)
    (files : list string) (written : list (string * image))
  : list (string * image) * result unit :=
  match files with
  | [] => (written, Ok tt)
  | filename :: rest =>
      if PyStr.endswith_any (PyStr.lower filename) image_extensions then
        let img_path := OsPath.join input_folder filename in
        match imread img_path with
        | None =>
            panorama_loop imread input_folder output_folder face_size rest
              written
        | Some img =>
            match equirectangular_to_cubemap img face_size with
            | Raise e => (written, Raise e)
            | Ok cubemap_faces =>
                let base_name := fst (OsPath.splitext filename) in
                let written :=
                  write_faces output_folder base_name
                    (zip_with pair face_names cubemap_faces) written in
                panorama_loop imread input_folder output_folder face_size
                  rest written
            end
        end
      else
        panorama_loop imread input_folder output_folder face_size rest
          written
  end.

Definition process_panoramas (listdir : list string)
    (imread : string -> option image)
    (input_folder output_folder : string) (face_size : Z)
  : list (string * image) * result unit :=
  panorama_loop imread input_folder output_folder face_size listdir [].

End Perspective.

(** ** [perspective.py] with its arrays in a store

    The same two functions, with the images and the rank-two arrays they
    create held in a store and named by their positions, so that the
    in-place divisions ([xv /= norm]) and the sharing of the panorama between
    the four calls are explicit.  The rank-one arrays [x] and [y] are only
    read ([np.meshgrid] copies them) and stay values.  Nothing is freed. *)

Module InPlace.

Import Np Cv2.
Local Open Scope R_scope.

Record store : Type := mkStore {
  images : list image;
  arrays : list (list (list R))
}.

Definition st (A : Type) : Type := store -> result (A * store).

#[global] Instance st_ret : MRet st := fun A a s => Ok (a, s).
#[global] Instance st_bind : MBind st := fun A B k m s =>
  match m s with
  | Ok (a, s') => k a s'
  | Raise e => Raise e
  end.

Definition lift {A : Type} (r : result A) : st A := fun s =>
  match r with
  | Ok a => Ok (a, s)
  | Raise e => Raise e
  end.

Definition no_image : image := mkImage 0 0 0 [].

Definition new_array (a : list (list R)) : st nat := fun s =>
  Ok (length (arrays s), mkStore (images s) (arrays s ++ [a])).

Definition get_array (l : nat) : st (list (list R)) := fun s =>
  Ok (nth l (arrays s) [], s).

Definition set_array (l : nat) (a : list (list R)) : st unit := fun s =>
  Ok (tt, mkStore (images s) (<[l := a]> (arrays s))).

Definition new_image (img : image) : st nat := fun s =>
  Ok (length (images s), mkStore (images s ++ [img]) (arrays s)).

Definition get_image (l : nat) : st image := fun s =>
  Ok (nth l (images s) no_image, s).

(** [np.meshgrid]: two fresh arrays. *)
Definition meshgrid (x y : list R) : st (nat * nat) :=
  xv ← new_array (fst (Np.meshgrid x y));
  yv ← new_array (snd (Np.meshgrid x y));
  mret (xv, yv).

(** [np.ones_like(a)]: a fresh array. *)
Definition ones_like (a : nat) : st nat :=
  va ← get_array a;
  new_array (Np.ones_like va).

(** [a /= b]: the array named [a] is overwritten. *)
Definition idiv (a b : nat) : st unit :=
  va ← get_array a;
  vb ← get_array b;
  set_array a (zip2d Rdiv va vb).

(** [a * k] and [a * b]: fresh arrays. *)
Definition scale (a : nat) (k : R) : st nat :=
  va ← get_array a;
  new_array (map2d (fun v => v * k) va).

Definition mul (a b : nat) : st nat :=
  va ← get_array a;
  vb ← get_array b;
  new_array (zip2d Rmult va vb).

(** [np.sqrt(xv**2 + yv**2 + zv**2)]: a fresh array. *)
Definition norm_of (xv yv zv : nat) : st nat :=
  a ← get_array xv;
  b ← get_array yv;
  c ← get_array zv;
  new_array
    (map2d sqrt (zip2d Rplus (zip2d Rplus (map2d (fun v => v ^ 2) a)
                                          (map2d (fun v => v ^ 2) b))
                             (map2d (fun v => v ^ 2) c))).

Definition perspective_projection (equirect_img : nat) (face_size : Z)
    (yaw pitch roll : R) : st nat :=
  x ← lift (linspace (-1) 1 face_size);
  y ← lift (linspace (-1) 1 face_size);
  '(xv, yv) ← meshgrid x (map Ropp y);
  zv ← ones_like xv;
  norm ← norm_of xv yv zv;
  _ ← idiv xv norm;
  _ ← idiv yv norm;
  _ ← idiv zv norm;
  let theta := deg2rad (Perspective.fov / 2) in
  xv ← scale xv (tan theta);
  yv ← scale yv (tan theta);
  ones ← ones_like xv;
  zv ← mul zv ones;
  rot ← lift (Perspective.compose_rotation yaw pitch roll);
  a ← get_array xv;
  b ← get_array yv;
  c ← get_array zv;
  let vec := stack3 a b c in
  let vec_rot := Perspective.rotate_rays rot vec in
  img ← get_image equirect_img;
  let src := map (Perspective.source_xy (height img) (width img)) vec_rot in
  let n := Z.to_nat face_size in
  face_img ← lift (remap img (reshape n n (map fst src))
                     (reshape n n (map snd src)) INTER_LINEAR BORDER_WRAP);
  new_image face_img.

Fixpoint cubemap_loop (img : nat) (face_size : Z) (todo : list string)
    (faces : list nat) : st (list nat) :=
  match todo with
  | [] => mret faces
  | face :: rest =>
      '(yaw, pitch, roll) ← lift (Perspective.face_angles face);
      face_img ← perspective_projection img face_size yaw pitch roll;
      cubemap_loop img face_size rest (faces ++ [face_img])
  end.

Definition equirectangular_to_cubemap (img : nat) (face_size : Z)
  : st (list nat) :=
  cubemap_loop img face_size Perspective.face_names [].

(** The images that a list of names stands for. *)
Definition deref (s : store) (faces : list nat) : list image :=
  map (fun l => nth l (images s) no_image) faces.

End InPlace.

(** ** [export_camera_trajectory.py]

    The program reads and writes files and prints messages.  Its world is
    the file system, a map from paths to entries, and the text printed so
    far.  An entry is a file with its bytes, or something that cannot be
    opened (a directory, a file without permission) with the [OSError] that
    opening it raises.  Whether the console takes a message is a parameter:
    [print] raises the exception the console answers (a [UnicodeEncodeError]
    on a console that cannot encode the message, an [OSError] on a closed
    pipe).  The codec of text files opened without an encoding, which is the
    codec of the locale, is a parameter too. *)

Module ExportCameraTrajectory.

Import PyText.

(** The messages of the program, by the [print] call that writes them; the
    text in front of the value is fixed. *)
Inductive message : Type :=
| SkippedLine (line : text)
| ParseError (line : text)
| ErrorDetails (e : exn)
| Saved (output_file : string)
| NoData.

Inductive entry : Type :=
| File (content : list Byte.byte)
| Blocked (e : exn).

Record world : Type := mkWorld {
  files : gmap string entry;
  stdout : list message
}.

(** A computation changes the world and returns or raises; what it did to
    the world before raising stays done. *)
Definition io (A : Type) : Type := world -> result A * world.

#[global] Instance io_ret : MRet io := fun A a w => (Ok a, w).
#[global] Instance io_bind : MBind io := fun A B k m w =>
  match m w with
  | (Ok a, w') => k a w'
  | (Raise e, w') => (Raise e, w')
  end.

Definition lift {A : Type} (r : result A) : io A := fun w => (r, w).

(** [try: body  except ValueError as e: handler]. *)
Definition try_except_ValueError {A : Type} (body : io A)
    (handler : exn -> io A) : io A := fun w =>
  match body w with
  | (Raise e, w') => if is_ValueError e then handler e w' else (Raise e, w')
  | done => done
  end.

(** [open(file_path, 'r')]: the bytes behind the file object. *)
Definition open_r (file_path : string) : io (list Byte.byte) := fun w =>
  match files w !! file_path with
  | None => (Raise (FileNotFoundError file_path), w)
  | Some (Blocked e) => (Raise e, w)
  | Some (File content) => (Ok content, w)
  end.

(** [with open(output_file, mode='w', ...) as f: body], for a body that
    writes the text [fst body] to [f] and ends as [snd body] says: the file is
    created or emptied when it is opened, and what was written reaches it when
    the block is left, normally or not. *)
Definition with_open_w (output_file : string) (body : string * result unit)
  : io unit := fun w =>
  match files w !! output_file with
  | Some (Blocked e) => (Raise e, w)
  | _ =>
      (snd body,
       mkWorld (<[output_file := File (Codec.utf_8_bytes (fst body))]>
                  (files w))
         (stdout w))
  end.

Section Parse.

(** Python's floats and the builtin [float] on a string ([None] stands for
    the [ValueError] it raises on a string that is not a number), the codec
    of the locale ([None] stands for its [UnicodeDecodeError]) and the
    console ([None] stands for a message that is printed). *)
Context {float : Type} (py_float : text -> option float)
  (decode : list Byte.byte -> option text)
  (console : message -> option exn).

Definition camera : Type := gmap string float.

(** [print(...)]. *)
Definition print (m : message) : io unit := fun w =>
  match console m with
  | None => (Ok tt, mkWorld (files w) (stdout w ++ [m]))
  | Some e => (Raise e, w)
  end.

(** [file.readlines()]. *)
Definition readlines (content : list Byte.byte) : io (list text) :=
  fun w =>
    match decode content with
    | Some t => (Ok (Codec.lines t), w)
    | None => (Raise (UnicodeDecodeError "codec can't decode bytes"), w)
    end.

Definition float_of (s : text) : result float :=
  match py_float s with
  | Some v => Ok v
  | None => Raise (ValueError "could not convert string to float")
  end.

(** [list(map(float, parts))]. *)
Fixpoint map_float (parts : list text) : result (list float) :=
  match parts with
  | [] => Ok []
  | s :: rest =>
      v ← float_of s;
      vs ← map_float rest;
      mret (v :: vs)
  end.

(** The dictionary literal of [parse_cameras]. *)
Definition camera_dict (r00 r01 r02 r10 r11 r12 r20 r21 r22 tx ty tz f : float)
  : camera :=
  list_to_map
    [("R00", r00); ("R01", r01); ("R02", r02);
     ("R10", r10); ("R11", r11); ("R12", r12);
     ("R20", r20); ("R21", r21); ("R22", r22);
     ("Tx", tx); ("Ty", ty); ("Tz", tz);
     ("FocalLength", f)].

(** The body of the [try] statement for one line. *)
Definition parse_parts (parts : list text) (cameras_data : list camera)
  : result (list camera) :=
  rotation_matrix ← map_float (firstn 9 parts);
  translation_vector ← map_float (firstn 3 (skipn 9 parts));
  p12 ← getitem parts 12;
  focal_length ← float_of p12;
  r00 ← getitem rotation_matrix 0;
  r01 ← getitem rotation_matrix 1;
  r02 ← getitem rotation_matrix 2;
  r10 ← getitem rotation_matrix 3;
  r11 ← getitem rotation_matrix 4;
  r12 ← getitem rotation_matrix 5;
  r20 ← getitem rotation_matrix 6;
  r21 ← getitem rotation_matrix 7;
  r22 ← getitem rotation_matrix 8;
  tx ← getitem translation_vector 0;
  ty ← getitem translation_vector 1;
  tz ← getitem translation_vector 2;
  mret (cameras_data
        ++ [camera_dict r00 r01 r02 r10 r11 r12 r20 r21 r22 tx ty tz
              focal_length]).

(** The loop of [parse_cameras] over the lines of the file. *)
Fixpoint parse_lines (lines : list text) (cameras_data : list camera)
  : io (list camera) :=
  match lines with
  | [] => mret cameras_data
  | line :: rest =>
      if startswith line (of_string "#") || eqb (strip line) (of_string "")
      then parse_lines rest cameras_data
      else
        let parts := split (strip line) in
        if negb (length parts =? 13)%nat then
          _ ← print (SkippedLine (strip line));
          parse_lines rest cameras_data
        else
          cameras_data ← try_except_ValueError
                           (lift (parse_parts parts cameras_data))
                           (fun e =>
                              _ ← print (ParseError (strip line));
                              _ ← print (ErrorDetails e);
                              mret cameras_data);
          parse_lines rest cameras_data
  end.

(** [parse_cameras(file_path)]. *)
Definition parse_cameras (file_path : string) : io (list camera) :=
  file ← open_r file_path;
  lines ← readlines file;
  parse_lines lines [].

(** The column names of [save_to_csv]. *)
Definition fieldnames : list string :=
  ["R00"; "R01"; "R02"; "R10"; "R11"; "R12"; "R20"; "R21"; "R22";
   "Tx"; "Ty"; "Tz"; "FocalLength"].

(** The record a line stands for, in the words of the claim: comment
    lines, blank lines, lines without exactly 13 tokens and lines with a
    token that is not a number stand for none; any other line stands for the
    record of its 13 numbers, in the order of the field names. *)
Fixpoint floats_of (tokens : list text) : option (list float) :=
  match tokens with
  | [] => Some []
  | s :: rest =>
      match py_float s with
      | Some v =>
          match floats_of rest with
          | Some vs => Some (v :: vs)
          | None => None
          end
      | None => None
      end
  end.

Definition record_of_values (vals : list float) : camera :=
  list_to_map (zip_with pair fieldnames vals).

Definition record_of_line (line : text) : option camera :=
  if startswith line (of_string "#") then None
  else if eqb (strip line) (of_string "") then None
  else
    let tokens := split (strip line) in
    if (length tokens =? 13)%nat then
      match floats_of tokens with
      | Some vals => Some (record_of_values vals)
      | None => None
      end
    else None.

(** What is printed for a line: nothing for a comment, a blank line or a
    record; one message for a line without exactly 13 tokens; two messages
    for a line with a token that is not a number. *)
Definition line_messages (line : text) : list message :=
  if startswith line (of_string "#") then []
  else if eqb (strip line) (of_string "") then []
  else
    let tokens := split (strip line) in
    if (length tokens =? 13)%nat then
      match floats_of tokens with
      | Some _ => []
      | None =>
          [ParseError (strip line);
           ErrorDetails (ValueError "could not convert string to float")]
      end
    else [SkippedLine (strip line)].

(** Printing messages one after the other, up to the first one the console
    refuses. *)
Fixpoint print_all (ms : list message) : io unit :=
  match ms with
  | [] => mret tt
  | m :: rest => _ ← print m; print_all rest
  end.

(** Printing the messages and then returning [a]. *)
Definition print_then {A : Type} (ms : list message) (a : A) : io A :=
  _ ← print_all ms; mret a.

End Parse.

(** The world after messages have been printed, and after a file has been
    written. *)
Definition with_messages (w : world) (ms : list message) : world :=
  mkWorld (files w) (stdout w ++ ms).

Definition with_file (w : world) (path content : string) : world :=
  mkWorld (<[path := File (Codec.utf_8_bytes content)]> (files w)) (stdout w).

End ExportCameraTrajectory.

(** ** Reference objects of the specification *)

Module Spec.

Import Np Cv2 Perspective.
Local Open Scope R_scope.

Definition identity3 : mat3 := ((1, 0, 0), (0, 1, 0), (0, 0, 1)).

(** The camera axes: horizontal (x), vertical (y) and forward (z). *)
Definition axis_horizontal : vec3 := (1, 0, 0).
Definition axis_vertical : vec3 := (0, 1, 0).
Definition axis_forward : vec3 := (0, 0, 1).

(** A rank-two array given cell by cell from its column and row values. *)
Definition grid2 {A : Type} (f : R -> R -> A) (xs ys : list R)
  : list (list A) :=
  map (fun y => map (fun x => f x y) xs) ys.

(** The planar grid of the specification: [n] evenly spaced abscissas from
    -1 to 1; a single sample sits on the start point. *)
Definition grid_x (n j : nat) : R :=
  if (n =? 1)%nat then -1 else -1 + INR j * (2 / (INR n - 1)).

Definition sq_norm (v : vec3) : R := dot v v.

Definition normalize (v : vec3) : vec3 :=
  let '(x, y, z) := v in
  let norm := sqrt (x ^ 2 + y ^ 2 + z ^ 2) in
  (x / norm, y / norm, z / norm).

(** The components of the normalised ray through the grid point (a, b). *)
Definition unit_x (a b : R) : R := a / sqrt (a ^ 2 + b ^ 2 + 1 ^ 2).
Definition unit_y (a b : R) : R := b / sqrt (a ^ 2 + b ^ 2 + 1 ^ 2).
Definition unit_z (a b : R) : R := 1 / sqrt (a ^ 2 + b ^ 2 + 1 ^ 2).

(** The ray through the top-left corner of a face. *)
Definition corner_ray : vec3 := (- / sqrt 3, / sqrt 3, / sqrt 3).

(** The spherical mapper as the specification words it. *)
Definition mapToEquirect (v : vec3) : R * R :=
  let '(x, y, z) := v in
  let lon := arctan2 x z in
  let lat := asin y in
  ((lon + PI) / (2 * PI), (PI / 2 - lat) / PI).

(** The rays of a face of [n] x [n] pixels, row by row. *)
Definition face_rays (n : nat) : list vec3 :=
  let xs := map (grid_x n) (seq 0 n) in
  let ys := map Ropp xs in
  concat (grid2 (fun a b => (unit_x a b, unit_y a b, unit_z a b)) xs ys).

(** The composed rotation, written out. *)
Definition rotation (yaw pitch roll : R) : mat3 :=
  let y := deg2rad yaw in
  let p := deg2rad pitch in
  let r := deg2rad roll in
  matmul (matmul ((cos r, - sin r, 0), (sin r, cos r, 0), (0, 0, 1))
                 ((1, 0, 0), (0, cos p, - sin p), (0, sin p, cos p)))
         ((cos y, 0, sin y), (0, 1, 0), (- sin y, 0, cos y)).

(** The face seen through rotation [rot]: each ray is rotated, mapped to
    panorama coordinates and sampled with wrap-around. *)
Definition projected_pixel (img : image) (rot : mat3) (v : vec3) : list R :=
  let '(sx, sy) := source_xy (height img) (width img) (apply rot v) in
  sample img BORDER_WRAP sx sy.

Definition projected (img : image) (rot : mat3) (n : nat) : image :=
  mkImage n n (channels img)
    (concat (map (projected_pixel img rot) (face_rays n))).

(** The four faces of a panorama, in the order front, right, back, left. *)
Definition cube_faces (img : image) (n : nat) : list image :=
  [projected img (rotation 0 0 0) n;
   projected img (rotation 90 0 0) n;
   projected img (rotation 180 0 0) n;
   projected img (rotation (-90) 0 0) n].

(** The files the orchestrator processes, and what it writes for one of
    them. *)
Definition accepted (filename : string) : bool :=
  PyStr.endswith_any (PyStr.lower filename) image_extensions.

Definition output_name (filename face : string) : string :=
  (fst (OsPath.splitext filename) ++ "_" ++ face ++ ".jpg")%string.

Definition writes_for (imread : string -> option image)
    (input_folder output_folder : string) (n : nat) (filename : string)
  : list (string * image) :=
  if accepted filename then
    match imread (OsPath.join input_folder filename) with
    | Some img =>
        zip_with pair
          (map (fun face =>
                  OsPath.join output_folder (output_name filename face))
             face_names)
          (cube_faces img n)
    | None => []
    end
  else [].


(** The pixel stored at a row and column of an image. *)
Definition pixel (src : image) (row col : nat) : list R :=
  map (fun k => nth ((row * width src + col) * channels src + k)%nat
                  (data src) 0)
      (seq 0 (channels src)).



(** A panorama of two rows and one column: 10 on top, 20 below. *)
Definition two_rows : image := mkImage 2 1 1 [10; 20].

(** A panorama of one row and nine columns whose pixel values are their
    column numbers; its centre is column 4. *)
Definition strip9 : image := mkImage 1 9 1 [0; 1; 2; 3; 4; 5; 6; 7; 8].

(** An empty panorama. *)
Definition empty_image : image := mkImage 0 0 3 [].

End Spec.

(** ** Matrix notions used to describe the rotations *)

Module Geometry.

Import Np.
Local Open Scope R_scope.

Definition transpose3 (m : mat3) : mat3 := (col m 0, col m 1, col m 2).

Definition det3 (m : mat3) : R :=
  let '((a, b, c), (d, e, f), (g, h, i)) := m in
  a * (e * i - f * h) - b * (d * i - f * g) + c * (d * h - e * g).

(** A proper rotation: orthonormal columns and determinant 1. *)
Definition is_rotation (m : mat3) : Prop :=
  matmul (transpose3 m) m = Spec.identity3 /\ det3 m = 1.

Definition cross (a b : vec3) : vec3 :=
  let '(a0, a1, a2) := a in
  let '(b0, b1, b2) := b in
  (a1 * b2 - a2 * b1, a2 * b0 - a0 * b2, a0 * b1 - a1 * b0).

Definition scale (k : R) (v : vec3) : vec3 :=
  let '(v0, v1, v2) := v in (k * v0, k * v1, k * v2).

Definition add3 (u v : vec3) : vec3 :=
  let '(u0, u1, u2) := u in
  let '(v0, v1, v2) := v in
  (u0 + v0, u1 + v1, u2 + v2).

(** The rotation of [v] by the angle [theta], in radians and counter-clockwise
    for an observer the axis points at, about the unit vector [axis]
    (Rodrigues' formula):
    [v cos theta + (axis x v) sin theta + axis (axis . v) (1 - cos theta)]. *)
Definition rotate_about (axis : vec3) (theta : R) (v : vec3) : vec3 :=
  add3 (add3 (scale (cos theta) v) (scale (sin theta) (cross axis v)))
       (scale (dot axis v * (1 - cos theta)) axis).

(** The exception a face of size [face_size <= 0] ends with. *)
Definition degenerate_error (face_size : Z) : exn :=
  if (face_size <? 0)%Z
  then ValueError "Number of samples must be non-negative."
  else CvError "!_map1.empty()".

End Geometry.

(** ** The resampler of the specification on the faces

    The face obtained when the rows of the panorama are clamped and its
    columns wrap, and the sample taken inside one row. *)

Module Rows.

Import Np Cv2 Perspective Spec.
Local Open Scope R_scope.




End Rows.

(** ** The [csv] writer with the default ("excel") dialect

    Fields are separated by a comma and rows end with CR LF; a field is
    quoted exactly when it holds a comma, a quote, a CR or an LF, and the
    quotes inside it are then doubled.  A row made of one empty field is
    written as a pair of quotes. *)

Module Csv.

Local Open Scope string_scope.

Definition delimiter : ascii := ","%char.
Definition quotechar : ascii := ascii_of_nat 34.
Definition CR : ascii := ascii_of_nat 13.
Definition LF : ascii := ascii_of_nat 10.
Definition lineterminator : string := String CR (String LF EmptyString).

Definition special (c : ascii) : bool :=
  Ascii.eqb c delimiter || Ascii.eqb c quotechar
  || Ascii.eqb c CR || Ascii.eqb c LF.

Fixpoint needs_quotes (s : string) : bool :=
  match s with
  | EmptyString => false
  | String c s' => special c || needs_quotes s'
  end.

Fixpoint double_quotes (s : string) : string :=
  match s with
  | EmptyString => EmptyString
  | String c s' =>
      if Ascii.eqb c quotechar
      then String c (String c (double_quotes s'))
      else String c (double_quotes s')
  end.

Definition quote_field (s : string) : string :=
  if needs_quotes s
  then String quotechar (double_quotes s ++ String quotechar EmptyString)
  else s.

Fixpoint join_fields (fields : list string) : string :=
  match fields with
  | [] => EmptyString
  | [f] => f
  | f :: rest => f ++ String delimiter (join_fields rest)
  end.

(** [writer.writerow(fields)], as the text it appends to the file. *)
Definition writerow (fields : list string) : string :=
  match fields with
  | [f] =>
      if String.eqb f EmptyString
      then String quotechar (String quotechar lineterminator)
      else quote_field f ++ lineterminator
  | _ => join_fields (map quote_field fields) ++ lineterminator
  end.

End Csv.

(** ** [export_camera_trajectory.py]: writing the table *)

Module CsvExport.

Import PyText ExportCameraTrajectory.
Local Open Scope string_scope.

Section Save.

(** Python's floats, the builtin [float] on a string, [str] on a float, the
    codec of the locale and the console. *)
Context {float : Type} (py_float : text -> option float)
  (str_float : float -> string)
  (decode : list Byte.byte -> option text)
  (console : message -> option exn).

(** A value of a row dictionary: a string (header) or a float (data). *)
Inductive cell : Type :=
| Text (s : string)
| Number (v : float).

Definition cell_text (c : cell) : string :=
  match c with
  | Text s => s
  | Number v => str_float v
  end.

(** [DictWriter._dict_to_list] with [extrasaction='raise'] and
    [restval='']. *)
Definition dict_to_list (names : list string) (rowdict : gmap string cell)
  : result (list cell) :=
  if bool_decide (dom rowdict ⊆ list_to_set names)
  then Ok (map (fun key => default (Text EmptyString) (rowdict !! key)) names)
  else Raise (ValueError "dict contains fields not in fieldnames").

(** [DictWriter.writerow]. *)
Definition dict_writerow (names : list string) (rowdict : gmap string cell)
  : result string :=
  row ← dict_to_list names rowdict;
  mret (Csv.writerow (map cell_text row)).

(** [DictWriter.writeheader]: the row of [dict(zip(fieldnames,
    fieldnames))]. *)
Definition writeheader (names : list string) : result string :=
  dict_writerow names (list_to_map (zip_with pair names (map Text names))).

(** The loop of [save_to_csv] over the records; [written] is the text
    written to the file so far. *)
Fixpoint write_rows (cameras_data : list (gmap string float))
    (written : string) : string * result unit :=
  match cameras_data with
  | [] => (written, Ok tt)
  | data :: rest =>
      match dict_writerow fieldnames (Number <$> data) with
      | Ok row => write_rows rest (written ++ row)
      | Raise e => (written, Raise e)
      end
  end.

(** The body of the [with] statement of [save_to_csv]: the text it writes
    to the file and the way it ends. *)
Definition write_table (cameras_data : list (gmap string float))
  : string * result unit :=
  match writeheader fieldnames with
  | Ok header => write_rows cameras_data header
  | Raise e => (EmptyString, Raise e)
  end.

(** [save_to_csv(cameras_data, output_file)]. *)
Definition save_to_csv (cameras_data : list (gmap string float))
    (output_file : string) : io unit :=
  _ ← with_open_w output_file (write_table cameras_data);
  print console (Saved output_file).

(** [main()]. *)
Definition main : io unit :=
  let cameras_file := "cameras.txt" in
  let output_csv := "camera_coordinates.csv" in
  cameras_data ← parse_cameras py_float decode console cameras_file;
  match cameras_data with
  | _ :: _ => save_to_csv cameras_data output_csv
  | [] => print console NoData
  end.

(** The row of a record, with an empty field for a missing key. *)
Definition dict_row (data : gmap string float) : string :=
  Csv.writerow
    (map (fun key => match data !! key with
                     | Some v => str_float v
                     | None => EmptyString
                     end)
       fieldnames).

Definition concat_rows (rows : list string) : string :=
  fold_right String.append EmptyString rows.

(** The header row and the row of 13 values. *)
Definition csv_header : string := Csv.writerow fieldnames.

Definition csv_row (vals : list float) : string :=
  Csv.writerow (map str_float vals).

(** The 13 numbers of a line, when it stands for a record. *)
Definition values_of_line (line : text) : option (list float) :=
  if startswith line (of_string "#") then None
  else
    let tokens := split line in
    if (length tokens =? 13)%nat then floats_of py_float tokens else None.

End Save.

(** A small stand-in for the floats, for examples: the numbers 1 and 2. *)
Definition toy_float (s : text) : option nat :=
  if eqb s (of_string "1") then Some 1%nat
  else if eqb s (of_string "2") then Some 2%nat
  else None.

Definition toy_str (n : nat) : string :=
  if (n =? 1)%nat then "1.0" else "2.0".

(** A console that takes every message, and the console of an ASCII locale,
    which cannot encode the Cyrillic text every message starts with. *)
Definition console_utf8 (m : message) : option exn := None.

Definition console_ascii (m : message) : option exn :=
  Some (UnicodeEncodeError "'ascii' codec can't encode characters").

(** The bytes of an ASCII text. *)
Definition ascii_bytes (s : string) : list Byte.byte :=
  map byte_of_ascii (list_ascii_of_string s).

Definition LF : string := String Csv.LF EmptyString.

(** A camera file with a comment, a record, a blank line and a line of two
    tokens; the same file followed by a byte that is not UTF-8; and the
    worlds that hold one of them or no file at all. *)
Definition example_text : string :=
  "# cameras" ++ LF ++ "1 1 1 1 1 1 1 1 1 1 1 1 2" ++ LF ++ LF
  ++ "bad line" ++ LF.

Definition example_file : list Byte.byte := ascii_bytes example_text.

Definition broken_file : list Byte.byte :=
  (ascii_bytes example_text ++ [Byte.xff])%list.

Definition example_world : world :=
  mkWorld {[ "cameras.txt" := File example_file ]} [].

Definition broken_world : world :=
  mkWorld {[ "cameras.txt" := File broken_file ]} [].

Definition empty_world : world := mkWorld ∅ [].

(** Two files with the same tokens, spaced differently. *)
Definition tight_line : string := "1 1 1 1 1 1 1 1 1 1 1 1 2" ++ LF.
Definition loose_line : string := "  1 1  1 1 1 1 1 1 1 1 1   1 2 " ++ LF.

Definition tokens_world : world :=
  mkWorld {[ "a.txt" := File (ascii_bytes tight_line);
             "b.txt" := File (ascii_bytes loose_line) ]} [].

Definition example_record : gmap string nat :=
  record_of_values [1; 1; 1; 1; 1; 1; 1; 1; 1; 1; 1; 1; 2]%nat.

End CsvExport.

(** ** Rotation composition *)

Module RotationFacts.

Import Np Cv2 Perspective Spec.
Local Open Scope R_scope.

Lemma vec3_ext (a b c a' b' c' : R) :
  a = a' -> b = b' -> c = c' -> (a, b, c) = (a', b', c').
Proof. intros -> -> ->. reflexivity. Qed.

Lemma deg2rad_0 : deg2rad 0 = 0.
Proof. unfold deg2rad. lra. Qed.

Lemma deg2rad_90 : deg2rad 90 = PI / 2.
Proof. unfold deg2rad. lra. Qed.

Lemma apply_matmul (a b : mat3) (v : vec3) :
  apply (matmul a b) v = apply a (apply b v).
Proof.
  destruct a as [[[[a00 a01] a02] [[a10 a11] a12]] [[a20 a21] a22]].
  destruct b as [[[[b00 b01] b02] [[b10 b11] b12]] [[b20 b21] b22]].
  destruct v as [[v0 v1] v2].
  cbn. apply vec3_ext; ring.
Qed.

Lemma apply_identity3 (v : vec3) : apply identity3 v = v.
Proof. destruct v as [[v0 v1] v2]. cbn. apply vec3_ext; ring. Qed.

(** The transposition around the matrix product only changes the layout:
    every ray is multiplied by the matrix on its own. *)
Lemma rotate_rays_map (R : mat3) (vec : list vec3) :
  rotate_rays R vec = map (apply R) vec.
Proof.
  destruct R as [[[[a00 a01] a02] [[a10 a11] a12]] [[a20 a21] a22]].
  unfold rotate_rays, transpose, matmul_rows, lincomb, transpose_back.
  induction vec as [|[[v0 v1] v2] vec IH]; [reflexivity|].
  cbn [map zip_with fst snd]. rewrite IH. reflexivity.
Qed.

Lemma rotation_matrix_x (t : R) :
  rotation_matrix t "x"
  = Ok ((1, 0, 0), (0, cos t, - sin t), (0, sin t, cos t)).
Proof. reflexivity. Qed.

Lemma rotation_matrix_y (t : R) :
  rotation_matrix t "y"
  = Ok ((cos t, 0, sin t), (0, 1, 0), (- sin t, 0, cos t)).
Proof. reflexivity. Qed.

Lemma rotation_matrix_z (t : R) :
  rotation_matrix t "z"
  = Ok ((cos t, - sin t, 0), (sin t, cos t, 0), (0, 0, 1)).
Proof. reflexivity. Qed.

(** C8: the composed rotation for the angles (0, 0, 0) is the identity
    matrix, and applying it, one ray at a time or to a whole grid of rays as
    [perspective_projection] does, leaves every ray unchanged. *)
Theorem compose_rotation_zero_identity :
  compose_rotation 0 0 0 = Ok identity3 /\
  (forall v : vec3, apply identity3 v = v) /\
  (forall vec : list vec3, rotate_rays identity3 vec = vec).
Proof.
  split; [|split].
  - unfold compose_rotation. rewrite deg2rad_0.
    rewrite rotation_matrix_x, rotation_matrix_y, rotation_matrix_z.
    cbn. rewrite cos_0, sin_0. unfold identity3.
    f_equal. repeat apply (f_equal2 pair); ring.
  - apply apply_identity3.
  - intros vec. rewrite rotate_rays_map.
    induction vec as [|v vec IH]; [reflexivity|].
    cbn [map]. rewrite IH, apply_identity3. reflexivity.
Qed.

(** C5: the composed rotation is R_roll * R_pitch * R_yaw, so a ray is
    turned by the yaw rotation first, then by pitch, then by roll.  The yaw
    matrix is the rotation by the angle yaw (degrees, that is yaw * PI / 180
    radians) about the vertical axis, the pitch matrix the rotation by the
    angle pitch about the horizontal axis and the roll matrix the rotation by
    the angle roll about the forward axis, each one fixing its axis; and for
    yaw = 90 degrees the ray (0, 0, 1) is sent to (1, 0, 0). *)
Theorem compose_rotation_order (yaw pitch roll : R) :
  exists Ry Rx Rz R R90,
    rotation_matrix (deg2rad yaw) "y" = Ok Ry /\
    rotation_matrix (deg2rad pitch) "x" = Ok Rx /\
    rotation_matrix (deg2rad roll) "z" = Ok Rz /\
    compose_rotation yaw pitch roll = Ok R /\
    R = matmul (matmul Rz Rx) Ry /\
    (forall v, apply R v = apply Rz (apply Rx (apply Ry v))) /\
    (forall vec,
       rotate_rays R vec
       = map (fun v => apply Rz (apply Rx (apply Ry v))) vec) /\
    (forall v,
       apply Ry v
       = Geometry.rotate_about axis_vertical (yaw * PI / 180) v) /\
    (forall v,
       apply Rx v
       = Geometry.rotate_about axis_horizontal (pitch * PI / 180) v) /\
    (forall v,
       apply Rz v
       = Geometry.rotate_about axis_forward (roll * PI / 180) v) /\
    (forall v,
       apply R v
       = Geometry.rotate_about axis_forward (roll * PI / 180)
           (Geometry.rotate_about axis_horizontal (pitch * PI / 180)
              (Geometry.rotate_about axis_vertical (yaw * PI / 180) v))) /\
    apply Ry axis_vertical = axis_vertical /\
    apply Rx axis_horizontal = axis_horizontal /\
    apply Rz axis_forward = axis_forward /\
    compose_rotation 90 0 0 = Ok R90 /\
    apply R90 (0, 0, 1) = (1, 0, 0).
Proof.
  assert (Hy : forall t v,
             apply ((cos t, 0, sin t), (0, 1, 0), (- sin t, 0, cos t)) v
             = Geometry.rotate_about axis_vertical t v).
  { intros t [[v0 v1] v2]. cbn. apply vec3_ext; ring. }
  assert (Hx : forall t v,
             apply ((1, 0, 0), (0, cos t, - sin t), (0, sin t, cos t)) v
             = Geometry.rotate_about axis_horizontal t v).
  { intros t [[v0 v1] v2]. cbn. apply vec3_ext; ring. }
  assert (Hz : forall t v,
             apply ((cos t, - sin t, 0), (sin t, cos t, 0), (0, 0, 1)) v
             = Geometry.rotate_about axis_forward t v).
  { intros t [[v0 v1] v2]. cbn. apply vec3_ext; ring. }
  assert (Hdeg : forall d, d * PI / 180 = deg2rad d).
  { intros d. unfold deg2rad. lra. }
  do 5 eexists.
  split; [apply rotation_matrix_y|].
  split; [apply rotation_matrix_x|].
  split; [apply rotation_matrix_z|].
  split; [reflexivity|].
  split; [reflexivity|].
  split; [intros v; rewrite !apply_matmul; reflexivity|].
  split.
  { intros vec. rewrite rotate_rays_map. apply map_ext.
    intros v. rewrite !apply_matmul. reflexivity. }
  split; [intros v; rewrite Hdeg; apply Hy|].
  split; [intros v; rewrite Hdeg; apply Hx|].
  split; [intros v; rewrite Hdeg; apply Hz|].
  split.
  { intros v. rewrite !apply_matmul, !Hdeg, <- Hy, <- Hx, <- Hz.
    reflexivity. }
  split; [cbn; apply vec3_ext; ring|].
  split; [cbn; apply vec3_ext; ring|].
  split; [cbn; apply vec3_ext; ring|].
  split; [reflexivity|].
  rewrite !apply_matmul. rewrite deg2rad_0, deg2rad_90.
  cbn. rewrite cos_0, sin_0, cos_PI2, sin_PI2.
  apply vec3_ext; ring.
Qed.

End RotationFacts.

(** ** The spherical mapper *)

Module MapperFacts.

Import Np Cv2 Perspective Spec.
Local Open Scope R_scope.

Lemma arctan2_bound (x1 x2 : R) : - PI < arctan2 x1 x2 <= PI.
Proof.
  pose proof PI_RGT_0 as Hpi.
  unfold arctan2.
  destruct (Rlt_dec 0 x2) as [Hpos|Hnpos].
  - pose proof (atan_bound (x1 / x2)). lra.
  - destruct (Rlt_dec x2 0) as [Hneg|Hnneg].
    + pose proof (atan_bound (x1 / x2)) as Hb.
      destruct (Rle_dec 0 x1) as [Hx1|Hx1].
      * assert (Hq : x1 / x2 <= 0).
        { unfold Rdiv. apply Rinv_lt_0_compat in Hneg. nra. }
        assert (Ha : atan (x1 / x2) <= 0).
        { rewrite <- atan_0. destruct Hq as [Hq|Hq].
          - left. apply atan_increasing. exact Hq.
          - rewrite Hq. right. reflexivity. }
        lra.
      * assert (Hq : 0 < x1 / x2).
        { unfold Rdiv. apply Rinv_lt_0_compat in Hneg. nra. }
        assert (Ha : 0 < atan (x1 / x2)).
        { rewrite <- atan_0. apply atan_increasing. exact Hq. }
        lra.
    + destruct (Rlt_dec 0 x1); [lra|].
      destruct (Rlt_dec x1 0); lra.
Qed.

Lemma hypotenuse_scale (x1 x2 : R) :
  0 < x2 ->
  sqrt (x1 * x1 + x2 * x2) = x2 * sqrt (1 + (x1 / x2)²).
Proof.
  intros Hpos.
  replace (x1 * x1 + x2 * x2) with (x2 * x2 * (1 + (x1 / x2)²))
    by (unfold Rsqr; field; lra).
  rewrite sqrt_mult; [|nra|unfold Rsqr; nra].
  rewrite sqrt_square by lra. reflexivity.
Qed.

Lemma atan_polar (x1 x2 : R) :
  0 < x2 ->
  sqrt (x1 * x1 + x2 * x2) * sin (atan (x1 / x2)) = x1 /\
  sqrt (x1 * x1 + x2 * x2) * cos (atan (x1 / x2)) = x2.
Proof.
  intros Hpos. rewrite hypotenuse_scale by exact Hpos.
  rewrite sin_atan, cos_atan.
  assert (Hs : 0 < sqrt (1 + (x1 / x2)²)).
  { apply sqrt_lt_R0. unfold Rsqr. nra. }
  split; field; lra.
Qed.

(** [arctan2 x1 x2] is the angle of the point [(x2, x1)]. *)
Lemma arctan2_polar (x1 x2 : R) :
  x1 <> 0 \/ x2 <> 0 ->
  sqrt (x1 * x1 + x2 * x2) * sin (arctan2 x1 x2) = x1 /\
  sqrt (x1 * x1 + x2 * x2) * cos (arctan2 x1 x2) = x2.
Proof.
  intros Hnz. unfold arctan2.
  destruct (Rlt_dec 0 x2) as [Hpos|Hnpos].
  - apply atan_polar. exact Hpos.
  - destruct (Rlt_dec x2 0) as [Hneg|Hnneg].
    + assert (Hpos : 0 < - x2) by lra.
      destruct (atan_polar (- x1) (- x2) Hpos) as [Hs Hc].
      replace (- x1 / - x2) with (x1 / x2) in Hs, Hc by (field; lra).
      replace (- x1 * - x1 + - x2 * - x2) with (x1 * x1 + x2 * x2)
        in Hs, Hc by ring.
      destruct (Rle_dec 0 x1).
      * rewrite neg_sin, neg_cos. split; lra.
      * replace (atan (x1 / x2) - PI) with (- (- atan (x1 / x2) + PI))
          by ring.
        rewrite sin_neg, cos_neg, neg_sin, neg_cos, sin_neg, cos_neg.
        split; lra.
    + assert (Hz : x2 = 0) by lra. subst x2.
      rewrite Rmult_0_r, Rplus_0_r.
      destruct (Rlt_dec 0 x1) as [Hp|Hnp].
      * rewrite sqrt_square, sin_PI2, cos_PI2 by lra. split; ring.
      * destruct (Rlt_dec x1 0) as [Hn|Hnn]; [|lra].
        replace (x1 * x1) with (- x1 * - x1) by ring.
        rewrite sqrt_square, sin_neg, cos_neg, sin_PI2, cos_PI2 by lra.
        split; ring.
Qed.

Lemma arctan2_forward : arctan2 0 1 = 0.
Proof.
  unfold arctan2. destruct (Rlt_dec 0 1) as [_|]; [|lra].
  replace (0 / 1) with 0 by field. apply atan_0.
Qed.

(** The forward axis looks at the centre of the panorama. *)
Lemma source_xy_forward (shape0 shape1 : nat) :
  source_xy shape0 shape1 axis_forward
  = ((INR shape1 - 1) / 2, (INR shape0 - 1) / 2).
Proof.
  unfold source_xy, axis_forward, arcsin.
  rewrite arctan2_forward, asin_0.
  pose proof PI_RGT_0.
  apply (f_equal2 pair); field; lra.
Qed.

Lemma unit_interval_scale (u w : R) : 0 <= u <= 1 -> 0 <= w -> 0 <= u * w <= w.
Proof. intros Hu Hw. nra. Qed.

Lemma longitude_unit (x z : R) : 0 <= (arctan2 x z + PI) / (2 * PI) <= 1.
Proof.
  pose proof PI_RGT_0 as Hpi. pose proof (arctan2_bound x z) as Hb.
  split.
  - apply Rmult_le_pos; [lra|]. left. apply Rinv_0_lt_compat. lra.
  - apply (Rmult_le_reg_r (2 * PI)); [lra|].
    unfold Rdiv. rewrite Rmult_assoc, Rinv_l by lra. lra.
Qed.

(** C6: the mapper computes lon = atan2(x, z), lat = asin(y),
    u = (lon + PI) / (2 PI), v = (PI/2 - lat) / PI and the pixel coordinates
    src_x = u (W - 1), src_y = v (H - 1); for a panorama at least one pixel
    wide, src_x lies in [0, W - 1]. *)
Theorem source_xy_formula (shape0 shape1 : nat) (x y z : R) :
  (1 <= shape1)%nat ->
  let lon := arctan2 x z in
  let lat := asin y in
  let u := (lon + PI) / (2 * PI) in
  let v := (PI / 2 - lat) / PI in
  mapToEquirect (x, y, z) = (u, v) /\
  source_xy shape0 shape1 (x, y, z)
  = (u * (INR shape1 - 1), v * (INR shape0 - 1)) /\
  0 <= fst (source_xy shape0 shape1 (x, y, z)) <= INR shape1 - 1.
Proof.
  intros Hw. cbn zeta.
  split; [reflexivity|]. split; [reflexivity|].
  cbn [source_xy fst].
  apply unit_interval_scale; [apply longitude_unit|].
  apply le_INR in Hw. cbn in Hw. lra.
Qed.

Lemma source_xy_formula_witness :
  mapToEquirect (0, 0, 1) = ((arctan2 0 1 + PI) / (2 * PI),
                             (PI / 2 - asin 0) / PI) /\
  source_xy 2 4 (0, 0, 1)
  = ((arctan2 0 1 + PI) / (2 * PI) * (INR 4 - 1),
     (PI / 2 - asin 0) / PI * (INR 2 - 1)) /\
  0 <= fst (source_xy 2 4 (0, 0, 1)) <= INR 4 - 1.
Proof. apply (source_xy_formula 2 4 0 0 1). lia. Defined.

End MapperFacts.

(** ** Array layout lemmas *)

Module ArrayFacts.

Import Np Spec.
Local Open Scope R_scope.

Lemma zip_with_map_same {A B C D : Type} (h : B -> C -> D)
    (f : A -> B) (g : A -> C) (l : list A) :
  zip_with h (map f l) (map g l) = map (fun a => h (f a) (g a)) l.
Proof.
  induction l as [|a l IH]; [reflexivity|].
  cbn. rewrite IH. reflexivity.
Qed.

Lemma meshgrid_grid2 (x y : list R) :
  meshgrid x y = (grid2 (fun a _ => a) x y, grid2 (fun _ b => b) x y).
Proof.
  unfold meshgrid, grid2. f_equal.
  apply map_ext. intros _. symmetry. apply map_id.
Qed.

Lemma map2d_grid2 (g : R -> R) (f : R -> R -> R) (xs ys : list R) :
  map2d g (grid2 f xs ys) = grid2 (fun a b => g (f a b)) xs ys.
Proof.
  unfold map2d, grid2. rewrite map_map.
  apply map_ext. intros b. apply map_map.
Qed.

Lemma zip_grid2 {A B C : Type} (h : A -> B -> C)
    (f : R -> R -> A) (g : R -> R -> B) (xs ys : list R) :
  zip_with (zip_with h) (grid2 f xs ys) (grid2 g xs ys)
  = grid2 (fun a b => h (f a b) (g a b)) xs ys.
Proof.
  unfold grid2. rewrite zip_with_map_same.
  apply map_ext. intros b. apply zip_with_map_same.
Qed.

Lemma zip2d_grid2 (h : R -> R -> R) (f g : R -> R -> R) (xs ys : list R) :
  zip2d h (grid2 f xs ys) (grid2 g xs ys)
  = grid2 (fun a b => h (f a b) (g a b)) xs ys.
Proof. apply zip_grid2. Qed.

Lemma stack3_grid2 (f g h : R -> R -> R) (xs ys : list R) :
  stack3 (grid2 f xs ys) (grid2 g xs ys) (grid2 h xs ys)
  = concat (grid2 (fun a b => (f a b, g a b, h a b)) xs ys).
Proof.
  unfold stack3. rewrite !zip_grid2. reflexivity.
Qed.

Lemma concat_grid2_length {A : Type} (f : R -> R -> A) (xs ys : list R) :
  length (concat (grid2 f xs ys)) = (length ys * length xs)%nat.
Proof.
  unfold grid2. induction ys as [|b ys IH]; [reflexivity|].
  cbn. rewrite length_app, length_map, IH. reflexivity.
Qed.

Lemma concat_grid2_nth {A : Type} (f : R -> R -> A) (xs ys : list R)
    (i j : nat) (d : A) :
  (i < length ys)%nat -> (j < length xs)%nat ->
  nth (i * length xs + j) (concat (grid2 f xs ys)) d
  = f (nth j xs 0) (nth i ys 0).
Proof.
  unfold grid2. revert i. induction ys as [|b ys IH]; intros i Hi Hj.
  - cbn in Hi. lia.
  - cbn [map concat]. destruct i as [|i].
    + cbn [Nat.mul Nat.add nth].
      rewrite app_nth1 by (rewrite length_map; exact Hj).
      rewrite (nth_indep _ d (f 0 b)) by (rewrite length_map; exact Hj).
      apply (map_nth (fun x => f x b)).
    + rewrite app_nth2 by (rewrite length_map; cbn; lia).
      rewrite length_map.
      replace (S i * length xs + j - length xs)%nat
        with (i * length xs + j)%nat by (cbn; lia).
      cbn [nth]. apply IH; [cbn in Hi; lia | exact Hj].
Qed.

Lemma concat_grid2_Forall {A : Type} (P : A -> Prop)
    (f : R -> R -> A) (xs ys : list R) :
  (forall a b, P (f a b)) -> Forall P (concat (grid2 f xs ys)).
Proof.
  intros HP. unfold grid2. induction ys as [|b ys IH]; cbn.
  - constructor.
  - apply Forall_app. split; [|exact IH].
    apply List.Forall_forall. intros v Hv.
    apply in_map_iff in Hv. destruct Hv as (a & <- & _). apply HP.
Qed.

Lemma set_last_length (l : list R) (v : R) :
  length (set_last l v) = length l.
Proof.
  induction l as [|a [|b t] IH]; cbn in *; auto.
Qed.

Lemma set_last_nth (l : list R) (v d : R) (j : nat) :
  (j < length l)%nat ->
  nth j (set_last l v) d = if (S j =? length l)%nat then v else nth j l d.
Proof.
  revert j. induction l as [|a [|b t] IH]; intros j Hj.
  - cbn in Hj. lia.
  - cbn in Hj. assert (j = 0%nat) as -> by lia. reflexivity.
  - destruct j as [|j].
    + reflexivity.
    + change (nth (S j) (set_last (a :: b :: t) v) d)
        with (nth j (set_last (b :: t) v) d).
      rewrite IH by (cbn in *; lia). reflexivity.
Qed.

Lemma reshape_length (rows cols : nat) (a : list R) :
  length (reshape rows cols a) = rows.
Proof.
  revert a. induction rows as [|r IH]; intros a; cbn; [|rewrite IH]; auto.
Qed.

End ArrayFacts.

(** ** The ray grid *)

Module GridFacts.

Import Np Cv2 Perspective Spec ArrayFacts.
Local Open Scope R_scope.

Lemma bind_Ok {A B : Type} (a : A) (k : A -> result B) :
  mbind k (Ok a) = k a.
Proof. reflexivity. Qed.

Lemma linspace_negative (start stop : R) (num : Z) :
  (num < 0)%Z ->
  linspace start stop num
  = Raise (ValueError "Number of samples must be non-negative.").
Proof.
  intros H. unfold linspace.
  destruct (Z.ltb_spec num 0); [reflexivity|lia].
Qed.

Lemma nth_map_seq (f : nat -> R) (n j : nat) (d : R) :
  (j < n)%nat -> nth j (map f (seq 0 n)) d = f j.
Proof.
  intros Hj.
  rewrite (nth_indep _ d (f 0%nat)) by (rewrite length_map, length_seq; lia).
  rewrite (map_nth f), seq_nth by lia. reflexivity.
Qed.

(** The samples of [np.linspace(-1, 1, face_size)]. *)
Lemma linspace_grid (face_size : Z) :
  (0 <= face_size)%Z ->
  let n := Z.to_nat face_size in
  linspace (-1) 1 face_size = Ok (map (grid_x n) (seq 0 n)).
Proof.
  intros Hfs n. unfold linspace.
  destruct (Z.ltb_spec face_size 0) as [|_]; [lia|].
  f_equal. unfold arange. rewrite !map_map.
  destruct (Z.ltb_spec 0 (face_size - 1)) as [Hdiv|Hdiv].
  - destruct (Z.ltb_spec 1 face_size) as [_|]; [|lia].
    rewrite map_map. fold n.
    assert (Hn : INR n = IZR face_size).
    { unfold n. rewrite INR_IZR_INZ, Z2Nat.id by lia. reflexivity. }
    assert (Hn2 : (2 <= n)%nat) by (unfold n; lia).
    apply (nth_ext _ _ 0 0).
    + rewrite set_last_length, !length_map. reflexivity.
    + intros j Hj. rewrite set_last_length, length_map, length_seq in Hj.
      rewrite set_last_nth by (rewrite length_map, length_seq; exact Hj).
      rewrite length_map, length_seq.
      rewrite !nth_map_seq by exact Hj.
      unfold grid_x.
      destruct (Nat.eqb_spec n 1) as [|_]; [lia|].
      rewrite minus_IZR, <- Hn.
      assert (Hpos : 0 < INR n - 1).
      { apply le_INR in Hn2. cbn in Hn2. lra. }
      destruct (Nat.eqb_spec (S j) n) as [Hlast|_].
      * rewrite <- Hlast, S_INR. field. rewrite <- S_INR, Hlast. lra.
      * lra.
  - destruct (Z.ltb_spec 1 face_size) as [|_]; [lia|].
    rewrite map_map. fold n.
    assert (Hn : (n = 0 \/ n = 1)%nat) by (unfold n; lia).
    destruct Hn as [-> | ->]; [reflexivity|].
    cbn. f_equal. ring.
Qed.

Lemma unit_rays_grid (face_size : Z) :
  (0 <= face_size)%Z ->
  let n := Z.to_nat face_size in
  let xs := map (grid_x n) (seq 0 n) in
  let ys := map Ropp xs in
  unit_rays face_size
  = Ok (grid2 unit_x xs ys, grid2 unit_y xs ys, grid2 unit_z xs ys).
Proof.
  intros Hfs n xs ys. unfold unit_rays.
  rewrite (linspace_grid face_size Hfs). rewrite !bind_Ok.
  fold n. fold xs. fold ys.
  rewrite meshgrid_grid2. unfold ones_like.
  rewrite !map2d_grid2, !zip2d_grid2, !map2d_grid2, !zip2d_grid2.
  reflexivity.
Qed.

Lemma tan_half_fov : tan (deg2rad (fov / 2)) = 1.
Proof.
  unfold deg2rad, fov.
  replace (90 / 2 * (PI / 180)) with (PI / 4) by lra.
  apply tan_PI4.
Qed.

Lemma ray_grid_grid (face_size : Z) :
  (0 <= face_size)%Z ->
  let n := Z.to_nat face_size in
  let xs := map (grid_x n) (seq 0 n) in
  let ys := map Ropp xs in
  ray_grid face_size
  = Ok (concat (grid2 (fun a b => (unit_x a b, unit_y a b, unit_z a b))
                  xs ys)).
Proof.
  intros Hfs n xs ys. unfold ray_grid.
  rewrite (unit_rays_grid face_size Hfs). rewrite bind_Ok.
  fold n. fold xs. fold ys. cbv beta iota zeta.
  unfold ones_like. rewrite tan_half_fov.
  rewrite !map2d_grid2, zip2d_grid2, stack3_grid2.
  unfold mret, result_ret. do 2 f_equal. unfold grid2.
  apply map_ext. intros b. apply map_ext. intros a.
  repeat apply (f_equal2 pair); ring.
Qed.

Lemma norm_positive (a b : R) : 0 < sqrt (a ^ 2 + b ^ 2 + 1 ^ 2).
Proof. apply sqrt_lt_R0. nra. Qed.

Lemma unit_ray_sq_norm (a b : R) :
  sq_norm (unit_x a b, unit_y a b, unit_z a b) = 1.
Proof.
  unfold sq_norm, dot, unit_x, unit_y, unit_z.
  pose proof (norm_positive a b) as Hpos.
  set (s := sqrt (a ^ 2 + b ^ 2 + 1 ^ 2)) in *.
  assert (Hs : s * s = a ^ 2 + b ^ 2 + 1 ^ 2).
  { unfold s. apply sqrt_sqrt. nra. }
  replace (a / s * (a / s) + b / s * (b / s) + 1 / s * (1 / s))
    with ((a ^ 2 + b ^ 2 + 1 ^ 2) / (s * s)) by (field; lra).
  rewrite Hs. field. nra.
Qed.

Lemma grid_x_range (n j : nat) : (j < n)%nat -> -1 <= grid_x n j <= 1.
Proof.
  intros Hj. unfold grid_x.
  destruct (Nat.eqb_spec n 1) as [|Hn1]; [lra|].
  assert (Hn : (2 <= n)%nat) by lia.
  assert (H1 : 0 < INR n - 1).
  { apply le_INR in Hn. cbn in Hn. lra. }
  assert (H2 : 0 <= INR j <= INR n - 1).
  { split; [apply pos_INR|].
    assert (Hle : (S j <= n)%nat) by lia.
    apply le_INR in Hle. rewrite S_INR in Hle. lra. }
  assert (H3 : 0 <= INR j * (2 / (INR n - 1)) <= 2).
  { split.
    - apply Rmult_le_pos; [lra|].
      apply Rmult_le_pos; [lra|]. left. apply Rinv_0_lt_compat. lra.
    - apply (Rmult_le_reg_r (INR n - 1)); [lra|].
      replace (INR j * (2 / (INR n - 1)) * (INR n - 1))
        with (2 * INR j) by (field; lra).
      lra. }
  lra.
Qed.

Lemma grid_x_endpoints (n : nat) :
  (2 <= n)%nat -> grid_x n 0 = -1 /\ grid_x n (n - 1) = 1.
Proof.
  intros Hn. unfold grid_x.
  destruct (Nat.eqb_spec n 1) as [|_]; [lia|].
  assert (H1 : 0 < INR n - 1).
  { apply le_INR in Hn. cbn in Hn. lra. }
  split.
  - cbn. lra.
  - rewrite minus_INR by lia. cbn. field. lra.
Qed.

Lemma grid_x_step (n j : nat) :
  (S j < n)%nat -> grid_x n (S j) - grid_x n j = 2 / (INR n - 1).
Proof.
  intros Hj. unfold grid_x.
  destruct (Nat.eqb_spec n 1) as [|_]; [lia|].
  rewrite S_INR. lra.
Qed.

(** C7 as stated fails for a face of one pixel: the only abscissa that
    [np.linspace(-1, 1, 1)] yields is the start point, so the end point 1 is
    not among the samples. *)
Lemma single_sample_misses_endpoint :
  ~ (exists xs, linspace (-1) 1 1 = Ok xs /\ In (-1) xs /\ In 1 xs).
Proof.
  intros (xs & Hxs & _ & H1).
  rewrite (linspace_grid 1) in Hxs by lia.
  change (Z.to_nat 1) with 1%nat in Hxs.
  injection Hxs as <-. cbn in H1.
  destruct H1 as [H1|[]]. unfold grid_x in H1. cbn in H1. lra.
Qed.

(** C7, amended: for every faceSize >= 1 the generator yields faceSize^2
    vectors, of unit norm before the field-of-view scaling, in row-major
    order over the planar grid: cell (i, j) holds the normalised ray through
    (x_j, -x_i, 1), where the abscissas x_0 .. x_(n-1) lie in [-1, 1] and are
    evenly spaced; both end points are among them when faceSize >= 2, and
    for faceSize = 1 the single abscissa is the start point -1. *)
Theorem ray_grid_layout (face_size : Z) :
  (1 <= face_size)%Z ->
  let n := Z.to_nat face_size in
  exists xv yv zv rays,
    unit_rays face_size = Ok (xv, yv, zv) /\
    ray_grid face_size = Ok rays /\
    length rays = (n * n)%nat /\
    length (stack3 xv yv zv) = (n * n)%nat /\
    Forall (fun v => sq_norm v = 1) (stack3 xv yv zv) /\
    (forall i j, (i < n)%nat -> (j < n)%nat ->
       nth (i * n + j) (stack3 xv yv zv) (0, 0, 0)
       = normalize (grid_x n j, - grid_x n i, 1)) /\
    (forall j, (j < n)%nat -> -1 <= grid_x n j <= 1) /\
    (forall j, (S j < n)%nat ->
       grid_x n (S j) - grid_x n j = 2 / (INR n - 1)) /\
    ((2 <= n)%nat -> grid_x n 0 = -1 /\ grid_x n (n - 1) = 1) /\
    (n = 1%nat -> linspace (-1) 1 face_size = Ok [-1]).
Proof.
  intros Hfs n.
  assert (H0 : (0 <= face_size)%Z) by lia.
  pose proof (unit_rays_grid face_size H0) as Hu.
  pose proof (ray_grid_grid face_size H0) as Hr.
  cbv zeta in Hu, Hr. fold n in Hu, Hr.
  set (xs := map (grid_x n) (seq 0 n)) in *.
  set (ys := map Ropp xs) in *.
  assert (Hlx : length xs = n).
  { unfold xs. rewrite length_map, length_seq. reflexivity. }
  assert (Hly : length ys = n) by (unfold ys; rewrite length_map; exact Hlx).
  do 4 eexists.
  split; [exact Hu|]. split; [exact Hr|].
  rewrite stack3_grid2.
  split; [rewrite concat_grid2_length; lia|].
  split; [rewrite concat_grid2_length; lia|].
  split; [apply concat_grid2_Forall; intros a b; apply unit_ray_sq_norm|].
  split.
  { intros i j Hi Hj.
    rewrite <- Hlx at 1.
    rewrite concat_grid2_nth by lia.
    unfold ys, xs. rewrite map_map, !nth_map_seq by assumption.
    reflexivity. }
  split; [apply grid_x_range|].
  split; [apply grid_x_step|].
  split; [apply grid_x_endpoints|].
  intros Hn. rewrite (linspace_grid face_size H0). fold n. rewrite Hn.
  reflexivity.
Qed.

Lemma ray_grid_layout_witness :
  exists xv yv zv rays,
    unit_rays 2 = Ok (xv, yv, zv) /\
    ray_grid 2 = Ok rays /\
    length rays = (2 * 2)%nat /\
    length (stack3 xv yv zv) = (2 * 2)%nat /\
    Forall (fun v => sq_norm v = 1) (stack3 xv yv zv) /\
    (forall i j, (i < 2)%nat -> (j < 2)%nat ->
       nth (i * 2 + j) (stack3 xv yv zv) (0, 0, 0)
       = normalize (grid_x 2 j, - grid_x 2 i, 1)) /\
    (forall j, (j < 2)%nat -> -1 <= grid_x 2 j <= 1) /\
    (forall j, (S j < 2)%nat ->
       grid_x 2 (S j) - grid_x 2 j = 2 / (INR 2 - 1)) /\
    ((2 <= 2)%nat -> grid_x 2 0 = -1 /\ grid_x 2 (2 - 1) = 1) /\
    (2%nat = 1%nat -> linspace (-1) 1 2 = Ok [-1]).
Proof. apply (ray_grid_layout 2). lia. Defined.

End GridFacts.

(** ** The resampler *)

Module ResamplerFacts.

Import Np Cv2 Perspective Spec.
Local Open Scope R_scope.

Lemma borderInterpolate_wrap (p len : Z) :
  (0 < len)%Z -> borderInterpolate p len BORDER_WRAP = (p mod len)%Z.
Proof.
  intros Hlen. unfold borderInterpolate.
  destruct (Z.leb_spec 0 p); destruct (Z.ltb_spec p len); cbn; try reflexivity.
  symmetry. apply Z.mod_small. lia.
Qed.

Lemma borderInterpolate_period (p len : Z) :
  (0 < len)%Z ->
  borderInterpolate (p + len) len BORDER_WRAP
  = borderInterpolate p len BORDER_WRAP.
Proof.
  intros Hlen. rewrite !borderInterpolate_wrap by exact Hlen.
  rewrite <- (Z.mul_1_l len) at 1. apply Z_mod_plus_full.
Qed.

Lemma fetch_wrap (src : image) (y x : Z) (k : nat) :
  (1 <= height src)%nat -> (1 <= width src)%nat ->
  fetch src BORDER_WRAP y x k
  = nth ((Z.to_nat (y mod Z.of_nat (height src)) * width src
          + Z.to_nat (x mod Z.of_nat (width src))) * channels src + k)%nat
      (data src) 0.
Proof.
  intros Hh Hw. unfold fetch.
  rewrite !borderInterpolate_wrap by lia. reflexivity.
Qed.


Lemma fetch_period_y (src : image) (y x : Z) (k : nat) :
  (1 <= height src)%nat ->
  fetch src BORDER_WRAP (y + Z.of_nat (height src)) x k
  = fetch src BORDER_WRAP y x k.
Proof.
  intros Hh. unfold fetch. rewrite borderInterpolate_period by lia.
  reflexivity.
Qed.


Lemma sample_period_y (src : image) (sx sy : R) :
  (1 <= height src)%nat ->
  sample src BORDER_WRAP sx (sy + INR (height src))
  = sample src BORDER_WRAP sx sy.
Proof.
  intros Hh. unfold sample.
  rewrite INR_IZR_INZ, Zfloor_addz, plus_IZR.
  apply map_ext. intros k.
  replace (Zfloor sy + Z.of_nat (height src) + 1)%Z
    with (Zfloor sy + 1 + Z.of_nat (height src))%Z by lia.
  rewrite !fetch_period_y by exact Hh.
  replace (sy + IZR (Z.of_nat (height src))
           - (IZR (Zfloor sy) + IZR (Z.of_nat (height src))))
    with (sy - IZR (Zfloor sy)) by ring.
  reflexivity.
Qed.

(** At integer coordinates the interpolation weights select one sample. *)
Lemma sample_integer (src : image) (b : border) (x y : Z) :
  sample src b (IZR x) (IZR y)
  = map (fun k => fetch src b y x k) (seq 0 (channels src)).
Proof.
  unfold sample. rewrite !ZfloorZ.
  apply map_ext. intros k. ring.
Qed.

Lemma sample_integer_wrap (src : image) (x y : Z) :
  (1 <= height src)%nat -> (1 <= width src)%nat ->
  sample src BORDER_WRAP (IZR x) (IZR y)
  = pixel src (Z.to_nat (y mod Z.of_nat (height src)))
      (Z.to_nat (x mod Z.of_nat (width src))).
Proof.
  intros Hh Hw. rewrite sample_integer. unfold pixel.
  apply map_ext. intros k. apply fetch_wrap; assumption.
Qed.

Lemma source_y_range (shape0 shape1 : nat) (v : vec3) :
  (1 <= shape0)%nat ->
  0 <= snd (source_xy shape0 shape1 v) <= INR shape0 - 1.
Proof.
  intros Hh. destruct v as [[v0 v1] v2]. cbn [source_xy snd].
  pose proof PI_RGT_0 as Hpi.
  pose proof (asin_bound v1) as Hb. unfold arcsin.
  apply MapperFacts.unit_interval_scale.
  - split.
    + apply Rmult_le_pos; [lra|]. left. apply Rinv_0_lt_compat. lra.
    + apply (Rmult_le_reg_r PI); [lra|].
      unfold Rdiv. rewrite Rmult_assoc, Rinv_l by lra. lra.
  - apply le_INR in Hh. cbn in Hh. lra.
Qed.

(** The border mode taken on its own: one row above the top row
    [BORDER_WRAP] reads the bottom-row value (20), not the top-row value (10)
    that clamping would give.  The mapper never computes such a coordinate
    ([source_y_range]). *)
Lemma vertical_axis_wraps :
  sample two_rows BORDER_WRAP 0 (-1) = [20] /\
  sample two_rows BORDER_WRAP 0 0 = [10] /\
  sample two_rows BORDER_REPLICATE 0 (-1) = [10] /\
  sample two_rows BORDER_WRAP 0 (-1) <> sample two_rows BORDER_WRAP 0 0.
Proof.
  assert (Hw : sample two_rows BORDER_WRAP 0 (-1) = [20]).
  { rewrite (sample_integer two_rows BORDER_WRAP 0 (-1)). reflexivity. }
  assert (Ht : sample two_rows BORDER_WRAP 0 0 = [10]).
  { rewrite (sample_integer two_rows BORDER_WRAP 0 0). reflexivity. }
  repeat split; try assumption.
  - rewrite (sample_integer two_rows BORDER_REPLICATE 0 (-1)). reflexivity.
  - rewrite Hw, Ht. intros H. injection H as H. lra.
Qed.

Lemma borderInterpolate_inside (p len : Z) (b : border) :
  (0 <= p < len)%Z -> borderInterpolate p len b = p.
Proof.
  intros Hp. unfold borderInterpolate.
  destruct (Z.leb_spec 0 p); [|lia].
  destruct (Z.ltb_spec p len); [reflexivity|lia].
Qed.



Lemma minus_one_mod (len : Z) : (0 < len)%Z -> (-1 mod len = len - 1)%Z.
Proof.
  intros Hlen. rewrite <- (Z_mod_plus_full (-1) 1 len).
  replace (-1 + 1 * len)%Z with (len - 1)%Z by lia.
  apply Z.mod_small. lia.
Qed.

End ResamplerFacts.

(** ** The pipeline of one face *)

Module PipelineFacts.

Import Np Cv2 Perspective Spec RotationFacts ArrayFacts GridFacts.
Local Open Scope R_scope.

Lemma ray_grid_face_rays (face_size : Z) :
  (0 <= face_size)%Z ->
  ray_grid face_size = Ok (face_rays (Z.to_nat face_size)).
Proof. intros H. apply (ray_grid_grid face_size H). Qed.

Lemma face_rays_length (n : nat) : length (face_rays n) = (n * n)%nat.
Proof.
  unfold face_rays. rewrite concat_grid2_length.
  rewrite !length_map, length_seq. reflexivity.
Qed.

Lemma compose_rotation_eq (yaw pitch roll : R) :
  compose_rotation yaw pitch roll = Ok (rotation yaw pitch roll).
Proof. reflexivity. Qed.

Lemma projection_maps_eq (shape0 shape1 : nat) (face_size : Z)
    (yaw pitch roll : R) :
  (0 <= face_size)%Z ->
  let n := Z.to_nat face_size in
  let src := map (source_xy shape0 shape1)
               (map (apply (rotation yaw pitch roll)) (face_rays n)) in
  projection_maps shape0 shape1 face_size yaw pitch roll
  = Ok (reshape n n (map fst src), reshape n n (map snd src)).
Proof.
  intros Hfs n src. unfold projection_maps.
  rewrite (ray_grid_face_rays face_size Hfs), bind_Ok.
  rewrite compose_rotation_eq, bind_Ok.
  rewrite rotate_rays_map. reflexivity.
Qed.

Lemma projection_maps_negative (shape0 shape1 : nat) (face_size : Z)
    (yaw pitch roll : R) :
  (face_size < 0)%Z ->
  projection_maps shape0 shape1 face_size yaw pitch roll
  = Raise (ValueError "Number of samples must be non-negative.").
Proof.
  intros Hfs. unfold projection_maps, ray_grid, unit_rays.
  rewrite linspace_negative by exact Hfs. reflexivity.
Qed.

Lemma zip_with_app {A B C : Type} (f : A -> B -> C)
    (a1 a2 : list A) (b1 b2 : list B) :
  length a1 = length b1 ->
  zip_with f (a1 ++ a2) (b1 ++ b2) = zip_with f a1 b1 ++ zip_with f a2 b2.
Proof.
  revert b1. induction a1 as [|x a1 IH]; intros [|y b1] Hlen;
    cbn in *; try discriminate; [reflexivity|].
  rewrite IH by lia. reflexivity.
Qed.

(** Sampling the reshaped maps row by row visits the coordinates in the
    order of the flat arrays. *)
Lemma remap_rows_flat {A : Type} (f : R -> R -> list A)
    (rows cols : nat) (a b : list R) :
  length a = (rows * cols)%nat -> length b = (rows * cols)%nat ->
  concat (zip_with (fun rx ry => concat (zip_with f rx ry))
            (reshape rows cols a) (reshape rows cols b))
  = concat (zip_with f a b).
Proof.
  revert a b. induction rows as [|r IH]; intros a b Ha Hb.
  - destruct a; [|discriminate]. reflexivity.
  - cbn [reshape zip_with concat].
    rewrite IH by (rewrite length_skipn; cbn in *; lia).
    rewrite <- concat_app, <- zip_with_app
      by (rewrite !length_firstn; cbn in *; lia).
    rewrite !firstn_skipn. reflexivity.
Qed.

Lemma reshape_nonempty (n : nat) (a : list R) :
  (1 <= n)%nat -> exists rest, reshape n n a = firstn n a :: rest.
Proof. intros Hn. destruct n; [lia|]. eexists. reflexivity. Qed.

(** The whole of [perspective_projection] on a non-empty panorama. *)
Lemma perspective_projection_eq (img : image) (face_size : Z)
    (yaw pitch roll : R) :
  (1 <= face_size)%Z -> (1 <= height img)%nat -> (1 <= width img)%nat ->
  perspective_projection img face_size yaw pitch roll
  = Ok (projected img (rotation yaw pitch roll) (Z.to_nat face_size)).
Proof.
  intros Hfs Hh Hw. unfold perspective_projection.
  rewrite projection_maps_eq by lia. rewrite bind_Ok.
  set (n := Z.to_nat face_size).
  set (src := map (source_xy (height img) (width img))
                (map (apply (rotation yaw pitch roll)) (face_rays n))).
  assert (Hn : (1 <= n)%nat) by (unfold n; lia).
  assert (Hsrc : length src = (n * n)%nat).
  { unfold src. rewrite !length_map. apply face_rays_length. }
  unfold remap.
  destruct (reshape_nonempty n (map fst src) Hn) as [rest Hrest].
  pose proof (reshape_length n n (map fst src)) as Hrows.
  rewrite Hrest in *.
  destruct (Nat.eqb_spec (height img) 0) as [|_]; [lia|].
  destruct (Nat.eqb_spec (width img) 0) as [|_]; [lia|].
  cbn [orb]. rewrite <- Hrest.
  rewrite remap_rows_flat by (rewrite length_map; exact Hsrc).
  rewrite zip_with_map_same.
  unfold projected. f_equal. f_equal.
  - rewrite Hrest. exact Hrows.
  - rewrite length_firstn, length_map, Hsrc. nia.
  - unfold src. rewrite !map_map. reflexivity.
Qed.

Lemma rotation_zero : rotation 0 0 0 = identity3.
Proof.
  unfold rotation. rewrite deg2rad_0. cbn. rewrite cos_0, sin_0.
  unfold identity3. repeat apply (f_equal2 pair); ring.
Qed.

Lemma sqrt3_pos : 0 < sqrt 3.
Proof. apply sqrt_lt_R0. lra. Qed.

Lemma face_rays_one : face_rays 1 = [corner_ray].
Proof.
  unfold face_rays, grid2, grid_x. cbn.
  unfold unit_x, unit_y, unit_z, corner_ray.
  replace ((-1) ^ 2 + (- -1) ^ 2 + 1 ^ 2) with 3 by ring.
  pose proof sqrt3_pos.
  f_equal. repeat apply (f_equal2 pair); field; lra.
Qed.

Lemma arctan2_corner : arctan2 (- / sqrt 3) (/ sqrt 3) = - (PI / 4).
Proof.
  pose proof sqrt3_pos as Hs.
  assert (Hi : 0 < / sqrt 3) by (apply Rinv_0_lt_compat; exact Hs).
  unfold arctan2. destruct (Rlt_dec 0 (/ sqrt 3)) as [_|]; [|lra].
  replace (- / sqrt 3 / / sqrt 3) with (- (1)) by (field; lra).
  rewrite atan_opp, atan_1. reflexivity.
Qed.

Lemma strip9_corner_coordinates : source_xy 1 9 corner_ray = (3, 0).
Proof.
  unfold corner_ray, source_xy. rewrite arctan2_corner.
  pose proof PI_RGT_0.
  replace (INR 9) with 9 by (cbn; lra).
  replace (INR 1) with 1 by reflexivity.
  apply (f_equal2 pair); field; lra.
Qed.

(** C3 as stated fails: the single ray of a one-pixel face is the ray
    through the top-left corner, not the central ray (0, 0, 1), and the front
    face of the nine-column strip is the pixel of column 3, not the centre
    pixel of column 4. *)
Lemma single_ray_not_central :
  ray_grid 1 = Ok [corner_ray] /\
  ray_grid 1 <> Ok [axis_forward] /\
  perspective_projection strip9 1 0 0 0 = Ok (mkImage 1 1 1 [3]) /\
  pixel strip9 0 4 = [4].
Proof.
  assert (Hg : ray_grid 1 = Ok [corner_ray]).
  { rewrite ray_grid_face_rays by lia.
    change (Z.to_nat 1) with 1%nat. rewrite face_rays_one. reflexivity. }
  split; [exact Hg|]. split; [|split].
  - rewrite Hg. unfold corner_ray, axis_forward. intros H.
    injection H as H _ _. pose proof sqrt3_pos as Hs.
    apply Rinv_0_lt_compat in Hs. lra.
  - rewrite perspective_projection_eq by (cbn; lia).
    change (Z.to_nat 1) with 1%nat.
    unfold projected. rewrite face_rays_one, rotation_zero.
    cbn [map concat]. unfold projected_pixel.
    rewrite apply_identity3.
    change (height strip9) with 1%nat. change (width strip9) with 9%nat.
    rewrite strip9_corner_coordinates.
    rewrite (ResamplerFacts.sample_integer strip9 BORDER_WRAP 3 0).
    reflexivity.
  - reflexivity.
Qed.

(** C3, amended: for faceSize = 1 the pipeline does not fail on a non-empty
    panorama; the ray grid is the single ray through the top-left corner of
    the face, (-1, 1, 1) / sqrt 3, and the output is the single pixel sampled
    where that ray, once rotated, meets the panorama. *)
Theorem face_size_one_single_pixel (img : image) (yaw pitch roll : R) :
  (1 <= height img)%nat -> (1 <= width img)%nat ->
  ray_grid 1 = Ok [corner_ray] /\
  corner_ray = normalize (-1, 1, 1) /\
  perspective_projection img 1 yaw pitch roll
  = Ok (mkImage 1 1 (channels img)
          (projected_pixel img (rotation yaw pitch roll) corner_ray)) /\
  length (projected_pixel img (rotation yaw pitch roll) corner_ray)
  = channels img.
Proof.
  intros Hh Hw.
  split.
  { rewrite ray_grid_face_rays by lia.
    change (Z.to_nat 1) with 1%nat. rewrite face_rays_one. reflexivity. }
  split.
  { unfold corner_ray, normalize.
    replace ((-1) ^ 2 + 1 ^ 2 + 1 ^ 2) with 3 by ring.
    pose proof sqrt3_pos.
    repeat apply (f_equal2 pair); field; lra. }
  split.
  { rewrite perspective_projection_eq by (assumption || lia).
    change (Z.to_nat 1) with 1%nat.
    unfold projected. rewrite face_rays_one.
    cbn [map concat]. rewrite app_nil_r. reflexivity. }
  unfold projected_pixel.
  destruct (source_xy (height img) (width img)
              (apply (rotation yaw pitch roll) corner_ray)) as [sx sy].
  unfold sample. rewrite length_map, length_seq. reflexivity.
Qed.

Lemma face_size_one_single_pixel_witness :
  ray_grid 1 = Ok [corner_ray] /\
  corner_ray = normalize (-1, 1, 1) /\
  perspective_projection strip9 1 0 0 0
  = Ok (mkImage 1 1 (channels strip9)
          (projected_pixel strip9 (rotation 0 0 0) corner_ray)) /\
  length (projected_pixel strip9 (rotation 0 0 0) corner_ray)
  = channels strip9.
Proof. apply (face_size_one_single_pixel strip9 0 0 0); cbn; lia. Defined.

Lemma perspective_projection_negative (img : image) (face_size : Z)
    (yaw pitch roll : R) :
  (face_size < 0)%Z ->
  perspective_projection img face_size yaw pitch roll
  = Raise (ValueError "Number of samples must be non-negative.").
Proof.
  intros Hfs. unfold perspective_projection.
  rewrite projection_maps_negative by exact Hfs. reflexivity.
Qed.

Lemma perspective_projection_zero (img : image) (yaw pitch roll : R) :
  perspective_projection img 0 yaw pitch roll
  = Raise (CvError "!_map1.empty()").
Proof.
  unfold perspective_projection.
  rewrite projection_maps_eq by lia. reflexivity.
Qed.

Lemma perspective_projection_empty (img : image) (face_size : Z)
    (yaw pitch roll : R) :
  (1 <= face_size)%Z -> height img = 0%nat \/ width img = 0%nat ->
  perspective_projection img face_size yaw pitch roll
  = Raise (CvError "len > 0").
Proof.
  intros Hfs Hempty. unfold perspective_projection.
  rewrite projection_maps_eq by lia. rewrite bind_Ok.
  set (n := Z.to_nat face_size).
  assert (Hn : (1 <= n)%nat) by (unfold n; lia).
  unfold remap.
  match goal with
  | |- context [reshape n n ?a] =>
      destruct (reshape_nonempty n a Hn) as [rest ->]
  end.
  destruct Hempty as [-> | ->]; cbn [Nat.eqb orb]; [reflexivity|].
  rewrite orb_true_r. reflexivity.
Qed.

(** C2 as stated fails: for an empty panorama the engine does not stop at its
    boundary; it generates the ray, rotates it and computes the coordinate
    maps that it hands to the resampler, and so it does for a face of
    size 0. *)
Lemma no_boundary_rejection :
  (exists map_x map_y,
     projection_maps (height empty_image) (width empty_image) 1 0 0 0
     = Ok (map_x, map_y) /\ length map_x = 1%nat /\ length map_y = 1%nat) /\
  projection_maps 2 1 0 0 0 0 = Ok ([], []).
Proof.
  split.
  - do 2 eexists. split; [apply projection_maps_eq; lia|].
    split; apply reshape_length.
  - rewrite projection_maps_eq by lia. reflexivity.
Qed.

(** C2, amended: the engine has no geometry check of its own.  A negative
    faceSize is refused by the grid generator ([np.linspace] raises
    ValueError) before any coordinate is computed.  For faceSize = 0 and for
    a panorama of width or height 0 the engine computes the faceSize x
    faceSize coordinate maps and calls the resampler, and it is the resampler
    that raises an error; no pixel is produced in either case. *)
Theorem degenerate_geometry (img : image) (face_size : Z)
    (yaw pitch roll : R) :
  height img = 0%nat \/ width img = 0%nat \/ (face_size <= 0)%Z ->
  ((face_size < 0)%Z ->
     projection_maps (height img) (width img) face_size yaw pitch roll
     = Raise (ValueError "Number of samples must be non-negative.") /\
     perspective_projection img face_size yaw pitch roll
     = Raise (ValueError "Number of samples must be non-negative.")) /\
  ((0 <= face_size)%Z ->
     (exists map_x map_y,
        projection_maps (height img) (width img) face_size yaw pitch roll
        = Ok (map_x, map_y) /\
        length map_x = Z.to_nat face_size /\
        length map_y = Z.to_nat face_size) /\
     (exists msg,
        perspective_projection img face_size yaw pitch roll
        = Raise (CvError msg))).
Proof.
  intros Hdeg. split.
  - intros Hneg. split.
    + apply projection_maps_negative. exact Hneg.
    + apply perspective_projection_negative. exact Hneg.
  - intros Hpos. split.
    + do 2 eexists. split; [apply projection_maps_eq; exact Hpos|].
      split; apply reshape_length.
    + destruct (Z.eq_dec face_size 0%Z) as [-> | Hnz].
      * eexists. apply perspective_projection_zero.
      * eexists. apply perspective_projection_empty; [lia|].
        destruct Hdeg as [H | [H | H]]; [left | right | lia]; exact H.
Qed.

Lemma degenerate_geometry_witness :
  ((1 < 0)%Z ->
     projection_maps (height empty_image) (width empty_image) 1 0 0 0
     = Raise (ValueError "Number of samples must be non-negative.") /\
     perspective_projection empty_image 1 0 0 0
     = Raise (ValueError "Number of samples must be non-negative.")) /\
  ((0 <= 1)%Z ->
     (exists map_x map_y,
        projection_maps (height empty_image) (width empty_image) 1 0 0 0
        = Ok (map_x, map_y) /\
        length map_x = Z.to_nat 1 /\
        length map_y = Z.to_nat 1) /\
     (exists msg,
        perspective_projection empty_image 1 0 0 0 = Raise (CvError msg))).
Proof.
  apply (degenerate_geometry empty_image 1 0 0 0). left. reflexivity.
Defined.

End PipelineFacts.

(** ** The four faces and the batch driver *)

Module OrchestratorFacts.

Import Np Cv2 Perspective Spec ArrayFacts GridFacts PipelineFacts.
Local Open Scope R_scope.

Lemma equirectangular_to_cubemap_eq (img : image) (face_size : Z) :
  (1 <= face_size)%Z -> (1 <= height img)%nat -> (1 <= width img)%nat ->
  equirectangular_to_cubemap img face_size
  = Ok (cube_faces img (Z.to_nat face_size)).
Proof.
  intros Hfs Hh Hw.
  unfold equirectangular_to_cubemap, face_names.
  cbn [cubemap_loop].
  change (face_angles "front") with (Ok (0, 0, 0)).
  change (face_angles "right") with (Ok (90, 0, 0)).
  change (face_angles "back") with (Ok (180, 0, 0)).
  change (face_angles "left") with (Ok (-90, 0, 0)).
  do 4 (rewrite bind_Ok; cbv beta iota;
        rewrite perspective_projection_eq by assumption;
        rewrite bind_Ok).
  reflexivity.
Qed.

Lemma projected_pixel_length (img : image) (rot : mat3) (v : vec3) :
  length (projected_pixel img rot v) = channels img.
Proof.
  unfold projected_pixel.
  destruct (source_xy (height img) (width img) (apply rot v)) as [sx sy].
  unfold sample. rewrite length_map, length_seq. reflexivity.
Qed.

Lemma concat_map_length {A B : Type} (f : A -> list B) (l : list A)
    (c : nat) :
  (forall a, length (f a) = c) ->
  length (concat (map f l)) = (length l * c)%nat.
Proof.
  intros Hf. induction l as [|a l IH]; [reflexivity|].
  cbn. rewrite length_app, Hf, IH. reflexivity.
Qed.

Lemma projected_shape (img : image) (rot : mat3) (n : nat) :
  same_shape n n (channels img) (projected img rot n) /\
  wf_image (projected img rot n).
Proof.
  split; [repeat split|].
  unfold wf_image, projected. cbn [data height width channels].
  rewrite (concat_map_length _ _ (channels img))
    by apply projected_pixel_length.
  rewrite face_rays_length. reflexivity.
Qed.

Lemma write_faces_eq (output_folder base_name : string)
    (faces : list (string * image)) (written : list (string * image)) :
  write_faces output_folder base_name faces written
  = written
    ++ map (fun p => (OsPath.join output_folder
                        (base_name ++ "_" ++ fst p ++ ".jpg")%string,
                      snd p))
        faces.
Proof.
  revert written. induction faces as [|[face face_img] faces IH];
    intros written; cbn [write_faces map].
  - rewrite app_nil_r. reflexivity.
  - rewrite IH, <- app_assoc. reflexivity.
Qed.

Lemma panorama_loop_eq (imread : string -> option image)
    (input_folder output_folder : string) (face_size : Z)
    (files : list string) (written : list (string * image)) :
  (1 <= face_size)%Z ->
  (forall path img,
     imread path = Some img -> (1 <= height img)%nat /\ (1 <= width img)%nat) ->
  panorama_loop imread input_folder output_folder face_size files written
  = (written
     ++ flat_map (writes_for imread input_folder output_folder
                    (Z.to_nat face_size))
          files,
     Ok tt).
Proof.
  intros Hfs Hread. revert written.
  induction files as [|filename files IH]; intros written.
  - cbn. rewrite app_nil_r. reflexivity.
  - cbn [panorama_loop flat_map]. unfold writes_for at 1.
    fold (accepted filename).
    destruct (accepted filename).
    + destruct (imread (OsPath.join input_folder filename)) as [img|] eqn:Himg.
      * destruct (Hread _ _ Himg) as [Hh Hw].
        rewrite equirectangular_to_cubemap_eq by assumption.
        rewrite IH, write_faces_eq, <- app_assoc.
        reflexivity.
      * rewrite IH. reflexivity.
    + rewrite IH. reflexivity.
Qed.





End OrchestratorFacts.

(** ** The camera file parser *)

Module ParserFacts.

Import PyText ExportCameraTrajectory.

Section Parse.

Context {float : Type} (py_float : text -> option float)
  (decode : list Byte.byte -> option text)
  (console : message -> option exn).

Ltac parse_token :=
  match goal with
  | |- context [py_float ?s] =>
      destruct (py_float s); cbn; [|reflexivity]
  end.

(** The [try] body on a line of 13 tokens: the record is appended when
    every token is a number, and the [ValueError] of [float] is raised when
    one is not. *)
Lemma parse_parts_eq (parts : list text) (cameras_data : list camera) :
  length parts = 13%nat ->
  parse_parts py_float parts cameras_data
  = match floats_of py_float parts with
    | Some vals => Ok (cameras_data ++ [record_of_values vals])
    | None => Raise (ValueError "could not convert string to float")
    end.
Proof.
  intros Hlen.
  do 13 (destruct parts as [|? parts]; [discriminate Hlen|]).
  destruct parts; [|discriminate Hlen]. clear Hlen.
  unfold parse_parts, float_of. cbn.
  unfold float_of.
  do 13 parse_token.
  reflexivity.
Qed.

Lemma io_bind_run {A B : Type} (m : io A) (k : A -> io B) (w : world) :
  (m ≫= k) w
  = match m w with
    | (Ok a, w') => k a w'
    | (Raise e, w') => (Raise e, w')
    end.
Proof. reflexivity. Qed.

Lemma print_then_nil {A : Type} (a : A) (w : world) :
  print_then console [] a w = (Ok a, w).
Proof. reflexivity. Qed.

Lemma print_then_cons {A : Type} (m : message) (ms : list message) (a : A)
    (w : world) :
  print_then console (m :: ms) a w
  = match console m with
    | None => print_then console ms a (with_messages w [m])
    | Some e => (Raise e, w)
    end.
Proof.
  unfold print_then. cbn [print_all]. rewrite !io_bind_run.
  unfold print at 1. destruct (console m); reflexivity.
Qed.

Lemma with_messages_nil (w : world) : with_messages w [] = w.
Proof. destruct w. unfold with_messages. cbn. rewrite app_nil_r. reflexivity. Qed.

Lemma with_messages_app (w : world) (ms1 ms2 : list message) :
  with_messages (with_messages w ms1) ms2 = with_messages w (ms1 ++ ms2).
Proof. unfold with_messages. cbn. rewrite app_assoc. reflexivity. Qed.

(** With a console that takes them, the messages are printed in order. *)
Lemma print_then_accepted {A : Type} (ms : list message) (a : A)
    (w : world) :
  Forall (fun m => console m = None) ms ->
  print_then console ms a w = (Ok a, with_messages w ms).
Proof.
  intros Hms. revert w.
  induction Hms as [|m ms Hm _ IH]; intros w.
  - rewrite print_then_nil, with_messages_nil. reflexivity.
  - rewrite print_then_cons, Hm, IH, with_messages_app. reflexivity.
Qed.

(** Printing raises only what the console answers to one of the messages,
    and leaves the files alone. *)
Lemma print_then_raises {A : Type} (ms : list message) (a : A) (e : exn)
    (w w' : world) :
  print_then console ms a w = (Raise e, w') ->
  Exists (fun m => console m = Some e) ms /\ files w' = files w.
Proof.
  revert w. induction ms as [|m ms IH]; intros w.
  - rewrite print_then_nil. discriminate.
  - rewrite print_then_cons. destruct (console m) as [e0|] eqn:Hm.
    + intros H. injection H as <- <-. split; [left; exact Hm|reflexivity].
    + intros H. apply IH in H. destruct H as [Hex Hfiles].
      split; [right; exact Hex|exact Hfiles].
Qed.

Lemma print_then_returns {A : Type} (ms : list message) (a b : A)
    (w w' : world) :
  print_then console ms a w = (Ok b, w') -> b = a.
Proof.
  revert w. induction ms as [|m ms IH]; intros w.
  - rewrite print_then_nil. intros H. injection H as <- _. reflexivity.
  - rewrite print_then_cons. destruct (console m); [discriminate|].
    apply IH.
Qed.

(** The loop prints the messages of the lines and returns their records. *)
Lemma parse_lines_eq (lines : list text) (cameras_data : list camera)
    (w : world) :
  parse_lines py_float console lines cameras_data w
  = print_then console (concat (map (line_messages py_float) lines))
      (cameras_data ++ omap (record_of_line py_float) lines) w.
Proof.
  revert cameras_data w.
  induction lines as [|line lines IH]; intros cameras_data w.
  - cbn. rewrite app_nil_r. reflexivity.
  - cbn [parse_lines omap list_omap map concat].
    unfold record_of_line at 1, line_messages at 1.
    destruct (startswith line (of_string "#")); cbn [orb]; [apply IH|].
    destruct (eqb (strip line) (of_string "")); [apply IH|].
    destruct (Nat.eqb_spec (length (split (strip line))) 13) as [Hlen|_];
      cbn [negb].
    + rewrite io_bind_run. unfold try_except_ValueError, lift.
      rewrite parse_parts_eq by exact Hlen.
      destruct (floats_of py_float (split (strip line))) as [vals|].
      * cbn [app]. rewrite IH, <- app_assoc. reflexivity.
      * cbn [is_ValueError app]. rewrite !io_bind_run.
        rewrite !print_then_cons. unfold print.
        destruct (console (ParseError (strip line))); [reflexivity|].
        destruct (console (ErrorDetails _)); [reflexivity|].
        rewrite io_bind_run. cbv beta iota.
        etransitivity; [apply IH|]. reflexivity.
    + cbn [app]. rewrite io_bind_run, print_then_cons. unfold print.
      destruct (console (SkippedLine (strip line))); [reflexivity|].
      rewrite IH. reflexivity.
Qed.

Lemma floats_of_length (tokens : list text) (vals : list float) :
  floats_of py_float tokens = Some vals -> length vals = length tokens.
Proof.
  revert vals. induction tokens as [|s tokens IH]; intros vals H; cbn in H.
  - injection H as <-. reflexivity.
  - destruct (py_float s); [|discriminate].
    destruct (floats_of py_float tokens) as [vs|]; [|discriminate].
    injection H as <-. cbn. rewrite (IH vs); reflexivity.
Qed.

Lemma floats_of_parsed (tokens : list text) (vals : list float) :
  floats_of py_float tokens = Some vals ->
  Forall2 (fun s v => py_float s = Some v) tokens vals.
Proof.
  revert vals. induction tokens as [|s tokens IH]; intros vals H; cbn in H.
  - injection H as <-. constructor.
  - destruct (py_float s) eqn:Hs; [|discriminate].
    destruct (floats_of py_float tokens) as [vs|]; [|discriminate].
    injection H as <-. constructor; [exact Hs|]. apply IH. reflexivity.
Qed.

Lemma record_of_values_fields (vals : list float) :
  length vals = 13%nat ->
  dom (record_of_values vals) = list_to_set fieldnames /\
  map (fun name => record_of_values vals !! name) fieldnames
  = map Some vals.
Proof.
  intros Hlen.
  do 13 (destruct vals as [|? vals]; [discriminate Hlen|]).
  destruct vals; [|discriminate Hlen].
  split.
  - unfold record_of_values, camera.
    rewrite (dom_list_to_map_L (M := gmap string)). reflexivity.
  - vm_compute. reflexivity.
Qed.

Lemma eqb_empty (s : text) : eqb s (of_string "") = true <-> s = [].
Proof. unfold eqb. rewrite bool_decide_eq_true. reflexivity. Qed.

Lemma record_of_line_inv (line : text) (cam : camera) :
  record_of_line py_float line = Some cam ->
  startswith line (of_string "#") = false /\
  strip line <> [] /\
  exists vals,
    length (split (strip line)) = 13%nat /\
    floats_of py_float (split (strip line)) = Some vals /\
    cam = record_of_values vals.
Proof.
  unfold record_of_line.
  destruct (startswith line (of_string "#")); [discriminate|].
  destruct (eqb (strip line) (of_string "")) eqn:Hblank; [discriminate|].
  destruct (Nat.eqb_spec (length (split (strip line))) 13) as [Hlen|];
    [|discriminate].
  destruct (floats_of py_float (split (strip line))) as [vals|];
    [|discriminate].
  intros H. injection H as <-.
  split; [reflexivity|]. split.
  { intros Hs. apply eqb_empty in Hs. congruence. }
  exists vals. auto.
Qed.

Lemma record_of_line_skipped (line : text) :
  startswith line (of_string "#") = true \/ strip line = [] \/
  length (split (strip line)) <> 13%nat \/
  Exists (fun s => py_float s = None) (split (strip line)) ->
  record_of_line py_float line = None.
Proof.
  intros H. unfold record_of_line.
  destruct (startswith line (of_string "#")); [reflexivity|].
  destruct (eqb (strip line) (of_string "")) eqn:Hblank; [reflexivity|].
  destruct (Nat.eqb_spec (length (split (strip line))) 13) as [Hlen|];
    [|reflexivity].
  destruct H as [H|[H|[H|H]]]; try congruence.
  { apply eqb_empty in H. congruence. }
  destruct (floats_of py_float (split (strip line))) as [vals|] eqn:Hv;
    [|reflexivity].
  exfalso. apply floats_of_parsed in Hv.
  clear Hlen. induction Hv as [|s v tokens vals Hs _ IH].
  - inversion H.
  - inversion H as [? ? Hnone|? ? Hrest]; subst.
    + congruence.
    + apply IH. exact Hrest.
Qed.

Lemma records_fields (lines : list text) :
  Forall (fun cam : camera =>
            dom cam = list_to_set fieldnames /\
            exists line vals,
              In line lines /\
              startswith line (of_string "#") = false /\
              length (split (strip line)) = 13%nat /\
              Forall2 (fun s v => py_float s = Some v)
                (split (strip line)) vals /\
              map (fun name => cam !! name) fieldnames = map Some vals)
    (omap (record_of_line py_float) lines).
Proof.
  apply List.Forall_forall. intros cam Hcam.
  apply list_elem_of_In, list_elem_of_omap in Hcam.
  destruct Hcam as (line & Hline & Hrec).
  apply record_of_line_inv in Hrec.
  destruct Hrec as (Hhash & _ & vals & Hlen & Hvals & ->).
  pose proof (floats_of_length _ _ Hvals) as Hvlen.
  rewrite Hlen in Hvlen.
  destruct (record_of_values_fields vals Hvlen) as [Hdom Hfields].
  split; [exact Hdom|].
  exists line, vals. split; [apply list_elem_of_In; exact Hline|].
  split; [exact Hhash|]. split; [exact Hlen|].
  split; [apply floats_of_parsed; exact Hvals|exact Hfields].
Qed.

(** The whole function: the file is opened and read before the loop. *)
Lemma parse_cameras_eq (file_path : string) (w : world) :
  parse_cameras py_float decode console file_path w
  = match files w !! file_path with
    | None => (Raise (FileNotFoundError file_path), w)
    | Some (Blocked e) => (Raise e, w)
    | Some (File content) =>
        match decode content with
        | None =>
            (Raise (UnicodeDecodeError "codec can't decode bytes"), w)
        | Some t =>
            print_then console
              (concat (map (line_messages py_float) (Codec.lines t)))
              (omap (record_of_line py_float) (Codec.lines t)) w
        end
    end.
Proof.
  unfold parse_cameras. rewrite io_bind_run. unfold open_r.
  destruct (files w !! file_path) as [[content|e]|]; try reflexivity.
  rewrite io_bind_run. unfold readlines.
  destruct (decode content) as [t|]; [|reflexivity].
  rewrite parse_lines_eq. reflexivity.
Qed.

(** C10, amended: [parse_cameras] opens and reads the file before its loop
    and outside its [try] statement.  It raises FileNotFoundError when the
    file does not exist, the OSError of the entry when it cannot be opened,
    and UnicodeDecodeError when its bytes are not text in the codec of the
    locale; nothing is printed then.  For a file that is opened and decoded
    it prints the messages of the skipped lines and returns the records: it
    ends normally when the console takes these messages, and raises only
    what the console answers to one of them.  Lines that start with '#',
    blank lines, lines that do not split into exactly 13
    whitespace-separated tokens and lines with a token that [float] rejects
    contribute no record; every record of the returned list has exactly the
    13 fields R00..R22, Tx, Ty, Tz, FocalLength, whose values are the 13
    tokens of one input line, each parsed by [float]. *)
Theorem parse_cameras_outcome (file_path : string) (w : world) :
  (files w !! file_path = None ->
   parse_cameras py_float decode console file_path w
   = (Raise (FileNotFoundError file_path), w)) /\
  (forall e,
     files w !! file_path = Some (Blocked e) ->
     parse_cameras py_float decode console file_path w = (Raise e, w)) /\
  (forall content,
     files w !! file_path = Some (File content) ->
     decode content = None ->
     parse_cameras py_float decode console file_path w
     = (Raise (UnicodeDecodeError "codec can't decode bytes"), w)) /\
  (forall content t,
     files w !! file_path = Some (File content) ->
     decode content = Some t ->
     parse_cameras py_float decode console file_path w
     = print_then console
         (concat (map (line_messages py_float) (Codec.lines t)))
         (omap (record_of_line py_float) (Codec.lines t)) w /\
     (Forall (fun m => console m = None)
        (concat (map (line_messages py_float) (Codec.lines t))) ->
      parse_cameras py_float decode console file_path w
      = (Ok (omap (record_of_line py_float) (Codec.lines t)),
         with_messages w
           (concat (map (line_messages py_float) (Codec.lines t))))) /\
     (forall e w',
        parse_cameras py_float decode console file_path w = (Raise e, w') ->
        Exists (fun m => console m = Some e)
          (concat (map (line_messages py_float) (Codec.lines t))) /\
        files w' = files w) /\
     (forall recs w',
        parse_cameras py_float decode console file_path w = (Ok recs, w') ->
        recs = omap (record_of_line py_float) (Codec.lines t))) /\
  (forall line,
     startswith line (of_string "#") = true \/ strip line = [] \/
     length (split (strip line)) <> 13%nat \/
     Exists (fun s => py_float s = None) (split (strip line)) ->
     record_of_line py_float line = None /\
     (line_messages py_float line = [] \/
      line_messages py_float line = [SkippedLine (strip line)] \/
      line_messages py_float line
      = [ParseError (strip line);
         ErrorDetails (ValueError "could not convert string to float")])) /\
  (forall lines,
     Forall (fun cam : camera =>
               dom cam = list_to_set fieldnames /\
               exists line vals,
                 In line lines /\
                 startswith line (of_string "#") = false /\
                 length (split (strip line)) = 13%nat /\
                 Forall2 (fun s v => py_float s = Some v)
                   (split (strip line)) vals /\
                 map (fun name => cam !! name) fieldnames = map Some vals)
       (omap (record_of_line py_float) lines)).
Proof.
  pose proof (parse_cameras_eq file_path w) as Heq.
  split; [intros H; rewrite Heq, H; reflexivity|].
  split; [intros e H; rewrite Heq, H; reflexivity|].
  split; [intros content H Hd; rewrite Heq, H, Hd; reflexivity|].
  split.
  { intros content t H Hd. rewrite Heq, H, Hd.
    split; [reflexivity|]. split; [apply print_then_accepted|].
    split; [intros e w'; apply print_then_raises|].
    intros recs w'. apply print_then_returns. }
  split; [|apply records_fields].
  intros line H. split; [apply record_of_line_skipped; exact H|].
  unfold line_messages.
  destruct (startswith line (of_string "#")); [left; reflexivity|].
  destruct (eqb (strip line) (of_string "")); [left; reflexivity|].
  destruct (length (split (strip line)) =? 13)%nat;
    [|right; left; reflexivity].
  destruct (floats_of py_float (split (strip line)));
    [left; reflexivity|right; right; reflexivity].
Qed.

End Parse.

Import CsvExport.

(** C10 as stated fails: a file that holds a record followed by a byte
    that is not UTF-8 makes [parse_cameras] raise UnicodeDecodeError, and a
    file that does not exist makes it raise FileNotFoundError. *)
Lemma parse_cameras_raises :
  parse_cameras toy_float Codec.utf_8 console_utf8 "cameras.txt" broken_world
  = (Raise (UnicodeDecodeError "codec can't decode bytes"), broken_world) /\
  parse_cameras toy_float Codec.utf_8 console_utf8 "cameras.txt" empty_world
  = (Raise (FileNotFoundError "cameras.txt"), empty_world).
Proof. split; vm_compute; reflexivity. Qed.

Lemma parse_cameras_outcome_witness :
  parse_cameras toy_float Codec.utf_8 console_utf8 "cameras.txt"
    example_world
  = (Ok [example_record],
     with_messages example_world [SkippedLine (of_string "bad line")]) /\
  parse_cameras toy_float Codec.utf_8 console_ascii "cameras.txt"
    example_world
  = (Raise (UnicodeEncodeError "'ascii' codec can't encode characters"),
     example_world).
Proof.
  assert (Hfile : files example_world !! "cameras.txt"
                  = Some (File example_file)) by reflexivity.
  assert (Hdec : Codec.utf_8 example_file
                 = Some (of_string example_text))
    by (vm_compute; reflexivity).
  assert (Hrecs : omap (record_of_line toy_float)
                    (Codec.lines (of_string example_text))
                  = [example_record]) by (vm_compute; reflexivity).
  assert (Hms : concat (map (line_messages toy_float)
                          (Codec.lines (of_string example_text)))
                = [SkippedLine (of_string "bad line")])
    by (vm_compute; reflexivity).
  split.
  - destruct (parse_cameras_outcome toy_float Codec.utf_8 console_utf8
                "cameras.txt" example_world)
      as (_ & _ & _ & Hok & _).
    destruct (Hok _ _ Hfile Hdec) as (_ & Hrun & _).
    rewrite Hrecs, Hms in Hrun. apply Hrun.
    constructor; [reflexivity|constructor].
  - vm_compute. reflexivity.
Defined.

End ParserFacts.

(** ** The pipeline with its arrays in a store *)

Module StoreFacts.

Import Np Cv2 Spec GridFacts.
Import InPlace.
Local Open Scope R_scope.

Lemma st_bind_run {A B : Type} (k : A -> st B) (m : st A) (s : store) :
  mbind k m s
  = match m s with
    | Ok (a, s') => k a s'
    | Raise e => Raise e
    end.
Proof. reflexivity. Qed.

Lemma st_ret_run {A : Type} (a : A) (s : store) :
  (mret a : st A) s = Ok (a, s).
Proof. reflexivity. Qed.

Lemma lift_Ok_run {A : Type} (a : A) (s : store) : lift (Ok a) s = Ok (a, s).
Proof. reflexivity. Qed.

Section Frame.

(** The store before the call, [I] and [A], and the arrays [K] created
    since. *)
Variables (I : list image) (A K : list (list (list R))).

Lemma new_array_run (a : list (list R)) :
  new_array a (mkStore I (A ++ K))
  = Ok ((length A + length K)%nat, mkStore I (A ++ (K ++ [a]))).
Proof.
  unfold new_array. cbn [arrays images].
  rewrite length_app, <- app_assoc. reflexivity.
Qed.

Lemma get_array_run (i : nat) :
  get_array (length A + i) (mkStore I (A ++ K))
  = Ok (nth i K [], mkStore I (A ++ K)).
Proof.
  unfold get_array. cbn [arrays].
  rewrite app_nth2 by lia.
  replace (length A + i - length A)%nat with i by lia. reflexivity.
Qed.

Lemma set_array_run (i : nat) (a : list (list R)) :
  set_array (length A + i) a (mkStore I (A ++ K))
  = Ok (tt, mkStore I (A ++ <[i := a]> K)).
Proof.
  unfold set_array. cbn [arrays images].
  rewrite insert_app_r. reflexivity.
Qed.

Lemma get_image_run (l : nat) :
  get_image l (mkStore I (A ++ K))
  = Ok (nth l I no_image, mkStore I (A ++ K)).
Proof. reflexivity. Qed.

Lemma new_image_run (img : image) :
  new_image img (mkStore I (A ++ K))
  = Ok (length I, mkStore (I ++ [img]) (A ++ K)).
Proof. reflexivity. Qed.

End Frame.

Ltac st_step :=
  first
    [ rewrite st_bind_run
    | rewrite st_ret_run
    | rewrite lift_Ok_run
    | rewrite new_array_run
    | rewrite get_array_run
    | rewrite set_array_run
    | rewrite get_image_run
    | rewrite new_image_run ];
  cbn [length nth app insert list_insert fst snd Nat.add].

Lemma perspective_projection_run (I : list image)
    (A : list (list (list R))) (l : nat) (face_size : Z)
    (yaw pitch roll : R) :
  exists K,
    InPlace.perspective_projection l face_size yaw pitch roll (mkStore I A)
    = match Perspective.perspective_projection (nth l I no_image) face_size
              yaw pitch roll with
      | Ok face_img => Ok (length I, mkStore (I ++ [face_img]) (A ++ K))
      | Raise e => Raise e
      end.
Proof.
  unfold Perspective.perspective_projection, Perspective.projection_maps,
    Perspective.ray_grid, Perspective.unit_rays.
  unfold InPlace.perspective_projection.
  destruct (linspace (-1) 1 face_size) as [xs|e].
  2:{ exists []. reflexivity. }
  eexists.
  rewrite !bind_Ok.
  replace (mkStore I A) with (mkStore I (A ++ []))
    by (rewrite app_nil_r; reflexivity).
  unfold meshgrid, ones_like, norm_of, idiv, scale, mul.
  rewrite PipelineFacts.compose_rotation_eq.
  repeat st_step.
  rewrite ArrayFacts.meshgrid_grid2.
  cbn [fst snd]. unfold mret, result_ret. rewrite !bind_Ok.
  match goal with
  | |- context [remap ?a ?b ?c ?d ?e] =>
      destruct (remap a b c d e) as [face_img|e']
  end.
  - repeat st_step. reflexivity.
  - reflexivity.
Qed.

(** The same, for a store whatever its shape. *)
Lemma perspective_projection_frame (s : store) (l : nat) (face_size : Z)
    (yaw pitch roll : R) :
  exists K,
    InPlace.perspective_projection l face_size yaw pitch roll s
    = match Perspective.perspective_projection (nth l (images s) no_image)
              face_size yaw pitch roll with
      | Ok face_img =>
          Ok (length (images s),
              mkStore (images s ++ [face_img]) (arrays s ++ K))
      | Raise e => Raise e
      end.
Proof. destruct s as [I A]. apply perspective_projection_run. Qed.

(** The faces found so far do not influence the faces still to come. *)
Lemma cubemap_loop_acc (img : image) (face_size : Z) (todo : list string)
    (faces : list image) :
  Perspective.cubemap_loop img face_size todo faces
  = match Perspective.cubemap_loop img face_size todo [] with
    | Ok new_faces => Ok (faces ++ new_faces)
    | Raise e => Raise e
    end.
Proof.
  revert faces. induction todo as [|face rest IH]; intros faces.
  - cbn. rewrite app_nil_r. reflexivity.
  - cbn [Perspective.cubemap_loop].
    destruct (Perspective.face_angles face) as [[[yaw pitch] roll]|e];
      [|reflexivity].
    rewrite !bind_Ok.
    destruct (Perspective.perspective_projection img face_size yaw pitch roll)
      as [face_img|e]; [|reflexivity].
    rewrite !bind_Ok.
    rewrite (IH (faces ++ [face_img])), (IH ([] ++ [face_img])).
    destruct (Perspective.cubemap_loop img face_size rest []) as [nf|e];
      [|reflexivity].
    rewrite <- app_assoc. reflexivity.
Qed.

Lemma cubemap_loop_frame (todo : list string) (s : store) (l : nat)
    (face_size : Z) (faces : list nat) :
  (l < length (images s))%nat ->
  exists K,
    InPlace.cubemap_loop l face_size todo faces s
    = match Perspective.cubemap_loop (nth l (images s) no_image) face_size
              todo [] with
      | Ok new_faces =>
          Ok (faces ++ seq (length (images s)) (length new_faces),
              mkStore (images s ++ new_faces) (arrays s ++ K))
      | Raise e => Raise e
      end.
Proof.
  revert s faces. induction todo as [|face rest IH]; intros s faces Hl.
  - exists []. destruct s as [I A]. cbn. rewrite !app_nil_r. reflexivity.
  - cbn [InPlace.cubemap_loop Perspective.cubemap_loop].
    destruct (Perspective.face_angles face) as [[[yaw pitch] roll]|e].
    2:{ exists []. reflexivity. }
    rewrite st_bind_run, lift_Ok_run, bind_Ok. cbv beta iota.
    rewrite st_bind_run.
    destruct (perspective_projection_frame s l face_size yaw pitch roll)
      as [K1 ->].
    destruct (Perspective.perspective_projection (nth l (images s) no_image)
                face_size yaw pitch roll) as [face_img|e].
    2:{ exists []. reflexivity. }
    rewrite bind_Ok.
    set (s1 := mkStore (images s ++ [face_img]) (arrays s ++ K1)).
    assert (Hl1 : (l < length (images s1))%nat).
    { unfold s1. cbn. rewrite length_app. lia. }
    destruct (IH s1 (faces ++ [length (images s)]) Hl1) as [K2 ->].
    assert (Himg : nth l (images s1) no_image = nth l (images s) no_image).
    { unfold s1. cbn. apply app_nth1. exact Hl. }
    rewrite Himg.
    rewrite (cubemap_loop_acc _ _ _ ([] ++ [face_img])).
    destruct (Perspective.cubemap_loop (nth l (images s) no_image)
                face_size rest []) as [nf|e].
    2:{ exists []. reflexivity. }
    exists (K1 ++ K2). unfold s1. cbn [images arrays].
    rewrite <- !app_assoc. cbn [app length seq].
    rewrite length_app. cbn [length].
    replace (length (images s) + 1)%nat with (S (length (images s))) by lia.
    reflexivity.
Qed.

Lemma deref_seq (I new_faces : list image) (A : list (list (list R))) :
  deref (mkStore (I ++ new_faces) A) (seq (length I) (length new_faces))
  = new_faces.
Proof.
  unfold deref. cbn [images].
  apply (nth_ext _ _ no_image no_image).
  - rewrite length_map, length_seq. reflexivity.
  - intros k Hk. rewrite length_map, length_seq in Hk.
    rewrite (nth_indep _ no_image
               ((fun l => nth l (I ++ new_faces) no_image) 0%nat))
      by (rewrite length_map, length_seq; exact Hk).
    rewrite (map_nth (fun l => nth l (I ++ new_faces) no_image)).
    rewrite seq_nth by exact Hk.
    rewrite app_nth2 by lia.
    f_equal. lia.
Qed.

(** Earlier images keep their names and values when later ones are
    added. *)
Lemma deref_grow (I more : list image) (A A' : list (list (list R)))
    (faces : list nat) :
  Forall (fun l => (l < length I)%nat) faces ->
  deref (mkStore (I ++ more) A') faces = deref (mkStore I A) faces.
Proof.
  intros Hin. unfold deref. cbn [images].
  induction Hin as [|l faces Hl _ IH]; [reflexivity|].
  cbn [map]. rewrite IH, app_nth1 by exact Hl. reflexivity.
Qed.

(** C9: a face computed in the store is the value of the pure function
    [perspective_projection] of (panorama, direction, faceSize), whatever
    else the store holds, and the call changes no array or image that
    existed before it.  Hence running the four-face pipeline twice in a row
    on the same panorama with the same faceSize ends the same way both
    times: either it raises the same exception, or the second run succeeds
    as the first did, its faces are equal to those of the first run, the
    faces of the first run are still what they were, and the panorama is
    unchanged. *)
Theorem pipeline_deterministic (s : store) (l : nat) (face_size : Z) :
  (l < length (images s))%nat ->
  let img := nth l (images s) no_image in
  (forall yaw pitch roll,
     exists K,
       InPlace.perspective_projection l face_size yaw pitch roll s
       = match Perspective.perspective_projection img face_size
                 yaw pitch roll with
         | Ok face_img =>
             Ok (length (images s),
                 mkStore (images s ++ [face_img]) (arrays s ++ K))
         | Raise e => Raise e
         end) /\
  match InPlace.equirectangular_to_cubemap l face_size s with
  | Raise e =>
      Perspective.equirectangular_to_cubemap img face_size = Raise e
  | Ok (faces1, s1) =>
      Perspective.equirectangular_to_cubemap img face_size
      = Ok (deref s1 faces1) /\
      nth l (images s1) no_image = img /\
      match InPlace.equirectangular_to_cubemap l face_size s1 with
      | Raise e => False
      | Ok (faces2, s2) =>
          deref s2 faces2 = deref s2 faces1 /\
          deref s2 faces1 = deref s1 faces1 /\
          nth l (images s2) no_image = img
      end
  end.
Proof.
  intros Hl img. split.
  { intros yaw pitch roll. apply perspective_projection_frame. }
  unfold InPlace.equirectangular_to_cubemap,
    Perspective.equirectangular_to_cubemap.
  destruct (cubemap_loop_frame Perspective.face_names s l face_size [] Hl)
    as [K1 ->].
  fold img.
  destruct (Perspective.cubemap_loop img face_size Perspective.face_names [])
    as [nf|e] eqn:Hpure; [|reflexivity].
  cbn [app].
  set (s1 := mkStore (images s ++ nf) (arrays s ++ K1)).
  assert (Hl1 : (l < length (images s1))%nat).
  { unfold s1. cbn. rewrite length_app. lia. }
  assert (Himg : nth l (images s1) no_image = img).
  { unfold s1. cbn. apply app_nth1. exact Hl. }
  assert (Hfaces1 : deref s1 (seq (length (images s)) (length nf)) = nf).
  { apply deref_seq. }
  split; [rewrite Hfaces1; reflexivity|]. split; [exact Himg|].
  destruct (cubemap_loop_frame Perspective.face_names s1 l face_size [] Hl1)
    as [K2 ->].
  rewrite Himg, Hpure. cbn [app].
  split; [|split].
  - rewrite deref_seq.
    unfold s1 at 1. cbn [images arrays].
    rewrite (deref_grow (images s ++ nf) nf (arrays s ++ K1)).
    + symmetry. exact Hfaces1.
    + apply List.Forall_forall. intros k Hk. apply in_seq in Hk.
      rewrite length_app. lia.
  - apply (deref_grow (images s1) nf (arrays s1)).
    apply List.Forall_forall. intros k Hk. apply in_seq in Hk.
    unfold s1. cbn. rewrite length_app. lia.
  - cbn [images]. rewrite app_nth1 by exact Hl1. exact Himg.
Qed.

Lemma pipeline_deterministic_witness :
  let s := mkStore [strip9] [] in
  let img := nth 0 (images s) no_image in
  (forall yaw pitch roll,
     exists K,
       InPlace.perspective_projection 0 1 yaw pitch roll s
       = match Perspective.perspective_projection img 1 yaw pitch roll with
         | Ok face_img =>
             Ok (length (images s),
                 mkStore (images s ++ [face_img]) (arrays s ++ K))
         | Raise e => Raise e
         end) /\
  match InPlace.equirectangular_to_cubemap 0 1 s with
  | Raise e => Perspective.equirectangular_to_cubemap img 1 = Raise e
  | Ok (faces1, s1) =>
      Perspective.equirectangular_to_cubemap img 1 = Ok (deref s1 faces1) /\
      nth 0 (images s1) no_image = img /\
      match InPlace.equirectangular_to_cubemap 0 1 s1 with
      | Raise e => False
      | Ok (faces2, s2) =>
          deref s2 faces2 = deref s2 faces1 /\
          deref s2 faces1 = deref s1 faces1 /\
          nth 0 (images s2) no_image = img
      end
  end.
Proof.
  apply (pipeline_deterministic (mkStore [strip9] []) 0 1). cbn. lia.
Defined.

End StoreFacts.

(** ** Further properties of the rotations *)

Module RotationMore.

Import Np Cv2 Perspective Spec Geometry RotationFacts.
Local Open Scope R_scope.

Ltac destruct_mat m :=
  let a := fresh "a" in let b := fresh "b" in let c := fresh "c" in
  let d := fresh "d" in let e := fresh "e" in let f := fresh "f" in
  let g := fresh "g" in let h := fresh "h" in let i := fresh "i" in
  destruct m as [[[[a b] c] [[d e] f]] [[g h] i]].

Ltac mat_ext := repeat apply (f_equal2 pair).

Lemma matmul_assoc (a b c : mat3) :
  matmul (matmul a b) c = matmul a (matmul b c).
Proof.
  destruct_mat a. destruct_mat b. destruct_mat c.
  cbn. mat_ext; ring.
Qed.

Lemma matmul_identity_l (a : mat3) : matmul identity3 a = a.
Proof. destruct_mat a. cbn. mat_ext; ring. Qed.

Lemma transpose3_matmul (a b : mat3) :
  transpose3 (matmul a b) = matmul (transpose3 b) (transpose3 a).
Proof.
  destruct_mat a. destruct_mat b. cbn. mat_ext; ring.
Qed.

Lemma det3_matmul (a b : mat3) : det3 (matmul a b) = det3 a * det3 b.
Proof.
  destruct_mat a. destruct_mat b. cbn. ring.
Qed.

Lemma is_rotation_matmul (a b : mat3) :
  is_rotation a -> is_rotation b -> is_rotation (matmul a b).
Proof.
  intros [Ha Hda] [Hb Hdb]. split.
  - rewrite transpose3_matmul, matmul_assoc.
    rewrite <- (matmul_assoc (transpose3 a)), Ha, matmul_identity_l.
    exact Hb.
  - rewrite det3_matmul, Hda, Hdb. ring.
Qed.

Lemma dot_transpose (m : mat3) (u v : vec3) :
  dot (apply m u) (apply m v) = dot u (apply (matmul (transpose3 m) m) v).
Proof.
  destruct_mat m. destruct u as [[u0 u1] u2]. destruct v as [[v0 v1] v2].
  cbn. ring.
Qed.

Lemma is_rotation_dot (m : mat3) (u v : vec3) :
  is_rotation m -> dot (apply m u) (apply m v) = dot u v.
Proof.
  intros [Hm _]. rewrite dot_transpose, Hm, apply_identity3. reflexivity.
Qed.

Lemma sin2_cos2_ring (t : R) : sin t * sin t + cos t * cos t = 1.
Proof. pose proof (sin2_cos2 t) as H. unfold Rsqr in H. exact H. Qed.

Lemma is_rotation_x (t : R) :
  is_rotation ((1, 0, 0), (0, cos t, - sin t), (0, sin t, cos t)).
Proof.
  pose proof (sin2_cos2_ring t).
  split; cbn; [unfold identity3; mat_ext|]; nra.
Qed.

Lemma is_rotation_y (t : R) :
  is_rotation ((cos t, 0, sin t), (0, 1, 0), (- sin t, 0, cos t)).
Proof.
  pose proof (sin2_cos2_ring t).
  split; cbn; [unfold identity3; mat_ext|]; nra.
Qed.

Lemma is_rotation_z (t : R) :
  is_rotation ((cos t, - sin t, 0), (sin t, cos t, 0), (0, 0, 1)).
Proof.
  pose proof (sin2_cos2_ring t).
  split; cbn; [unfold identity3; mat_ext|]; nra.
Qed.

Lemma rotation_matrix_cases (angle : R) (axis : string) :
  (axis = "x" \/ axis = "y" \/ axis = "z")%string \/
  ((axis <> "x" /\ axis <> "y" /\ axis <> "z")%string /\
   rotation_matrix angle axis = Raise (ValueError "Invalid rotation axis")).
Proof.
  unfold rotation_matrix.
  destruct (String.eqb_spec axis "x"); [auto|].
  destruct (String.eqb_spec axis "y"); [auto|].
  destruct (String.eqb_spec axis "z"); [auto|].
  right. auto.
Qed.

(** X1: [rotation_matrix] raises ValueError exactly when the axis is none of
    x, y, z; otherwise its result is a proper rotation matrix: its transpose
    is its inverse, its determinant is 1, and it preserves dot products. *)
Theorem rotation_matrix_proper (angle : R) (axis : string) :
  match rotation_matrix angle axis with
  | Ok m =>
      (axis = "x" \/ axis = "y" \/ axis = "z")%string /\
      matmul (transpose3 m) m = identity3 /\
      det3 m = 1 /\
      (forall u v, dot (apply m u) (apply m v) = dot u v)
  | Raise e =>
      (axis <> "x" /\ axis <> "y" /\ axis <> "z")%string /\
      e = ValueError "Invalid rotation axis"
  end.
Proof.
  destruct (rotation_matrix_cases angle axis)
    as [[-> | [-> | ->]] | [Hne ->]].
  - rewrite rotation_matrix_x.
    pose proof (is_rotation_x angle) as Hr.
    split; [auto|]. split; [apply Hr|]. split; [apply Hr|].
    intros u v. apply is_rotation_dot. exact Hr.
  - rewrite rotation_matrix_y.
    pose proof (is_rotation_y angle) as Hr.
    split; [auto|]. split; [apply Hr|]. split; [apply Hr|].
    intros u v. apply is_rotation_dot. exact Hr.
  - rewrite rotation_matrix_z.
    pose proof (is_rotation_z angle) as Hr.
    split; [auto|]. split; [apply Hr|]. split; [apply Hr|].
    intros u v. apply is_rotation_dot. exact Hr.
  - split; [exact Hne|reflexivity].
Qed.

(** X2: rotations about one axis add their angles, and the rotation by the
    opposite angle is the transpose and the inverse. *)
Theorem rotation_matrix_add (a b : R) (axis : string) :
  (axis = "x" \/ axis = "y" \/ axis = "z")%string ->
  exists ma mb mab mneg,
    rotation_matrix a axis = Ok ma /\
    rotation_matrix b axis = Ok mb /\
    rotation_matrix (a + b) axis = Ok mab /\
    rotation_matrix (- a) axis = Ok mneg /\
    matmul ma mb = mab /\
    mneg = transpose3 ma /\
    matmul mneg ma = identity3 /\
    matmul ma mneg = identity3.
Proof.
  pose proof (sin2_cos2_ring a) as Hsc.
  intros [-> | [-> | ->]]; do 4 eexists;
    (split; [reflexivity|]); (split; [reflexivity|]);
    (split; [reflexivity|]); (split; [reflexivity|]);
    rewrite cos_plus, sin_plus, cos_neg, sin_neg; cbn;
    (split; [mat_ext; ring|]); (split; [mat_ext; ring|]);
    unfold identity3; split; mat_ext; nra.
Qed.

Lemma rotation_matrix_add_witness :
  exists ma mb mab mneg,
    rotation_matrix 1 "y" = Ok ma /\
    rotation_matrix 2 "y" = Ok mb /\
    rotation_matrix (1 + 2) "y" = Ok mab /\
    rotation_matrix (- 1) "y" = Ok mneg /\
    matmul ma mb = mab /\
    mneg = transpose3 ma /\
    matmul mneg ma = identity3 /\
    matmul ma mneg = identity3.
Proof.
  apply (rotation_matrix_add 1 2 "y"). right. left. reflexivity.
Defined.

Lemma rotation_is_rotation (yaw pitch roll : R) :
  is_rotation (rotation yaw pitch roll).
Proof.
  unfold rotation.
  apply is_rotation_matmul; [apply is_rotation_matmul|].
  - apply is_rotation_z.
  - apply is_rotation_x.
  - apply is_rotation_y.
Qed.

(** X3: [compose_rotation] never raises, and the matrix it builds is a proper
    rotation for all angles: orthonormal, of determinant 1, preserving dot
    products and hence lengths and angles between rays. *)
Theorem compose_rotation_proper (yaw pitch roll : R) :
  exists rot,
    compose_rotation yaw pitch roll = Ok rot /\
    matmul (transpose3 rot) rot = identity3 /\
    det3 rot = 1 /\
    (forall u v, dot (apply rot u) (apply rot v) = dot u v) /\
    (forall v, sq_norm (apply rot v) = sq_norm v).
Proof.
  exists (rotation yaw pitch roll).
  pose proof (rotation_is_rotation yaw pitch roll) as Hr.
  split; [reflexivity|]. split; [apply Hr|]. split; [apply Hr|].
  split; intros; apply is_rotation_dot; exact Hr.
Qed.

Lemma face_rays_unit (n : nat) :
  Forall (fun v => sq_norm v = 1) (face_rays n).
Proof.
  unfold face_rays. apply ArrayFacts.concat_grid2_Forall.
  intros a b. apply GridFacts.unit_ray_sq_norm.
Qed.

Lemma unit_component_bound (v : vec3) :
  sq_norm v = 1 -> -1 <= snd (fst v) <= 1.
Proof.
  destruct v as [[x y] z]. unfold sq_norm, dot. cbn [fst snd].
  intros H. split; nra.
Qed.

(** X4: the rays handed to the spherical mapper are unit vectors, whatever the
    face size and the angles: the field-of-view factor tan(45 degrees) is 1
    and the rotation preserves lengths.  Their second component, the
    argument of [np.arcsin], therefore always lies in [-1, 1]. *)
Theorem rotated_rays_unit (face_size : Z) (yaw pitch roll : R) :
  (0 <= face_size)%Z ->
  exists vec rot,
    ray_grid face_size = Ok vec /\
    compose_rotation yaw pitch roll = Ok rot /\
    length (rotate_rays rot vec)
    = (Z.to_nat face_size * Z.to_nat face_size)%nat /\
    Forall (fun v => sq_norm v = 1 /\ -1 <= snd (fst v) <= 1)
      (rotate_rays rot vec).
Proof.
  intros Hfs.
  exists (face_rays (Z.to_nat face_size)), (rotation yaw pitch roll).
  split; [apply PipelineFacts.ray_grid_face_rays; exact Hfs|].
  split; [reflexivity|].
  rewrite rotate_rays_map. split.
  { rewrite length_map. apply PipelineFacts.face_rays_length. }
  apply List.Forall_forall. intros v Hv.
  apply in_map_iff in Hv. destruct Hv as (u & <- & Hu).
  pose proof (face_rays_unit (Z.to_nat face_size)) as Hunit.
  rewrite List.Forall_forall in Hunit.
  assert (Hn : sq_norm (apply (rotation yaw pitch roll) u) = 1).
  { unfold sq_norm. rewrite is_rotation_dot by apply rotation_is_rotation.
    apply Hunit. exact Hu. }
  split; [exact Hn|]. apply unit_component_bound. exact Hn.
Qed.

Lemma rotated_rays_unit_witness :
  exists vec rot,
    ray_grid 3 = Ok vec /\
    compose_rotation 90 0 0 = Ok rot /\
    length (rotate_rays rot vec) = (Z.to_nat 3 * Z.to_nat 3)%nat /\
    Forall (fun v => sq_norm v = 1 /\ -1 <= snd (fst v) <= 1)
      (rotate_rays rot vec).
Proof. apply (rotated_rays_unit 3 90 0 0). lia. Defined.

End RotationMore.

(** ** Further properties of the resampler *)

Module ResamplerMore.

Import Np Cv2 Perspective Spec ResamplerFacts.
Local Open Scope R_scope.

Lemma borderInterpolate_range (p len : Z) (b : border) :
  (0 < len)%Z -> (0 <= borderInterpolate p len b < len)%Z.
Proof.
  intros Hlen. unfold borderInterpolate.
  destruct (Z.leb_spec 0 p); destruct (Z.ltb_spec p len); cbn [andb];
    try lia; destruct b; try (apply Z.mod_pos_bound; lia);
    destruct (Z.ltb_spec p 0); lia.
Qed.

Lemma fetch_in_data (src : image) (b : border) (y x : Z) (k : nat) :
  wf_image src -> (1 <= height src)%nat -> (1 <= width src)%nat ->
  (k < channels src)%nat ->
  In (fetch src b y x k) (data src).
Proof.
  intros Hwf Hh Hw Hk. unfold fetch. apply nth_In. rewrite Hwf.
  pose proof (borderInterpolate_range y (Z.of_nat (height src)) b) as Hy.
  pose proof (borderInterpolate_range x (Z.of_nat (width src)) b) as Hx.
  set (yy := Z.to_nat (borderInterpolate y (Z.of_nat (height src)) b)).
  set (xx := Z.to_nat (borderInterpolate x (Z.of_nat (width src)) b)).
  assert (Hyy : (yy < height src)%nat) by (unfold yy; lia).
  assert (Hxx : (xx < width src)%nat) by (unfold xx; lia).
  clearbody yy xx. clear Hy Hx.
  assert (Hcell : (yy * width src + xx + 1 <= height src * width src)%nat).
  { assert ((yy + 1) * width src <= height src * width src)%nat
      by (apply Nat.mul_le_mono_r; lia).
    lia. }
  assert (((yy * width src + xx + 1) * channels src
           <= height src * width src * channels src)%nat)
    by (apply Nat.mul_le_mono_r; exact Hcell).
  lia.
Qed.

Lemma convex2 (t p q lo hi : R) :
  0 <= t <= 1 -> lo <= p <= hi -> lo <= q <= hi ->
  lo <= (1 - t) * p + t * q <= hi.
Proof. intros Ht Hp Hq. split; nra. Qed.

Lemma frac_unit (s : R) : 0 <= s - IZR (Zfloor s) <= 1.
Proof. pose proof (Zfloor_bound s). lra. Qed.

(** An interpolated sample is a convex combination of four stored
    samples. *)
Lemma sample_range (src : image) (b : border) (sx sy lo hi : R) :
  wf_image src -> (1 <= height src)%nat -> (1 <= width src)%nat ->
  Forall (fun c => lo <= c <= hi) (data src) ->
  Forall (fun c => lo <= c <= hi) (sample src b sx sy).
Proof.
  intros Hwf Hh Hw Hdata. rewrite List.Forall_forall in Hdata.
  apply List.Forall_forall. intros c Hc. unfold sample in Hc.
  apply in_map_iff in Hc. destruct Hc as (k & <- & Hk).
  apply in_seq in Hk.
  assert (Hf : forall y x, lo <= fetch src b y x k <= hi).
  { intros y x. apply Hdata. apply fetch_in_data; (assumption || lia). }
  set (a := sx - IZR (Zfloor sx)). set (c := sy - IZR (Zfloor sy)).
  replace ((1 - a) * (1 - c) * fetch src b (Zfloor sy) (Zfloor sx) k
           + a * (1 - c) * fetch src b (Zfloor sy) (Zfloor sx + 1) k
           + (1 - a) * c * fetch src b (Zfloor sy + 1) (Zfloor sx) k
           + a * c * fetch src b (Zfloor sy + 1) (Zfloor sx + 1) k)
    with ((1 - c) * ((1 - a) * fetch src b (Zfloor sy) (Zfloor sx) k
                     + a * fetch src b (Zfloor sy) (Zfloor sx + 1) k)
          + c * ((1 - a) * fetch src b (Zfloor sy + 1) (Zfloor sx) k
                 + a * fetch src b (Zfloor sy + 1) (Zfloor sx + 1) k))
    by ring.
  apply convex2; [apply frac_unit| |]; apply convex2;
    try apply frac_unit; apply Hf.
Qed.

Lemma Forall_concat_map {A B : Type} (P : B -> Prop) (f : A -> list B)
    (l : list A) :
  (forall a, Forall P (f a)) -> Forall P (concat (map f l)).
Proof.
  intros Hf. induction l as [|a l IH]; cbn.
  - constructor.
  - apply Forall_app. split; [apply Hf|exact IH].
Qed.

(** X5: range preservation: on a well-formed, non-empty panorama every sample
    of a computed face lies between the smallest and the largest sample of
    the panorama (no overshoot, and no stray value from outside the
    buffer); the face itself is well formed. *)
Theorem projection_keeps_range (img : image) (face_size : Z)
    (yaw pitch roll lo hi : R) :
  (1 <= face_size)%Z -> (1 <= height img)%nat -> (1 <= width img)%nat ->
  wf_image img ->
  Forall (fun c => lo <= c <= hi) (data img) ->
  exists face_img,
    perspective_projection img face_size yaw pitch roll = Ok face_img /\
    wf_image face_img /\
    Forall (fun c => lo <= c <= hi) (data face_img).
Proof.
  intros Hfs Hh Hw Hwf Hdata.
  eexists. split; [apply PipelineFacts.perspective_projection_eq; assumption|].
  split; [apply OrchestratorFacts.projected_shape|].
  unfold projected. cbn [data].
  apply Forall_concat_map. intros v. unfold projected_pixel.
  destruct (source_xy (height img) (width img)
              (apply (rotation yaw pitch roll) v)) as [sx sy].
  apply sample_range; assumption.
Qed.

Lemma projection_keeps_range_witness :
  exists face_img,
    perspective_projection strip9 2 90 0 0 = Ok face_img /\
    wf_image face_img /\
    Forall (fun c => 0 <= c <= 8) (data face_img).
Proof.
  apply (projection_keeps_range strip9 2 90 0 0 0 8).
  - lia.
  - cbn. lia.
  - cbn. lia.
  - reflexivity.
  - cbn. repeat (constructor; [lra|]). constructor.
Defined.

Lemma fetch_inside (src : image) (b b' : border) (y x : Z) (k : nat) :
  (0 <= y < Z.of_nat (height src))%Z ->
  (0 <= x < Z.of_nat (width src))%Z ->
  fetch src b y x k = fetch src b' y x k.
Proof.
  intros Hy Hx. unfold fetch.
  rewrite !(borderInterpolate_inside y), !(borderInterpolate_inside x)
    by assumption.
  reflexivity.
Qed.

Lemma floor_inside (s : R) (len : nat) :
  0 <= s <= INR len - 1 ->
  (0 <= Zfloor s <= Z.of_nat len - 1)%Z /\
  (Zfloor s = (Z.of_nat len - 1)%Z -> s - IZR (Zfloor s) = 0).
Proof.
  intros Hs. rewrite INR_IZR_INZ in Hs.
  pose proof (Zfloor_bound s) as Hfl.
  split; [split|].
  - apply Zfloor_lub. cbn. lra.
  - apply le_IZR. rewrite minus_IZR. lra.
  - intros Hlast. rewrite Hlast, minus_IZR in *. lra.
Qed.

Lemma sample_inside (src : image) (b b' : border) (sx sy : R) :
  0 <= sx <= INR (width src) - 1 ->
  0 <= sy <= INR (height src) - 1 ->
  sample src b sx sy = sample src b' sx sy.
Proof.
  intros Hsx Hsy. unfold sample.
  destruct (floor_inside sx (width src) Hsx) as [Hx Hxlast].
  destruct (floor_inside sy (height src) Hsy) as [Hy Hylast].
  apply map_ext. intros k.
  rewrite (fetch_inside src b b' (Zfloor sy) (Zfloor sx)) by lia.
  destruct (Z.eq_dec (Zfloor sx) (Z.of_nat (width src) - 1)%Z) as [Hlx|Hnx];
    destruct (Z.eq_dec (Zfloor sy) (Z.of_nat (height src) - 1)%Z)
      as [Hly|Hny].
  - rewrite (Hxlast Hlx), (Hylast Hly). ring.
  - rewrite (Hxlast Hlx).
    rewrite (fetch_inside src b b' (Zfloor sy + 1) (Zfloor sx)) by lia.
    ring.
  - rewrite (Hylast Hly).
    rewrite (fetch_inside src b b' (Zfloor sy) (Zfloor sx + 1)) by lia.
    ring.
  - rewrite (fetch_inside src b b' (Zfloor sy + 1) (Zfloor sx)) by lia.
    rewrite (fetch_inside src b b' (Zfloor sy) (Zfloor sx + 1)) by lia.
    rewrite (fetch_inside src b b' (Zfloor sy + 1) (Zfloor sx + 1)) by lia.
    reflexivity.
Qed.

Lemma source_x_range (shape0 shape1 : nat) (v : vec3) :
  (1 <= shape1)%nat ->
  0 <= fst (source_xy shape0 shape1 v) <= INR shape1 - 1.
Proof.
  intros Hw. destruct v as [[v0 v1] v2]. cbn [source_xy fst].
  apply MapperFacts.unit_interval_scale; [apply MapperFacts.longitude_unit|].
  apply le_INR in Hw. cbn in Hw. lra.
Qed.

(** X6: the coordinates the mapper produces never leave the panorama, so the
    border mode is never exercised with a non-zero weight: for every ray
    the sampled pixel is the same under any border mode.  In particular the
    first and the last column are never blended with each other. *)
Theorem border_mode_irrelevant (src : image) (v : vec3) (b : border) :
  (1 <= height src)%nat -> (1 <= width src)%nat ->
  let sx := fst (source_xy (height src) (width src) v) in
  let sy := snd (source_xy (height src) (width src) v) in
  0 <= sx <= INR (width src) - 1 /\
  0 <= sy <= INR (height src) - 1 /\
  sample src BORDER_WRAP sx sy = sample src b sx sy.
Proof.
  intros Hh Hw sx sy.
  assert (Hsx : 0 <= sx <= INR (width src) - 1)
    by (apply source_x_range; exact Hw).
  assert (Hsy : 0 <= sy <= INR (height src) - 1)
    by (apply source_y_range; exact Hh).
  split; [exact Hsx|]. split; [exact Hsy|].
  apply sample_inside; assumption.
Qed.

Lemma border_mode_irrelevant_witness :
  let sx := fst (source_xy (height strip9) (width strip9) corner_ray) in
  let sy := snd (source_xy (height strip9) (width strip9) corner_ray) in
  0 <= sx <= INR (width strip9) - 1 /\
  0 <= sy <= INR (height strip9) - 1 /\
  sample strip9 BORDER_WRAP sx sy = sample strip9 BORDER_REPLICATE sx sy.
Proof.
  apply (border_mode_irrelevant strip9 corner_ray BORDER_REPLICATE);
    cbn; lia.
Defined.

End ResamplerMore.

(** ** Which part of the panorama a face reads *)

Module FootprintFacts.

Import Np Cv2 Perspective Spec RotationFacts ArrayFacts GridFacts.
Local Open Scope R_scope.

Lemma face_rays_nth (n i j : nat) (d : vec3) :
  (i < n)%nat -> (j < n)%nat ->
  nth (i * n + j) (face_rays n) d
  = (unit_x (grid_x n j) (- grid_x n i),
     unit_y (grid_x n j) (- grid_x n i),
     unit_z (grid_x n j) (- grid_x n i)).
Proof.
  intros Hi Hj. unfold face_rays.
  set (xs := map (grid_x n) (seq 0 n)).
  assert (Hlx : length xs = n).
  { unfold xs. rewrite length_map, length_seq. reflexivity. }
  rewrite <- Hlx at 1.
  rewrite concat_grid2_nth by (rewrite ?length_map; lia).
  unfold xs. rewrite map_map, !nth_map_seq by assumption.
  reflexivity.
Qed.

Lemma reshape_nth (rows cols : nat) (a : list R) (i j : nat) :
  (i < rows)%nat -> (j < cols)%nat ->
  nth j (nth i (reshape rows cols a) []) 0 = nth (i * cols + j) a 0.
Proof.
  revert a i. induction rows as [|r IH]; intros a i Hi Hj; [lia|].
  cbn [reshape]. destruct i as [|i].
  - cbn [nth Nat.mul Nat.add]. rewrite nth_firstn.
    destruct (Nat.ltb_spec j cols); [reflexivity|lia].
  - cbn [nth]. rewrite IH by lia. rewrite nth_skipn.
    f_equal. cbn. lia.
Qed.

Lemma reshape_Forall (P : R -> Prop) (rows cols : nat) (a : list R) :
  Forall P a -> Forall (Forall P) (reshape rows cols a).
Proof.
  revert a. induction rows as [|r IH]; intros a Ha; cbn [reshape].
  - constructor.
  - constructor; [apply Forall_take; exact Ha|].
    apply IH. apply Forall_drop. exact Ha.
Qed.

(** A rotation by yaw alone turns a ray about the vertical axis. *)
Lemma apply_yaw (yaw x y z : R) :
  apply (rotation yaw 0 0) (x, y, z)
  = (cos (deg2rad yaw) * x + sin (deg2rad yaw) * z,
     y,
     - sin (deg2rad yaw) * x + cos (deg2rad yaw) * z).
Proof.
  unfold rotation. rewrite deg2rad_0, cos_0, sin_0.
  cbn. apply vec3_ext; ring.
Qed.

Lemma projection_maps_yaw (shape0 shape1 : nat) (face_size : Z) (yaw : R) :
  (0 <= face_size)%Z ->
  let n := Z.to_nat face_size in
  let src := map (fun v => source_xy shape0 shape1
                             (apply (rotation yaw 0 0) v))
               (face_rays n) in
  projection_maps shape0 shape1 face_size yaw 0 0
  = Ok (reshape n n (map fst src), reshape n n (map snd src)).
Proof.
  intros Hfs n src.
  rewrite PipelineFacts.projection_maps_eq by exact Hfs.
  unfold src. rewrite !map_map. reflexivity.
Qed.

Lemma unit_y_half (a b : R) :
  -1 <= b <= 1 -> unit_y a b * unit_y a b <= 1 / 2.
Proof.
  intros Hb. unfold unit_y.
  pose proof (norm_positive a b) as Hpos.
  set (s := sqrt (a ^ 2 + b ^ 2 + 1 ^ 2)) in *.
  assert (Hs : s * s = a ^ 2 + b ^ 2 + 1 ^ 2).
  { unfold s. apply sqrt_sqrt. nra. }
  replace (b / s * (b / s)) with (b * b / (s * s)) by (field; lra).
  rewrite Hs.
  apply (Rmult_le_reg_r (a ^ 2 + b ^ 2 + 1 ^ 2)); [nra|].
  unfold Rdiv. rewrite Rmult_assoc, Rinv_l by nra. nra.
Qed.

Lemma sin_PI4_sq : sin (PI / 4) * sin (PI / 4) = 1 / 2.
Proof.
  rewrite sin_PI4.
  assert (H2 : sqrt 2 * sqrt 2 = 2) by (apply sqrt_sqrt; lra).
  pose proof sqrt2_neq_0.
  replace (1 / sqrt 2 * (1 / sqrt 2)) with (1 / (sqrt 2 * sqrt 2))
    by (field; assumption).
  rewrite H2. reflexivity.
Qed.

Lemma sin_PI4_pos : 0 < sin (PI / 4).
Proof.
  rewrite sin_PI4. apply Rdiv_lt_0_compat; [lra|].
  apply sqrt_lt_R0. lra.
Qed.

Lemma asin_quarter (y : R) :
  y * y <= 1 / 2 -> - (PI / 4) <= asin y <= PI / 4.
Proof.
  intros Hy.
  assert (Hrange : -1 <= y <= 1) by (split; nra).
  pose proof (asin_bound y) as Hb.
  pose proof (sin_asin y Hrange) as Hsin.
  pose proof PI_RGT_0 as Hpi.
  pose proof sin_PI4_sq as Hsq. pose proof sin_PI4_pos as Hp.
  split.
  - destruct (Rle_dec (- (PI / 4)) (asin y)) as [|Hlt]; [assumption|].
    exfalso.
    assert (H : sin (asin y) < sin (- (PI / 4))).
    { apply sin_increasing_1; lra. }
    rewrite sin_neg, Hsin in H. nra.
  - destruct (Rle_dec (asin y) (PI / 4)) as [|Hgt]; [assumption|].
    exfalso.
    assert (H : sin (PI / 4) < sin (asin y)).
    { apply sin_increasing_1; lra. }
    rewrite Hsin in H. nra.
Qed.

Lemma face_rays_cells (n : nat) (v : vec3) :
  In v (face_rays n) ->
  exists a b,
    -1 <= a <= 1 /\ -1 <= b <= 1 /\
    v = (unit_x a b, unit_y a b, unit_z a b).
Proof.
  unfold face_rays, grid2. intros Hv.
  apply in_concat in Hv. destruct Hv as (row & Hrow & Hv).
  apply in_map_iff in Hrow. destruct Hrow as (b & <- & Hb).
  apply in_map_iff in Hv. destruct Hv as (a & <- & Ha).
  apply in_map_iff in Hb. destruct Hb as (b' & <- & Hb').
  apply in_map_iff in Ha. destruct Ha as (j & <- & Hj).
  apply in_map_iff in Hb'. destruct Hb' as (i & <- & Hi).
  apply in_seq in Hj. apply in_seq in Hi.
  exists (grid_x n j), (- grid_x n i).
  split; [apply grid_x_range; lia|].
  split; [|reflexivity].
  assert (-1 <= grid_x n i <= 1) by (apply grid_x_range; lia). lra.
Qed.

(** X7: for the four faces, and for any direction given by a yaw alone, the
    source rows stay in the middle half of the panorama: no face ever reads
    a row above a quarter or below three quarters of the height. *)
Theorem latitude_band (shape0 shape1 : nat) (face_size : Z) (yaw : R) :
  (0 <= face_size)%Z -> (1 <= shape0)%nat ->
  exists map_x map_y,
    projection_maps shape0 shape1 face_size yaw 0 0 = Ok (map_x, map_y) /\
    Forall (Forall (fun sy => (INR shape0 - 1) / 4 <= sy
                              <= 3 * (INR shape0 - 1) / 4))
      map_y.
Proof.
  intros Hfs Hh. do 2 eexists.
  split; [apply projection_maps_yaw; exact Hfs|].
  apply reshape_Forall. rewrite map_map.
  apply List.Forall_forall. intros sy Hsy.
  apply in_map_iff in Hsy. destruct Hsy as (v & <- & Hv).
  apply face_rays_cells in Hv. destruct Hv as (a & b & Ha & Hb & ->).
  rewrite apply_yaw. cbn [source_xy snd]. unfold arcsin.
  pose proof (asin_quarter (unit_y a b) (unit_y_half a b Hb)) as Hq.
  pose proof PI_RGT_0 as Hpi.
  assert (Hw : 0 <= INR shape0 - 1).
  { apply le_INR in Hh. cbn in Hh. lra. }
  assert (Hv : 1 / 4 <= (PI / 2 - asin (unit_y a b)) / PI <= 3 / 4).
  { split.
    - apply (Rmult_le_reg_r PI); [lra|].
      unfold Rdiv at 2. rewrite Rmult_assoc, Rinv_l by lra. lra.
    - apply (Rmult_le_reg_r PI); [lra|].
      unfold Rdiv at 1. rewrite Rmult_assoc, Rinv_l by lra. lra. }
  split; nra.
Qed.

Lemma latitude_band_witness :
  exists map_x map_y,
    projection_maps 5 9 2 90 0 0 = Ok (map_x, map_y) /\
    Forall (Forall (fun sy => (INR 5 - 1) / 4 <= sy <= 3 * (INR 5 - 1) / 4))
      map_y.
Proof. apply (latitude_band 5 9 2 90); lia. Defined.

Lemma arctan2_scale (k x1 x2 : R) :
  0 < k -> arctan2 (k * x1) (k * x2) = arctan2 x1 x2.
Proof.
  intros Hk. unfold arctan2.
  destruct (Rlt_dec 0 x2) as [Hp|Hnp].
  - destruct (Rlt_dec 0 (k * x2)) as [_|Hc]; [|exfalso; apply Hc; nra].
    f_equal. field. lra.
  - destruct (Rlt_dec 0 (k * x2)) as [Hc|_]; [exfalso; nra|].
    destruct (Rlt_dec x2 0) as [Hn|Hnn].
    + destruct (Rlt_dec (k * x2) 0) as [_|Hc]; [|exfalso; apply Hc; nra].
      replace (k * x1 / (k * x2)) with (x1 / x2) by (field; lra).
      destruct (Rle_dec 0 x1); destruct (Rle_dec 0 (k * x1));
        try reflexivity; exfalso; nra.
    + destruct (Rlt_dec (k * x2) 0) as [Hc|_]; [exfalso; nra|].
      destruct (Rlt_dec 0 x1); destruct (Rlt_dec 0 (k * x1));
        try reflexivity; try (exfalso; nra).
      destruct (Rlt_dec x1 0); destruct (Rlt_dec (k * x1) 0);
        try reflexivity; exfalso; nra.
Qed.

(** The longitude of a ray turned by a yaw depends on its grid abscissa
    only. *)
Lemma yaw_longitude (shape0 shape1 : nat) (yaw a b : R) :
  fst (source_xy shape0 shape1
         (apply (rotation yaw 0 0) (unit_x a b, unit_y a b, unit_z a b)))
  = (arctan2 (cos (deg2rad yaw) * a + sin (deg2rad yaw))
       (- sin (deg2rad yaw) * a + cos (deg2rad yaw)) + PI)
    / (2 * PI) * (INR shape1 - 1).
Proof.
  rewrite apply_yaw. cbn [source_xy fst].
  pose proof (norm_positive a b) as Hpos.
  unfold unit_x, unit_z.
  set (s := sqrt (a ^ 2 + b ^ 2 + 1 ^ 2)) in *.
  set (c := cos (deg2rad yaw)). set (t := sin (deg2rad yaw)).
  replace (c * (a / s) + t * (1 / s)) with (/ s * (c * a + t))
    by (field; lra).
  replace (- t * (a / s) + c * (1 / s)) with (/ s * (- t * a + c))
    by (field; lra).
  rewrite arctan2_scale by (apply Rinv_0_lt_compat; exact Hpos).
  reflexivity.
Qed.

Lemma map_x_cell (shape0 shape1 : nat) (n : nat) (yaw : R) (i j : nat) :
  (i < n)%nat -> (j < n)%nat ->
  nth j (nth i (reshape n n
                  (map fst
                     (map (fun v => source_xy shape0 shape1
                                      (apply (rotation yaw 0 0) v))
                        (face_rays n)))) []) 0
  = fst (source_xy shape0 shape1
           (apply (rotation yaw 0 0)
              (unit_x (grid_x n j) (- grid_x n i),
               unit_y (grid_x n j) (- grid_x n i),
               unit_z (grid_x n j) (- grid_x n i)))).
Proof.
  intros Hi Hj. rewrite reshape_nth by assumption. rewrite map_map.
  set (f := fun v => fst (source_xy shape0 shape1
                            (apply (rotation yaw 0 0) v))).
  assert (Hlen : (i * n + j < length (face_rays n))%nat).
  { rewrite PipelineFacts.face_rays_length. nia. }
  rewrite (nth_indep _ 0 (f (0, 0, 0))) by (rewrite length_map; exact Hlen).
  rewrite (map_nth f), face_rays_nth by assumption. reflexivity.
Qed.

(** X8: for any direction given by a yaw alone, every column of a face reads one
    panorama column position: the source x-coordinate of a pixel does not
    depend on its row, so vertical lines of the face are meridians of the
    panorama. *)
Theorem columns_are_meridians (shape0 shape1 : nat) (face_size : Z)
    (yaw : R) :
  (0 <= face_size)%Z ->
  let n := Z.to_nat face_size in
  exists map_x map_y,
    projection_maps shape0 shape1 face_size yaw 0 0 = Ok (map_x, map_y) /\
    forall i i' j, (i < n)%nat -> (i' < n)%nat -> (j < n)%nat ->
      nth j (nth i map_x []) 0 = nth j (nth i' map_x []) 0.
Proof.
  intros Hfs n. do 2 eexists.
  split; [apply projection_maps_yaw; exact Hfs|].
  intros i i' j Hi Hi' Hj. fold n.
  rewrite !map_x_cell by assumption.
  rewrite !yaw_longitude. reflexivity.
Qed.

Lemma columns_are_meridians_witness :
  exists map_x map_y,
    projection_maps 5 9 3 90 0 0 = Ok (map_x, map_y) /\
    forall i i' j,
      (i < Z.to_nat 3)%nat -> (i' < Z.to_nat 3)%nat -> (j < Z.to_nat 3)%nat ->
      nth j (nth i map_x []) 0 = nth j (nth i' map_x []) 0.
Proof. apply (columns_are_meridians 5 9 3 90). lia. Defined.

Lemma atan_quarter (a : R) :
  -1 <= a <= 1 -> - (PI / 4) <= atan a <= PI / 4.
Proof.
  intros [Hlo Hhi]. split.
  - rewrite <- atan_1, <- atan_opp.
    destruct Hlo as [Hlo| <-]; [left; apply atan_increasing; exact Hlo|].
    right. reflexivity.
  - rewrite <- atan_1.
    destruct Hhi as [Hhi| ->]; [left; apply atan_increasing; exact Hhi|].
    right. reflexivity.
Qed.

Lemma atan_above (x : R) : 1 <= x -> PI / 4 <= atan x < PI / 2.
Proof.
  intros Hx. pose proof (atan_bound x) as Hb. split; [|lra].
  rewrite <- atan_1.
  destruct Hx as [Hx| <-]; [left; apply atan_increasing; exact Hx|].
  right. reflexivity.
Qed.

Lemma atan_below (x : R) : x <= -1 -> - (PI / 2) < atan x <= - (PI / 4).
Proof.
  intros Hx. pose proof (atan_above (- x)) as Ha.
  rewrite atan_opp in Ha. lra.
Qed.

Lemma inv_above (a : R) : 0 < a <= 1 -> 1 <= 1 / a.
Proof.
  intros Ha. apply (Rmult_le_reg_r a); [lra|].
  unfold Rdiv. rewrite Rmult_assoc, Rinv_l by lra. lra.
Qed.

Lemma lon_front (a : R) :
  -1 <= a <= 1 -> - (PI / 4) <= arctan2 a 1 <= PI / 4.
Proof.
  intros Ha. unfold arctan2. destruct (Rlt_dec 0 1); [|lra].
  replace (a / 1) with a by field. apply atan_quarter. exact Ha.
Qed.

Lemma lon_right (a : R) :
  -1 <= a <= 1 -> PI / 4 <= arctan2 1 (- a) <= 3 * (PI / 4).
Proof.
  intros Ha. pose proof PI_RGT_0 as Hpi. unfold arctan2.
  destruct (Rlt_dec 0 (- a)) as [Hp|Hnp].
  - pose proof (atan_above (1 / - a) (inv_above (- a) ltac:(lra))). lra.
  - destruct (Rlt_dec (- a) 0) as [Hn|Hnn].
    + destruct (Rle_dec 0 1); [|lra].
      assert (H1 : 1 / - a = - (1 / a)) by (field; lra).
      pose proof (atan_above (1 / a) (inv_above a ltac:(lra))) as Hb.
      rewrite H1, atan_opp. lra.
    + destruct (Rlt_dec 0 1); lra.
Qed.

Lemma lon_left (a : R) :
  -1 <= a <= 1 -> - (3 * (PI / 4)) <= arctan2 (-1) a <= - (PI / 4).
Proof.
  intros Ha. pose proof PI_RGT_0 as Hpi. unfold arctan2.
  destruct (Rlt_dec 0 a) as [Hp|Hnp].
  - assert (H1 : -1 / a = - (1 / a)) by (field; lra).
    pose proof (atan_above (1 / a) (inv_above a ltac:(lra))) as Hb.
    rewrite H1, atan_opp. lra.
  - destruct (Rlt_dec a 0) as [Hn|Hnn].
    + destruct (Rle_dec 0 (-1)); [lra|].
      assert (H1 : -1 / a = 1 / - a) by (field; lra).
      pose proof (atan_above (1 / - a) (inv_above (- a) ltac:(lra))) as Hb.
      rewrite H1. lra.
    + destruct (Rlt_dec 0 (-1)); [lra|].
      destruct (Rlt_dec (-1) 0); lra.
Qed.

Lemma lon_back (a : R) :
  -1 <= a <= 1 ->
  - PI < arctan2 (- a) (-1) <= - (3 * (PI / 4)) \/
  3 * (PI / 4) <= arctan2 (- a) (-1) <= PI.
Proof.
  intros Ha. pose proof PI_RGT_0 as Hpi. unfold arctan2.
  destruct (Rlt_dec 0 (-1)); [lra|].
  destruct (Rlt_dec (-1) 0); [|lra].
  replace (- a / -1) with a by field.
  pose proof (atan_quarter a Ha) as Hq.
  destruct (Rle_dec 0 (- a)) as [Hle|Hgt].
  - right. assert (atan a <= 0).
    { rewrite <- atan_0. destruct (Req_dec a 0) as [->|Hne];
        [right; reflexivity|left; apply atan_increasing; lra]. }
    lra.
  - left. assert (0 < atan a).
    { rewrite <- atan_0. apply atan_increasing. lra. }
    lra.
Qed.

Lemma lon_band (lon w p q : R) :
  0 <= w -> p * (2 * PI) - PI <= lon <= q * (2 * PI) - PI ->
  p * w <= (lon + PI) / (2 * PI) * w <= q * w.
Proof.
  intros Hw Hlon. pose proof PI_RGT_0 as Hpi.
  assert (Hu : p <= (lon + PI) / (2 * PI) <= q).
  { split.
    - apply (Rmult_le_reg_r (2 * PI)); [lra|].
      unfold Rdiv. rewrite Rmult_assoc, Rinv_l by lra. lra.
    - apply (Rmult_le_reg_r (2 * PI)); [lra|].
      unfold Rdiv. rewrite Rmult_assoc, Rinv_l by lra. lra. }
  split; nra.
Qed.

Lemma deg2rad_180 : deg2rad 180 = PI.
Proof. unfold deg2rad. lra. Qed.

Lemma deg2rad_m90 : deg2rad (-90) = - (PI / 2).
Proof. unfold deg2rad. lra. Qed.

Lemma map_x_Forall (P : R -> Prop) (shape0 shape1 : nat) (face_size : Z)
    (yaw : R) :
  (0 <= face_size)%Z ->
  (forall a b, -1 <= a <= 1 ->
     P (fst (source_xy shape0 shape1
               (apply (rotation yaw 0 0)
                  (unit_x a b, unit_y a b, unit_z a b))))) ->
  exists map_x map_y,
    projection_maps shape0 shape1 face_size yaw 0 0 = Ok (map_x, map_y) /\
    Forall (Forall P) map_x.
Proof.
  intros Hfs HP. do 2 eexists.
  split; [apply projection_maps_yaw; exact Hfs|].
  apply reshape_Forall. rewrite map_map.
  apply List.Forall_forall. intros sx Hsx.
  apply in_map_iff in Hsx. destruct Hsx as (v & <- & Hv).
  apply face_rays_cells in Hv. destruct Hv as (a & b & Ha & _ & ->).
  apply HP. exact Ha.
Qed.

(** X9: the columns each of the four faces reads.  With w = width - 1, the
    front face reads source columns in [3w/8, 5w/8], the right face in
    [5w/8, 7w/8], the left face in [w/8, 3w/8], and the back face in
    [0, w/8] or [7w/8, w]: each face covers a quarter of the panorama width
    and the four quarters tile it. *)
Theorem face_columns (shape0 shape1 : nat) (face_size : Z) :
  (0 <= face_size)%Z -> (1 <= shape1)%nat ->
  let w := INR shape1 - 1 in
  (exists map_x map_y,
     projection_maps shape0 shape1 face_size 0 0 0 = Ok (map_x, map_y) /\
     Forall (Forall (fun sx => 3 / 8 * w <= sx <= 5 / 8 * w)) map_x) /\
  (exists map_x map_y,
     projection_maps shape0 shape1 face_size 90 0 0 = Ok (map_x, map_y) /\
     Forall (Forall (fun sx => 5 / 8 * w <= sx <= 7 / 8 * w)) map_x) /\
  (exists map_x map_y,
     projection_maps shape0 shape1 face_size 180 0 0 = Ok (map_x, map_y) /\
     Forall (Forall (fun sx => 0 * w <= sx <= 1 / 8 * w \/
                               7 / 8 * w <= sx <= 1 * w)) map_x) /\
  (exists map_x map_y,
     projection_maps shape0 shape1 face_size (-90) 0 0 = Ok (map_x, map_y) /\
     Forall (Forall (fun sx => 1 / 8 * w <= sx <= 3 / 8 * w)) map_x).
Proof.
  intros Hfs Hw w.
  assert (Hw0 : 0 <= w).
  { unfold w. apply le_INR in Hw. cbn in Hw. lra. }
  pose proof PI_RGT_0 as Hpi.
  split; [|split; [|split]]; apply map_x_Forall; try exact Hfs;
    intros a b Ha; rewrite yaw_longitude; fold w.
  - rewrite deg2rad_0, cos_0, sin_0.
    replace (1 * a + 0) with a by ring. replace (- 0 * a + 1) with 1 by ring.
    apply lon_band; [exact Hw0|]. pose proof (lon_front a Ha). lra.
  - rewrite deg2rad_90, cos_PI2, sin_PI2.
    replace (0 * a + 1) with 1 by ring.
    replace (- (1) * a + 0) with (- a) by ring.
    apply lon_band; [exact Hw0|]. pose proof (lon_right a Ha). lra.
  - rewrite deg2rad_180, cos_PI, sin_PI.
    replace (-1 * a + 0) with (- a) by ring.
    replace (- 0 * a + -1) with (-1) by ring.
    destruct (lon_back a Ha) as [Hb|Hb]; [left|right];
      (apply lon_band; [exact Hw0|]); lra.
  - rewrite deg2rad_m90, cos_neg, sin_neg, cos_PI2, sin_PI2.
    replace (0 * a + - (1)) with (-1) by ring.
    replace (- - (1) * a + 0) with a by ring.
    apply lon_band; [exact Hw0|]. pose proof (lon_left a Ha). lra.
Qed.

Lemma face_columns_witness :
  let w := INR 9 - 1 in
  (exists map_x map_y,
     projection_maps 5 9 2 0 0 0 = Ok (map_x, map_y) /\
     Forall (Forall (fun sx => 3 / 8 * w <= sx <= 5 / 8 * w)) map_x) /\
  (exists map_x map_y,
     projection_maps 5 9 2 90 0 0 = Ok (map_x, map_y) /\
     Forall (Forall (fun sx => 5 / 8 * w <= sx <= 7 / 8 * w)) map_x) /\
  (exists map_x map_y,
     projection_maps 5 9 2 180 0 0 = Ok (map_x, map_y) /\
     Forall (Forall (fun sx => 0 * w <= sx <= 1 / 8 * w \/
                               7 / 8 * w <= sx <= 1 * w)) map_x) /\
  (exists map_x map_y,
     projection_maps 5 9 2 (-90) 0 0 = Ok (map_x, map_y) /\
     Forall (Forall (fun sx => 1 / 8 * w <= sx <= 3 / 8 * w)) map_x).
Proof. apply (face_columns 5 9 2); lia. Defined.

Lemma grid_x_mirror (n j : nat) :
  (2 <= n)%nat -> (j < n)%nat -> grid_x n (n - 1 - j) = - grid_x n j.
Proof.
  intros Hn Hj. unfold grid_x.
  destruct (Nat.eqb_spec n 1) as [|_]; [lia|].
  assert (H1 : 0 < INR n - 1).
  { apply le_INR in Hn. cbn in Hn. lra. }
  rewrite !minus_INR by lia. cbn [INR]. field. lra.
Qed.

Lemma grid_x_centre (m : nat) : (1 <= m)%nat -> grid_x (2 * m + 1) m = 0.
Proof.
  intros Hm. unfold grid_x.
  destruct (Nat.eqb_spec (2 * m + 1) 1) as [|_]; [lia|].
  rewrite plus_INR, mult_INR. cbn [INR].
  assert (0 < INR m) by (apply lt_0_INR; lia).
  field. lra.
Qed.

Lemma unit_flip_x (a b : R) :
  unit_x (- a) b = - unit_x a b /\ unit_y (- a) b = unit_y a b /\
  unit_z (- a) b = unit_z a b.
Proof.
  unfold unit_x, unit_y, unit_z.
  replace ((- a) ^ 2) with (a ^ 2) by ring.
  pose proof (norm_positive a b).
  repeat split; field; lra.
Qed.

Lemma unit_flip_y (a b : R) :
  unit_x a (- b) = unit_x a b /\ unit_y a (- b) = - unit_y a b /\
  unit_z a (- b) = unit_z a b.
Proof.
  unfold unit_x, unit_y, unit_z.
  replace ((- b) ^ 2) with (b ^ 2) by ring.
  pose proof (norm_positive a b).
  repeat split; field; lra.
Qed.

(** X10: the ray grid is symmetric: mirroring a pixel left-right negates the
    first component of its ray, mirroring it top-bottom negates the second,
    and the other components are unchanged. *)
Theorem ray_grid_mirror (face_size : Z) :
  (2 <= face_size)%Z ->
  let n := Z.to_nat face_size in
  exists rays,
    ray_grid face_size = Ok rays /\
    forall i j x y z, (i < n)%nat -> (j < n)%nat ->
      nth (i * n + j) rays (0, 0, 0) = (x, y, z) ->
      nth (i * n + (n - 1 - j)) rays (0, 0, 0) = (- x, y, z) /\
      nth ((n - 1 - i) * n + j) rays (0, 0, 0) = (x, - y, z).
Proof.
  intros Hfs n. exists (face_rays n).
  split; [apply PipelineFacts.ray_grid_face_rays; lia|].
  assert (Hn : (2 <= n)%nat) by (unfold n; lia).
  intros i j x y z Hi Hj Hray.
  rewrite face_rays_nth in Hray by assumption.
  injection Hray as <- <- <-.
  rewrite !face_rays_nth by lia.
  rewrite !grid_x_mirror by assumption.
  destruct (unit_flip_x (grid_x n j) (- grid_x n i)) as (-> & -> & ->).
  rewrite Ropp_involutive.
  destruct (unit_flip_y (grid_x n j) (grid_x n i)) as (Hx & Hy & Hz).
  rewrite Hx, Hy, Hz, Ropp_involutive. split; reflexivity.
Qed.

Lemma ray_grid_mirror_witness :
  exists rays,
    ray_grid 2 = Ok rays /\
    forall i j x y z, (i < Z.to_nat 2)%nat -> (j < Z.to_nat 2)%nat ->
      nth (i * Z.to_nat 2 + j) rays (0, 0, 0) = (x, y, z) ->
      nth (i * Z.to_nat 2 + (Z.to_nat 2 - 1 - j)) rays (0, 0, 0)
      = (- x, y, z) /\
      nth ((Z.to_nat 2 - 1 - i) * Z.to_nat 2 + j) rays (0, 0, 0)
      = (x, - y, z).
Proof. apply (ray_grid_mirror 2). lia. Defined.

(** X11: for an odd face size 2m + 1 >= 3 the middle pixel looks along the
    forward axis (0, 0, 1), which the mapper sends to the centre of the
    panorama, ((W - 1) / 2, (H - 1) / 2). *)
Theorem odd_face_centre (m : nat) (shape0 shape1 : nat) :
  (1 <= m)%nat ->
  let n := (2 * m + 1)%nat in
  exists rays,
    ray_grid (Z.of_nat n) = Ok rays /\
    length rays = (n * n)%nat /\
    nth (m * n + m) rays (0, 0, 0) = (0, 0, 1) /\
    source_xy shape0 shape1 (apply (rotation 0 0 0) (0, 0, 1))
    = ((INR shape1 - 1) / 2, (INR shape0 - 1) / 2).
Proof.
  intros Hm n. exists (face_rays n).
  split.
  { rewrite PipelineFacts.ray_grid_face_rays by lia.
    rewrite Nat2Z.id. reflexivity. }
  split; [apply PipelineFacts.face_rays_length|].
  split.
  - rewrite face_rays_nth by (unfold n; lia).
    unfold n. rewrite grid_x_centre by exact Hm.
    unfold unit_x, unit_y, unit_z.
    replace (0 ^ 2 + (- 0) ^ 2 + 1 ^ 2) with 1 by ring.
    rewrite sqrt_1. apply vec3_ext; field.
  - rewrite PipelineFacts.rotation_zero, apply_identity3.
    apply MapperFacts.source_xy_forward.
Qed.

Lemma odd_face_centre_witness :
  exists rays,
    ray_grid (Z.of_nat (2 * 1 + 1)) = Ok rays /\
    length rays = ((2 * 1 + 1) * (2 * 1 + 1))%nat /\
    nth (1 * (2 * 1 + 1) + 1) rays (0, 0, 0) = (0, 0, 1) /\
    source_xy 5 9 (apply (rotation 0 0 0) (0, 0, 1))
    = ((INR 9 - 1) / 2, (INR 5 - 1) / 2).
Proof. apply (odd_face_centre 1 5 9). lia. Defined.

End FootprintFacts.

(** ** File names *)

Module NameFacts.

Import PyStr OsPath.
Local Open Scope string_scope.

Lemma append_cons (c : ascii) (s t : string) :
  String c s ++ t = String c (s ++ t).
Proof. reflexivity. Qed.

Lemma append_assoc (s t u : string) : (s ++ t) ++ u = s ++ (t ++ u).
Proof.
  induction s as [|c s IH]; [reflexivity|].
  rewrite !append_cons, IH. reflexivity.
Qed.

Lemma length_append (s t : string) :
  String.length (s ++ t) = (String.length s + String.length t)%nat.
Proof.
  induction s as [|c s IH]; [reflexivity|].
  rewrite append_cons. cbn [String.length]. rewrite IH. reflexivity.
Qed.

Lemma substring_all (s : string) : substring 0 (String.length s) s = s.
Proof.
  induction s as [|c s IH]; [reflexivity|].
  cbn [String.length substring]. rewrite IH. reflexivity.
Qed.

Lemma substring_skip (s t : string) (m : nat) :
  substring (String.length s) m (s ++ t) = substring 0 m t.
Proof.
  induction s as [|c s IH]; [reflexivity|].
  rewrite append_cons. cbn [String.length substring]. exact IH.
Qed.

(** Cutting a string at a position inside it loses nothing. *)
Lemma substring_split (s : string) (d : nat) :
  (d <= String.length s)%nat ->
  substring 0 d s ++ substring d (String.length s - d) s = s.
Proof.
  revert d. induction s as [|c s IH]; intros d Hd.
  - destruct d; reflexivity.
  - destruct d as [|d].
    + cbn [substring]. change (EmptyString ++ ?x) with x.
      rewrite Nat.sub_0_r.
      exact (substring_all (String c s)).
    + cbn [substring String.length Nat.sub]. rewrite append_cons.
      rewrite IH by (cbn in Hd; lia). reflexivity.
Qed.

Lemma substring_head (s : string) (d k : nat) (c : ascii) :
  String.get d s = Some c ->
  substring d (S k) s = String c (substring (S d) k s).
Proof.
  revert d. induction s as [|a s IH]; intros d Hget.
  - destruct d; discriminate Hget.
  - destruct d as [|d].
    + cbn in Hget. injection Hget as ->. reflexivity.
    + cbn [String.get] in Hget. cbn [substring]. apply IH. exact Hget.
Qed.

Lemma get_length (s : string) (d : nat) (c : ascii) :
  String.get d s = Some c -> (d < String.length s)%nat.
Proof.
  revert d. induction s as [|a s IH]; intros d Hget.
  - destruct d; discriminate Hget.
  - destruct d as [|d]; cbn [String.length]; [lia|].
    cbn [String.get] in Hget. apply IH in Hget. lia.
Qed.

Lemma rfind_from_spec (s : string) (c : ascii) (i found : Z) :
  rfind_from s c i found = found \/
  (i <= rfind_from s c i found)%Z /\
  String.get (Z.to_nat (rfind_from s c i found - i)) s = Some c.
Proof.
  revert i found. induction s as [|a s IH]; intros i found.
  - left. reflexivity.
  - cbn [rfind_from].
    destruct (IH (i + 1)%Z (if Ascii.eqb a c then i else found))
      as [Heq|[Hle Hget]].
    + rewrite Heq. destruct (Ascii.eqb_spec a c) as [->|_].
      * right. split; [lia|]. rewrite Z.sub_diag. reflexivity.
      * left. reflexivity.
    + right. split; [lia|].
      replace (Z.to_nat (rfind_from s c (i + 1)
                           (if Ascii.eqb a c then i else found) - i))
        with (S (Z.to_nat (rfind_from s c (i + 1)
                             (if Ascii.eqb a c then i else found)
                           - (i + 1)))) by lia.
      exact Hget.
Qed.

Lemma rfind_spec (s : string) (c : ascii) :
  rfind s c = (-1)%Z \/
  (0 <= rfind s c)%Z /\ String.get (Z.to_nat (rfind s c)) s = Some c.
Proof.
  unfold rfind. destruct (rfind_from_spec s c 0 (-1)) as [H|[Hle Hget]].
  - left. exact H.
  - right. split; [exact Hle|]. rewrite Z.sub_0_r in Hget. exact Hget.
Qed.

(** [os.path.splitext] cuts its argument in two: root and extension
    concatenate to the path, and the extension is empty or starts with a
    dot. *)
Lemma splitext_partition (p : string) :
  fst (splitext p) ++ snd (splitext p) = p /\
  (snd (splitext p) = EmptyString \/
   exists rest, snd (splitext p) = String extsep rest).
Proof.
  assert (Hnil : forall s : string, s ++ EmptyString = s).
  { intros s. induction s as [|c s IH]; [reflexivity|].
    rewrite append_cons, IH. reflexivity. }
  unfold splitext.
  destruct (Z.ltb_spec (rfind p sep) (rfind p extsep)) as [Hlt|_];
    [|split; [apply Hnil|left; reflexivity]].
  destruct (has_name_char p _ _);
    [|split; [apply Hnil|left; reflexivity]].
  cbn [fst snd].
  destruct (rfind_spec p extsep) as [Hno|[Hpos Hget]].
  { destruct (rfind_spec p sep) as [Hs|[Hs _]]; lia. }
  pose proof (get_length _ _ _ Hget) as Hd.
  split.
  - apply substring_split. lia.
  - right.
    replace (String.length p - Z.to_nat (rfind p extsep))%nat
      with (S (String.length p - Z.to_nat (rfind p extsep) - 1)) by lia.
    rewrite (substring_head _ _ _ _ Hget). eexists. reflexivity.
Qed.

Lemma endswith_append (s p : string) : endswith (s ++ p) p = true.
Proof.
  unfold endswith. rewrite length_append.
  destruct (Nat.leb_spec (String.length p)
              (String.length s + String.length p)) as [_|]; [|lia].
  replace (String.length s + String.length p - String.length p)%nat
    with (String.length s) by lia.
  rewrite substring_skip, substring_all. cbn [andb]. apply String.eqb_refl.
Qed.

Lemma lower_append (s t : string) : lower (s ++ t) = lower s ++ lower t.
Proof.
  induction s as [|c s IH]; [reflexivity|].
  rewrite append_cons. cbn [lower]. rewrite IH. reflexivity.
Qed.

Lemma output_name_fresh (filename face : string) :
  Spec.output_name filename face <> filename.
Proof.
  unfold Spec.output_name. intros Heq.
  destruct (splitext_partition filename) as [Hsplit Hext].
  assert (Hcut : fst (splitext filename) ++ "_" ++ face ++ ".jpg"
                 = fst (splitext filename) ++ snd (splitext filename))
    by (rewrite Hsplit; exact Heq).
  apply (inj (String.append (fst (splitext filename)))) in Hcut.
  destruct Hext as [Hnil|[rest Hdot]].
  - rewrite Hnil in Hcut. discriminate Hcut.
  - rewrite Hdot in Hcut. discriminate Hcut.
Qed.

Lemma output_name_accepted (filename face : string) :
  Spec.accepted (Spec.output_name filename face) = true.
Proof.
  unfold Spec.accepted, Spec.output_name, endswith_any,
    Perspective.image_extensions.
  cbn [existsb].
  rewrite <- !append_assoc, lower_append.
  change (lower ".jpg") with ".jpg".
  rewrite endswith_append. reflexivity.
Qed.

Lemma append_inj_r (s t u : string) : s ++ u = t ++ u -> s = t.
Proof.
  revert t. induction s as [|c s IH]; intros [|d t] Heq.
  - reflexivity.
  - apply (f_equal String.length) in Heq.
    rewrite !length_append in Heq. cbn [String.length] in Heq. lia.
  - apply (f_equal String.length) in Heq.
    rewrite !length_append in Heq. cbn [String.length] in Heq. lia.
  - rewrite !append_cons in Heq. injection Heq as -> Heq.
    f_equal. apply IH. exact Heq.
Qed.

Lemma output_name_face_inj (filename face1 face2 : string) :
  Spec.output_name filename face1 = Spec.output_name filename face2 ->
  face1 = face2.
Proof.
  unfold Spec.output_name. intros Heq.
  apply (inj (String.append (fst (splitext filename)))) in Heq.
  apply (inj (String.append "_")) in Heq.
  apply append_inj_r in Heq. exact Heq.
Qed.

End NameFacts.

(** ** Further properties of the batch driver *)

Module OrchestratorMore.

Import Np Cv2 Perspective Spec Geometry GridFacts PipelineFacts
  OrchestratorFacts.

(** X12: every file the driver writes is a face of a listed, accepted, readable
    input, stored in the output folder under <base>_<face>.jpg.  Such a name
    is never the name of the input it comes from, names of different faces
    differ, and every written name has itself an accepted image extension
    (a later run over the output folder would process the faces again). *)
Theorem written_files_named (listdir : list string)
    (imread : string -> option image)
    (input_folder output_folder : string) (face_size : Z) :
  (1 <= face_size)%Z ->
  (forall path img,
     imread path = Some img -> (1 <= height img)%nat /\ (1 <= width img)%nat) ->
  (forall path img,
     In (path, img)
       (fst (process_panoramas listdir imread input_folder output_folder
               face_size)) ->
     exists filename face,
       In filename listdir /\ In face face_names /\
       accepted filename = true /\
       imread (OsPath.join input_folder filename) <> None /\
       path = OsPath.join output_folder
                (fst (OsPath.splitext filename) ++ "_" ++ face
                 ++ ".jpg")%string) /\
  (forall filename face,
     (fst (OsPath.splitext filename) ++ "_" ++ face ++ ".jpg")%string
     <> filename /\
     accepted (fst (OsPath.splitext filename) ++ "_" ++ face ++ ".jpg")%string
     = true) /\
  (forall filename face1 face2,
     (fst (OsPath.splitext filename) ++ "_" ++ face1 ++ ".jpg")%string
     = (fst (OsPath.splitext filename) ++ "_" ++ face2 ++ ".jpg")%string ->
     face1 = face2).
Proof.
  intros Hfs Hread. split; [|split].
  - intros path img Hin. unfold process_panoramas in Hin.
    rewrite panorama_loop_eq in Hin by assumption.
    cbn [fst app] in Hin.
    apply in_flat_map in Hin. destruct Hin as (filename & Hfile & Hin).
    unfold writes_for in Hin.
    destruct (accepted filename) eqn:Hacc; [|destruct Hin].
    destruct (imread (OsPath.join input_folder filename)) as [src|] eqn:Hsrc;
      [|destruct Hin].
    cbn in Hin.
    destruct Hin as [Hin|[Hin|[Hin|[Hin|[]]]]]; injection Hin as <- _;
      [exists filename, "front"%string | exists filename, "right"%string
      | exists filename, "back"%string | exists filename, "left"%string];
      (split; [exact Hfile|]); (split; [cbn; auto|]);
      (split; [exact Hacc|]); (split; [rewrite Hsrc; discriminate|]);
      reflexivity.
  - intros filename face. split.
    + apply NameFacts.output_name_fresh.
    + apply (NameFacts.output_name_accepted filename face).
  - intros filename face1 face2.
    apply (NameFacts.output_name_face_inj filename face1 face2).
Qed.

Lemma written_files_named_witness :
  (forall path img,
     In (path, img)
       (fst (process_panoramas ["a.png"%string] (fun _ => Some strip9)
               "in" "out" 1)) ->
     exists filename face,
       In filename ["a.png"%string] /\ In face face_names /\
       accepted filename = true /\
       (fun _ : string => Some strip9) (OsPath.join "in" filename) <> None /\
       path = OsPath.join "out"
                (fst (OsPath.splitext filename) ++ "_" ++ face
                 ++ ".jpg")%string) /\
  (forall filename face,
     (fst (OsPath.splitext filename) ++ "_" ++ face ++ ".jpg")%string
     <> filename /\
     accepted (fst (OsPath.splitext filename) ++ "_" ++ face ++ ".jpg")%string
     = true) /\
  (forall filename face1 face2,
     (fst (OsPath.splitext filename) ++ "_" ++ face1 ++ ".jpg")%string
     = (fst (OsPath.splitext filename) ++ "_" ++ face2 ++ ".jpg")%string ->
     face1 = face2).
Proof.
  apply (written_files_named ["a.png"%string] (fun _ => Some strip9)
           "in" "out" 1).
  - lia.
  - intros path img H. injection H as <-. cbn. lia.
Defined.

Lemma equirectangular_to_cubemap_degenerate (img : image) (face_size : Z) :
  (face_size <= 0)%Z ->
  equirectangular_to_cubemap img face_size
  = Raise (degenerate_error face_size).
Proof.
  intros Hfs. unfold equirectangular_to_cubemap, face_names.
  cbn [cubemap_loop].
  change (face_angles "front") with (Ok (0, 0, 0))%R.
  rewrite bind_Ok. cbv beta iota. unfold degenerate_error.
  destruct (Z.ltb_spec face_size 0) as [Hneg|Hz].
  - rewrite perspective_projection_negative by exact Hneg. reflexivity.
  - assert (face_size = 0%Z) as -> by lia.
    rewrite perspective_projection_zero. reflexivity.
Qed.




Lemma equirectangular_to_cubemap_empty (img : image) (face_size : Z) :
  (1 <= face_size)%Z -> height img = 0%nat \/ width img = 0%nat ->
  equirectangular_to_cubemap img face_size = Raise (CvError "len > 0").
Proof.
  intros Hfs Hempty. unfold equirectangular_to_cubemap, face_names.
  cbn [cubemap_loop].
  change (face_angles "front") with (Ok (0, 0, 0))%R.
  rewrite bind_Ok. cbv beta iota.
  rewrite perspective_projection_empty by assumption. reflexivity.
Qed.

(** X14: for a given panorama and face size, whether a projection fails, and
    with which exception, is the same for every direction (yaw, pitch,
    roll).  [equirectangular_to_cubemap] therefore either raises that
    exception, or returns exactly the four projections for yaw 0, 90, 180 and
    -90 degrees, in this order; in the latter case the projection succeeds
    for every direction. *)
Theorem cubemap_all_or_nothing (img : image) (face_size : Z) :
  (exists e,
     (forall yaw pitch roll,
        perspective_projection img face_size yaw pitch roll = Raise e) /\
     equirectangular_to_cubemap img face_size = Raise e) \/
  (exists front right back left,
     perspective_projection img face_size 0 0 0 = Ok front /\
     perspective_projection img face_size 90 0 0 = Ok right /\
     perspective_projection img face_size 180 0 0 = Ok back /\
     perspective_projection img face_size (-90) 0 0 = Ok left /\
     equirectangular_to_cubemap img face_size
     = Ok [front; right; back; left] /\
     (forall yaw pitch roll,
        exists face_img,
          perspective_projection img face_size yaw pitch roll
          = Ok face_img)).
Proof.
  destruct (Z_lt_le_dec face_size 1) as [Hsmall|Hfs].
  - left. exists (degenerate_error face_size). split.
    + intros yaw pitch roll. unfold degenerate_error.
      destruct (Z.ltb_spec face_size 0) as [Hneg|Hz].
      * apply perspective_projection_negative. exact Hneg.
      * assert (face_size = 0%Z) as -> by lia.
        apply perspective_projection_zero.
    + apply equirectangular_to_cubemap_degenerate. lia.
  - destruct (Nat.eq_dec (height img) 0) as [Hh|Hh].
    { left. exists (CvError "len > 0"). split.
      - intros. apply perspective_projection_empty; auto.
      - apply equirectangular_to_cubemap_empty; auto. }
    destruct (Nat.eq_dec (width img) 0) as [Hw|Hw].
    { left. exists (CvError "len > 0"). split.
      - intros. apply perspective_projection_empty; auto.
      - apply equirectangular_to_cubemap_empty; auto. }
    right. do 4 eexists.
    repeat (split; [apply perspective_projection_eq; lia|]).
    split; [apply equirectangular_to_cubemap_eq; lia|].
    intros yaw pitch roll. eexists.
    apply perspective_projection_eq; lia.
Qed.

End OrchestratorMore.

(** ** Tokens *)

Module SplitFacts.

Import PyText.

Lemma split_from_cons (c : N) (s : text) (cur : option text) :
  split_from (c :: s) cur
  = if isspace c then (flush cur ++ split_from s None)%list
    else split_from s
           (Some (match cur with Some w => w | None => [] end ++ [c])%list).
Proof. reflexivity. Qed.

Lemma split_from_rstrip (s : text) (cur : option text) :
  split_from (rstrip s) cur = split_from s cur.
Proof.
  revert cur. induction s as [|c s IH]; intros cur; [reflexivity|].
  cbn [rstrip]. destruct (rstrip s) as [|d r] eqn:Hr.
  - destruct (isspace c) eqn:Hc; cbn [split_from]; rewrite Hc.
    + rewrite <- IH. cbn [split_from flush]. rewrite app_nil_r. reflexivity.
    + rewrite <- IH. reflexivity.
  - rewrite (split_from_cons c (d :: r)), (split_from_cons c s).
    rewrite !IH. reflexivity.
Qed.

Lemma split_lstrip (s : text) : split (lstrip s) = split s.
Proof.
  unfold split. induction s as [|c s IH]; [reflexivity|].
  cbn [lstrip]. destruct (isspace c) eqn:Hc; [|reflexivity].
  rewrite split_from_cons, Hc. exact IH.
Qed.

(** Stripping a line before splitting it changes nothing. *)
Lemma split_strip (s : text) : split (strip s) = split s.
Proof.
  unfold strip. rewrite split_lstrip. unfold split.
  apply split_from_rstrip.
Qed.

Lemma strip_empty_split (s : text) : strip s = [] -> split s = [].
Proof. intros H. rewrite <- split_strip, H. reflexivity. Qed.

End SplitFacts.

(** ** The table writer *)

Module CsvFacts.

Import PyText ExportCameraTrajectory CsvExport ParserFacts.
Local Open Scope string_scope.

Section Save.

Context {float : Type} (py_float : text -> option float)
  (str_float : float -> string)
  (decode : list Byte.byte -> option text)
  (console : message -> option exn).

Lemma writeheader_fieldnames :
  writeheader str_float fieldnames = Ok (csv_header).
Proof. vm_compute. reflexivity. Qed.

Lemma dict_writerow_ok (data : gmap string float) :
  dom data ⊆ list_to_set fieldnames ->
  dict_writerow str_float fieldnames (Number <$> data)
  = Ok (dict_row str_float data).
Proof.
  intros Hdom. unfold dict_writerow, dict_to_list.
  rewrite bool_decide_true by (rewrite dom_fmap_L; exact Hdom).
  rewrite GridFacts.bind_Ok. unfold dict_row.
  change (mret ?x) with (Ok x). f_equal. f_equal.
  rewrite map_map. apply map_ext. intros key.
  rewrite lookup_fmap. destruct (data !! key); reflexivity.
Qed.

Lemma dict_writerow_foreign (data : gmap string float) :
  ~ dom data ⊆ list_to_set fieldnames ->
  dict_writerow str_float fieldnames (Number <$> data)
  = Raise (ValueError "dict contains fields not in fieldnames").
Proof.
  intros Hdom. unfold dict_writerow, dict_to_list.
  rewrite bool_decide_false by (rewrite dom_fmap_L; exact Hdom).
  reflexivity.
Qed.

Lemma concat_rows_app (a b : list string) :
  concat_rows (a ++ b) = concat_rows a ++ concat_rows b.
Proof.
  induction a as [|r a IH]; [reflexivity|].
  cbn [app concat_rows fold_right]. fold (concat_rows (a ++ b)).
  fold (concat_rows a). rewrite IH, NameFacts.append_assoc. reflexivity.
Qed.

Lemma write_rows_good (good rest : list (gmap string float))
    (written : string) :
  Forall (fun data => dom data ⊆ list_to_set fieldnames) good ->
  write_rows str_float (good ++ rest) written
  = write_rows str_float rest
      (written ++ concat_rows (map (dict_row str_float) good)).
Proof.
  intros Hgood. revert written.
  induction Hgood as [|data good Hdata _ IH]; intros written.
  - cbn. f_equal. clear. induction written as [|c w IH]; [reflexivity|].
    rewrite NameFacts.append_cons, <- IH. reflexivity.
  - cbn [app write_rows]. rewrite dict_writerow_ok by exact Hdata.
    rewrite IH. cbn [map concat_rows fold_right].
    fold (concat_rows (map (dict_row str_float) good)).
    rewrite NameFacts.append_assoc. reflexivity.
Qed.

(** The text the [with] block writes and the way it ends. *)
Lemma write_table_rows (good : list (gmap string float)) :
  Forall (fun data => dom data ⊆ list_to_set fieldnames) good ->
  write_table str_float good
  = (csv_header ++ concat_rows (map (dict_row str_float) good), Ok tt) /\
  (forall bad rest,
     ~ dom bad ⊆ list_to_set fieldnames ->
     write_table str_float (good ++ bad :: rest)
     = (csv_header ++ concat_rows (map (dict_row str_float) good),
        Raise (ValueError "dict contains fields not in fieldnames"))).
Proof.
  intros Hgood. unfold write_table. rewrite writeheader_fieldnames. split.
  - rewrite <- (app_nil_r good) at 1.
    rewrite write_rows_good by exact Hgood. reflexivity.
  - intros bad rest Hbad. rewrite write_rows_good by exact Hgood.
    cbn [write_rows]. rewrite dict_writerow_foreign by exact Hbad.
    reflexivity.
Qed.

Lemma record_of_line_values (line : text) :
  record_of_line py_float line
  = record_of_values <$> values_of_line py_float line.
Proof.
  unfold record_of_line, values_of_line.
  destruct (startswith line (of_string "#")); [reflexivity|].
  rewrite SplitFacts.split_strip.
  destruct (eqb (strip line) (of_string "")) eqn:Hblank.
  - apply eqb_empty in Hblank.
    rewrite (SplitFacts.strip_empty_split line Hblank). reflexivity.
  - destruct (length (split line) =? 13)%nat; [|reflexivity].
    destruct (floats_of py_float (split line)); reflexivity.
Qed.

Lemma omap_record_values (lines : list text) :
  omap (record_of_line py_float) lines
  = map record_of_values (omap (values_of_line py_float) lines).
Proof.
  induction lines as [|line lines IH]; [reflexivity|].
  cbn [omap list_omap]. rewrite record_of_line_values.
  destruct (values_of_line py_float line); cbn; rewrite IH; reflexivity.
Qed.

Lemma values_of_line_length (line : text) (vals : list float) :
  values_of_line py_float line = Some vals -> length vals = 13%nat.
Proof.
  unfold values_of_line.
  destruct (startswith line (of_string "#")); [discriminate|].
  destruct (Nat.eqb_spec (length (split line)) 13) as [Hlen|];
    [|discriminate].
  intros Hv. apply ParserFacts.floats_of_length in Hv. lia.
Qed.

Lemma values_Forall_length (lines : list text) :
  Forall (fun vals => length vals = 13%nat)
    (omap (values_of_line py_float) lines).
Proof.
  apply List.Forall_forall. intros vals Hin.
  apply list_elem_of_In, list_elem_of_omap in Hin.
  destruct Hin as (line & _ & Hline).
  apply (values_of_line_length line). exact Hline.
Qed.

Lemma dict_row_values (vals : list float) :
  length vals = 13%nat ->
  dom (record_of_values vals) ⊆ list_to_set fieldnames /\
  dict_row str_float (record_of_values vals) = csv_row str_float vals.
Proof.
  intros Hlen.
  destruct (ParserFacts.record_of_values_fields vals Hlen) as [Hdom Hfields].
  split; [rewrite Hdom; reflexivity|].
  unfold dict_row, csv_row. f_equal.
  transitivity (map (fun o : option float =>
                       match o with
                       | Some v => str_float v
                       | None => EmptyString
                       end)
                  (map (fun name => record_of_values vals !! name)
                     fieldnames)).
  - rewrite map_map. reflexivity.
  - rewrite Hfields, map_map. reflexivity.
Qed.


(** Lines with the same tokens and the same '#' test stand for the same
    records. *)
Lemma records_tokens (lines1 lines2 : list text) :
  Forall2 (fun a b =>
             startswith a (of_string "#") = startswith b (of_string "#") /\
             split a = split b) lines1 lines2 ->
  omap (record_of_line py_float) lines1
  = omap (record_of_line py_float) lines2.
Proof.
  intros Hsame. rewrite !omap_record_values. f_equal.
  induction Hsame as [|a b l1 l2 [Hhash Htok] _ IH]; [reflexivity|].
  cbn [omap list_omap]. rewrite IH.
  assert (Hline : values_of_line py_float a = values_of_line py_float b).
  { unfold values_of_line. rewrite Hhash, Htok. reflexivity. }
  rewrite Hline. reflexivity.
Qed.

Lemma print_then_fst_accepted {A : Type} (ms : list message) (a : A)
    (w : world) :
  (forall m, console m = None) ->
  print_then console ms a w = (Ok a, with_messages w ms).
Proof.
  intros Hall. apply print_then_accepted.
  apply List.Forall_forall. intros m _. apply Hall.
Qed.

(** X15: the records depend on a line only through its tokens and through
    whether it starts with '#': leading and trailing blanks, the line end and
    the amount of white space between tokens do not matter.  Two runs of the
    loop over such lines that end normally return the same records, whatever
    was printed before and is printed for the lines; with a console that
    takes every message both end normally.  The same holds for
    [parse_cameras] on two files whose lines agree in this way. *)
Theorem parse_cameras_tokens (lines1 lines2 : list text)
    (cameras_data : list camera) (w1 w2 : world) :
  Forall2 (fun a b =>
             startswith a (of_string "#") = startswith b (of_string "#") /\
             split a = split b) lines1 lines2 ->
  (forall recs1 recs2 w1' w2',
     parse_lines py_float console lines1 cameras_data w1 = (Ok recs1, w1') ->
     parse_lines py_float console lines2 cameras_data w2 = (Ok recs2, w2') ->
     recs1 = recs2) /\
  ((forall m, console m = None) ->
   exists recs,
     fst (parse_lines py_float console lines1 cameras_data w1) = Ok recs /\
     fst (parse_lines py_float console lines2 cameras_data w2) = Ok recs) /\
  (forall path1 path2 content1 content2 t1 t2,
     files w1 !! path1 = Some (File content1) ->
     files w2 !! path2 = Some (File content2) ->
     decode content1 = Some t1 -> decode content2 = Some t2 ->
     Codec.lines t1 = lines1 -> Codec.lines t2 = lines2 ->
     (forall m, console m = None) ->
     exists recs,
       fst (parse_cameras py_float decode console path1 w1) = Ok recs /\
       fst (parse_cameras py_float decode console path2 w2) = Ok recs).
Proof.
  intros Hsame. pose proof (records_tokens lines1 lines2 Hsame) as Hrecs.
  split; [|split].
  - intros recs1 recs2 w1' w2'. rewrite !parse_lines_eq.
    intros H1 H2. apply print_then_returns in H1, H2.
    rewrite H1, H2, Hrecs. reflexivity.
  - intros Hall. eexists. rewrite !parse_lines_eq.
    rewrite !print_then_fst_accepted by exact Hall.
    rewrite Hrecs. split; reflexivity.
  - intros path1 path2 content1 content2 t1 t2 Hf1 Hf2 Hd1 Hd2 Hl1 Hl2 Hall.
    eexists. rewrite !parse_cameras_eq, Hf1, Hf2, Hd1, Hd2, Hl1, Hl2.
    rewrite !print_then_fst_accepted by exact Hall.
    rewrite Hrecs. split; reflexivity.
Qed.


Lemma with_open_w_free (output_file : string) (body : string * result unit)
    (w : world) :
  (forall e, files w !! output_file <> Some (Blocked e)) ->
  with_open_w output_file body w
  = (snd body, with_file w output_file (fst body)).
Proof.
  intros Hfree. unfold with_open_w.
  destruct (files w !! output_file) as [[content|e]|]; try reflexivity.
  exfalso. apply (Hfree e). reflexivity.
Qed.

(** X17: [save_to_csv] opens the output file first: when that fails it
    raises the OSError and nothing is written or printed.  Otherwise it
    writes the header row and one row per record, with an empty field for a
    missing key, as long as the records only have keys among the 13 column
    names, and then prints its message, ending normally when the console
    takes it; at the first record with another key it raises ValueError, the
    file then holds the header and the rows of the records before that one,
    and nothing is printed. *)
Theorem save_to_csv_rows (good : list (gmap string float))
    (output_file : string) (w : world) :
  Forall (fun data => dom data ⊆ list_to_set fieldnames) good ->
  (forall e cameras_data,
     files w !! output_file = Some (Blocked e) ->
     save_to_csv str_float console cameras_data output_file w
     = (Raise e, w)) /\
  ((forall e, files w !! output_file <> Some (Blocked e)) ->
   save_to_csv str_float console good output_file w
   = print console (Saved output_file)
       (with_file w output_file
          (csv_header ++ concat_rows (map (dict_row str_float) good))) /\
   (console (Saved output_file) = None ->
    save_to_csv str_float console good output_file w
    = (Ok tt,
       with_messages
         (with_file w output_file
            (csv_header ++ concat_rows (map (dict_row str_float) good)))
         [Saved output_file])) /\
   (forall bad rest,
      ~ dom bad ⊆ list_to_set fieldnames ->
      save_to_csv str_float console (good ++ bad :: rest)%list output_file w
      = (Raise (ValueError "dict contains fields not in fieldnames"),
         with_file w output_file
           (csv_header ++ concat_rows (map (dict_row str_float) good))))).
Proof.
  intros Hgood. split.
  { intros e cameras_data Hblocked. unfold save_to_csv.
    rewrite io_bind_run. unfold with_open_w. rewrite Hblocked.
    reflexivity. }
  intros Hfree.
  destruct (write_table_rows good Hgood) as [Htable Hbad].
  assert (Hrun : save_to_csv str_float console good output_file w
                 = print console (Saved output_file)
                     (with_file w output_file
                        (csv_header
                         ++ concat_rows (map (dict_row str_float) good)))).
  { unfold save_to_csv. rewrite io_bind_run.
    rewrite with_open_w_free by exact Hfree. rewrite Htable. reflexivity. }
  split; [exact Hrun|]. split.
  - intros Hprint. rewrite Hrun. unfold print. rewrite Hprint. reflexivity.
  - intros bad rest Hforeign. unfold save_to_csv. rewrite io_bind_run.
    rewrite with_open_w_free by exact Hfree.
    rewrite (Hbad bad rest Hforeign). reflexivity.
Qed.

(** X18: [main] reads cameras.txt, prints the messages of its skipped lines
    and, when at least one line stands for a record, writes
    camera_coordinates.csv.  It raises when cameras.txt does not exist
    (FileNotFoundError), cannot be opened (its OSError) or cannot be decoded
    (UnicodeDecodeError), when the console refuses a message, and when the
    output file cannot be opened; the writer's ValueError never occurs.  When
    it does not raise, no file is written if no line stands for a record;
    otherwise the file holds the header row followed, in the order of the
    lines, by one row per record, whose 13 fields are the numbers of that
    line as [str] prints them. *)
Theorem main_outcome (w : world) :
  main py_float str_float decode console w
  = match files w !! "cameras.txt" with
    | None => (Raise (FileNotFoundError "cameras.txt"), w)
    | Some (Blocked e) => (Raise e, w)
    | Some (File content) =>
        match decode content with
        | None =>
            (Raise (UnicodeDecodeError "codec can't decode bytes"), w)
        | Some t =>
            match
              print_then console
                (concat (map (line_messages py_float) (Codec.lines t)))
                (omap (values_of_line py_float) (Codec.lines t)) w
            with
            | (Raise e, w') => (Raise e, w')
            | (Ok [], w') => print console NoData w'
            | (Ok recs, w') =>
                match files w' !! "camera_coordinates.csv" with
                | Some (Blocked e) => (Raise e, w')
                | _ =>
                    print console (Saved "camera_coordinates.csv")
                      (with_file w' "camera_coordinates.csv"
                         (csv_header
                          ++ concat_rows (map (csv_row str_float) recs)))
                end
            end
        end
    end /\
  (forall t, Forall (fun vals => length vals = 13%nat)
               (omap (values_of_line py_float) (Codec.lines t))) /\
  (forall content t,
     files w !! "cameras.txt" = Some (File content) ->
     decode content = Some t ->
     (forall m, console m = None) ->
     (forall e, files w !! "camera_coordinates.csv" <> Some (Blocked e)) ->
     main py_float str_float decode console w
     = match omap (values_of_line py_float) (Codec.lines t) with
       | [] =>
           (Ok tt,
            with_messages w
              (concat (map (line_messages py_float) (Codec.lines t))
               ++ [NoData]))
       | recs =>
           (Ok tt,
            with_messages
              (with_file w "camera_coordinates.csv"
                 (csv_header ++ concat_rows (map (csv_row str_float) recs)))
              (concat (map (line_messages py_float) (Codec.lines t))
               ++ [Saved "camera_coordinates.csv"]))
       end).
Proof.
  assert (Hmain : main py_float str_float decode console w
    = match files w !! "cameras.txt" with
    | None => (Raise (FileNotFoundError "cameras.txt"), w)
    | Some (Blocked e) => (Raise e, w)
    | Some (File content) =>
        match decode content with
        | None =>
            (Raise (UnicodeDecodeError "codec can't decode bytes"), w)
        | Some t =>
            match
              print_then console
                (concat (map (line_messages py_float) (Codec.lines t)))
                (omap (values_of_line py_float) (Codec.lines t)) w
            with
            | (Raise e, w') => (Raise e, w')
            | (Ok [], w') => print console NoData w'
            | (Ok recs, w') =>
                match files w' !! "camera_coordinates.csv" with
                | Some (Blocked e) => (Raise e, w')
                | _ =>
                    print console (Saved "camera_coordinates.csv")
                      (with_file w' "camera_coordinates.csv"
                         (csv_header
                          ++ concat_rows (map (csv_row str_float) recs)))
                end
            end
        end
    end).
  { unfold main. rewrite io_bind_run, parse_cameras_eq.
    destruct (files w !! "cameras.txt") as [[content|e]|]; try reflexivity.
    destruct (decode content) as [t|]; [|reflexivity].
    rewrite omap_record_values.
    pose proof (values_Forall_length (Codec.lines t)) as Hlen.
    set (ms := concat (map (line_messages py_float) (Codec.lines t))).
    set (recs := omap (values_of_line py_float) (Codec.lines t)) in *.
    assert (Hthen : forall (A : Type) (a : A),
               print_then console ms a w
               = match print_then console ms tt w with
                 | (Ok _, w') => (Ok a, w')
                 | (Raise e, w') => (Raise e, w')
                 end).
    { intros A a. clear. revert w.
      induction ms as [|m ms IH]; intros w; [reflexivity|].
      rewrite !print_then_cons. destruct (console m); [reflexivity|].
      apply IH. }
    rewrite (Hthen _ (map record_of_values recs)), (Hthen _ recs).
    destruct (print_then console ms tt w) as [[[]|e] w']; [|reflexivity].
    destruct recs as [|vals recs]; [reflexivity|].
    cbn [map].
    change (record_of_values vals :: map record_of_values recs)
      with (map record_of_values (vals :: recs)).
    assert (Hgood : Forall (fun data => dom data ⊆ list_to_set fieldnames)
                      (map record_of_values (vals :: recs))).
    { apply List.Forall_forall. intros data Hdata.
      apply in_map_iff in Hdata. destruct Hdata as (v & <- & Hv).
      rewrite List.Forall_forall in Hlen.
      apply dict_row_values. apply Hlen. exact Hv. }
    assert (Hrows : map (dict_row str_float)
                      (map record_of_values (vals :: recs))
                    = map (csv_row str_float) (vals :: recs)).
    { rewrite map_map. apply map_ext_in. intros v Hv.
      rewrite List.Forall_forall in Hlen.
      apply dict_row_values. apply Hlen. exact Hv. }
    destruct (save_to_csv_rows _ "camera_coordinates.csv" w' Hgood)
      as [Hblocked Hfree].
    destruct (files w' !! "camera_coordinates.csv") as [[c|e]|] eqn:Hout.
    - destruct Hfree as [-> _]; [congruence|]. rewrite Hrows. reflexivity.
    - apply Hblocked. reflexivity.
    - destruct Hfree as [-> _]; [congruence|]. rewrite Hrows. reflexivity. }
  split; [exact Hmain|]. split; [intros t; apply values_Forall_length|].
  intros content t Hfile Hdec Hall Hfree.
  rewrite Hmain, Hfile, Hdec. rewrite print_then_fst_accepted by exact Hall.
  destruct (omap (values_of_line py_float) (Codec.lines t)) as [|vals recs].
  - unfold print. rewrite Hall. unfold with_messages. cbn [files stdout].
    rewrite app_assoc. reflexivity.
  - assert (Hfree' : forall e,
              files (with_messages w
                       (concat (map (line_messages py_float)
                                  (Codec.lines t))))
                !! "camera_coordinates.csv" <> Some (Blocked e))
      by exact Hfree.
    destruct (files _ !! "camera_coordinates.csv") as [[c|e]|] eqn:Hout.
    + unfold print. rewrite Hall. unfold with_messages, with_file.
      cbn [files stdout]. rewrite app_assoc. reflexivity.
    + exfalso. apply (Hfree' e). reflexivity.
    + unfold print. rewrite Hall. unfold with_messages, with_file.
      cbn [files stdout]. rewrite app_assoc. reflexivity.
Qed.

End Save.

Lemma parse_cameras_tokens_witness :
  exists recs,
    fst (parse_cameras toy_float Codec.utf_8 console_utf8 "a.txt"
           tokens_world) = Ok recs /\
    fst (parse_cameras toy_float Codec.utf_8 console_utf8 "b.txt"
           tokens_world) = Ok recs.
Proof.
  assert (Hsame : Forall2
                    (fun a b =>
                       startswith a (of_string "#")
                       = startswith b (of_string "#") /\
                       split a = split b)
                    [of_string tight_line] [of_string loose_line]).
  { apply List.Forall2_cons; [|apply List.Forall2_nil].
    split; vm_compute; reflexivity. }
  destruct (parse_cameras_tokens toy_float Codec.utf_8 console_utf8
              [of_string tight_line] [of_string loose_line] []
              tokens_world tokens_world Hsame) as (_ & _ & Hfiles).
  apply (Hfiles "a.txt" "b.txt" (ascii_bytes tight_line)
           (ascii_bytes loose_line) (of_string tight_line)
           (of_string loose_line));
    vm_compute; reflexivity.
Defined.

Lemma save_to_csv_rows_witness :
  save_to_csv toy_str console_utf8 [{[ "Tx" := 1%nat ]}] "out.csv"
    empty_world
  = (Ok tt,
     with_messages
       (with_file empty_world "out.csv"
          (csv_header
           ++ concat_rows (map (dict_row toy_str) [{[ "Tx" := 1%nat ]}])))
       [Saved "out.csv"]) /\
  (forall bad rest,
     ~ dom bad ⊆ list_to_set fieldnames ->
     save_to_csv toy_str console_utf8
       ([{[ "Tx" := 1%nat ]}] ++ bad :: rest)%list "out.csv" empty_world
     = (Raise (ValueError "dict contains fields not in fieldnames"),
        with_file empty_world "out.csv"
          (csv_header
           ++ concat_rows (map (dict_row toy_str) [{[ "Tx" := 1%nat ]}])))).
Proof.
  assert (Hgood : Forall (fun data : gmap string nat =>
                            dom data ⊆ list_to_set fieldnames)
                    [{[ "Tx" := 1%nat ]}]).
  { constructor; [|constructor].
    apply (bool_decide_unpack _). vm_compute. exact I. }
  destruct (save_to_csv_rows toy_str console_utf8 [{[ "Tx" := 1%nat ]}]
              "out.csv" empty_world Hgood) as [_ Hfree].
  destruct Hfree as (_ & Hok & Hbad).
  { intros e. discriminate. }
  split; [apply Hok; reflexivity|exact Hbad].
Defined.

Lemma main_outcome_witness :
  main toy_float toy_str Codec.utf_8 console_utf8 example_world
  = (Ok tt,
     with_messages
       (with_file example_world "camera_coordinates.csv"
          (csv_header
           ++ csv_row toy_str [1; 1; 1; 1; 1; 1; 1; 1; 1; 1; 1; 1; 2]%nat))
       [SkippedLine (of_string "bad line");
        Saved "camera_coordinates.csv"]) /\
  main toy_float toy_str Codec.utf_8 console_utf8 broken_world
  = (Raise (UnicodeDecodeError "codec can't decode bytes"), broken_world) /\
  main toy_float toy_str Codec.utf_8 console_utf8 empty_world
  = (Raise (FileNotFoundError "cameras.txt"), empty_world).
Proof.
  split; [|split; vm_compute; reflexivity].
  destruct (main_outcome toy_float toy_str Codec.utf_8 console_utf8
              example_world) as (_ & _ & Hgood).
  assert (Hdec : Codec.utf_8 example_file = Some (of_string example_text))
    by (vm_compute; reflexivity).
  rewrite (Hgood example_file (of_string example_text));
    [vm_compute; reflexivity
    |reflexivity
    |exact Hdec
    |intros m; reflexivity
    |intros e; discriminate].
Defined.

End CsvFacts.

(** ** The rows of the panorama are never wrapped *)

Module PoleFacts.

Import Np Cv2 Perspective Spec Rows ResamplerFacts PipelineFacts.
Local Open Scope R_scope.







End PoleFacts.
